(** * Liveness check: face locator, challenge evaluators, sequence controller

    A shallow embedding of [src/utils/liveness.ts] and the properties its
    specification states about it.

    Numbers.  A JavaScript number is a binary64 datum.  It is modelled by
    [JS.num]: the rational it stands for, one of the two infinities, or
    NaN.  The arithmetic operators compute the exact result and round it
    to the nearest double, ties to even, with gradual underflow and
    overflow to infinity ([JS.round]); a decimal literal such as [1.15]
    is the double nearest to it ([JS.lit]).  Only the sign of zero is not
    kept: no divisor of the source can be a negative zero.  Loop counters,
    pixel indices, counts and canvas sizes are integers in the source and
    are kept in [Z], which is what they are in binary64 below 2^53; a
    face box 2^53 pixels or more from the origin, where the counters of
    the source would stop counting, is outside the model.  Three
    computations are written on exact rationals, where binary64 gives the
    same: the floor of a finite number and a product by [0.25], which are
    exact; [Math.floor(n * 0.2)] and [Math.floor(n * 0.6)]
    ([floorMul_as_computed]); and the test of [changed / total] against
    [0.06] ([blinkVerdict_as_computed]).

    Platform.  What the browser does is taken from its standard:
    [getContext('2d')] yields a context or [null]; [getImageData] with a
    width or height of zero throws [IndexSizeError], and on a bitmap that
    is not origin-clean it throws [SecurityError]; an index outside a
    typed array reads [undefined]; [setTimeout] fires no earlier than
    asked.

    Effects.  [runLivenessSequence] is asynchronous code over a video
    element, a canvas, the wall clock and an optional platform detector.
    It is embedded in a state-and-exception monad over a [World] (clock,
    canvas contents, log of effects); the environment [Env] supplies what
    the platform decides: the video frame showing at each instant, what the
    platform detector answers, and how long each suspension really takes.
    The canvas of a run is drawn from the camera stream only, so it is
    origin-clean.  The two [while] loops are bounded by the clock; their
    embeddings take fuel, and are proved never to run out of it. *)

From Stdlib Require Import ZArith QArith Qround Qabs Qminmax Qpower List String Lia Lqa Bool.
From Stdlib Require Import SpecFloat.
Import ListNotations.

Local Open Scope Z_scope.

(* ================================================================== *)
(** ** JavaScript numbers *)
(* ================================================================== *)

Module JS.

Inductive num : Type :=
| NaN
| PInf
| NInf
| Fin (q : Q).

Definition ofZ (z : Z) : num := Fin (inject_Z z).

Definition Qltb (x y : Q) : bool := negb (Qle_bool y x).

Definition neg (a : num) : num :=
  match a with
  | NaN => NaN
  | PInf => NInf
  | NInf => PInf
  | Fin x => Fin (- x)
  end.

(** 2 to the power [k]. *)
Definition pow2 (k : Z) : Q := (2 ^ k)%Q.

(** The exponent of a positive rational: the [k] with
    [2^k <= a < 2^(k+1)]. *)
Definition ilog2 (a : Q) : Z :=
  let k := Z.log2 (Qnum a) - Z.log2 (Zpos (Qden a)) in
  if Qle_bool (pow2 k) a then k else k - 1.

(** The integer nearest to [m], the even one of two that are as near. *)
Definition nearestEven (m : Q) : Z :=
  let f := Qfloor m in
  match (m - inject_Z f ?= 1 # 2)%Q with
  | Lt => f
  | Gt => f + 1
  | Eq => if Z.even f then f else f + 1
  end.

(** The double nearest to a positive rational: 53 bits at the exponent
    of [a], the exponent no lower than -1022 (below it the doubles are
    2^-1074 apart), and infinity from 2^1024 on. *)
Definition roundPos (a : Q) : num :=
  let e := Z.max (ilog2 a) (-1022) in
  let ulp := pow2 (e - 52) in
  let v := (inject_Z (nearestEven (a / ulp)) * ulp)%Q in
  if Qle_bool (pow2 1024) v then PInf else Fin (Qred v).

(** Rounding to binary64, to nearest, ties to even. *)
Definition round (q : Q) : num :=
  match Qnum q with
  | Z0 => Fin 0
  | Zpos _ => roundPos q
  | Zneg _ => neg (roundPos (- q))
  end.

(** A decimal literal of the source. *)
Definition lit (q : Q) : num := round q.

(** The rational a double stands for; that of the double nearest to [q]
    is [dbl q]. *)
Definition dbl (q : Q) : Q :=
  match round q with
  | Fin r => r
  | _ => 0
  end.

(** [a + b] *)
Definition add (a b : num) : num :=
  match a, b with
  | NaN, _ | _, NaN => NaN
  | PInf, NInf | NInf, PInf => NaN
  | PInf, _ | _, PInf => PInf
  | NInf, _ | _, NInf => NInf
  | Fin x, Fin y => round (x + y)
  end.

(** [a - b] *)
Definition sub (a b : num) : num := add a (neg b).

Definition flip (s : Z) (a : num) : num :=
  match s with
  | Z0 => NaN
  | Zpos _ => a
  | Zneg _ => neg a
  end.

Definition sgn (a : num) : Z :=
  match a with
  | NaN => 0
  | PInf => 1
  | NInf => -1
  | Fin x => Z.sgn (Qnum x)
  end.

(** [a * b] *)
Definition mul (a b : num) : num :=
  match a, b with
  | NaN, _ | _, NaN => NaN
  | Fin x, Fin y => round (x * y)
  | _, _ => flip (sgn a * sgn b) PInf
  end.

(** [a / b]; a zero divisor counts as +0. *)
Definition div (a b : num) : num :=
  match a, b with
  | NaN, _ | _, NaN => NaN
  | Fin x, Fin y =>
      if Qeq_bool y 0 then flip (Z.sgn (Qnum x)) PInf else round (x / y)
  | Fin _, _ => Fin 0
  | _, Fin y => if Qltb y 0 then neg a else a
  | _, _ => NaN
  end.

(** [a > b] *)
Definition gt (a b : num) : bool :=
  match a, b with
  | NaN, _ | _, NaN => false
  | PInf, PInf => false
  | PInf, _ => true
  | NInf, _ => false
  | Fin _, PInf => false
  | Fin _, NInf => true
  | Fin x, Fin y => Qltb y x
  end.

(** [a < b] *)
Definition lt (a b : num) : bool := gt b a.

(** [a === b] on numbers *)
Definition eqb (a b : num) : bool :=
  match a, b with
  | PInf, PInf | NInf, NInf => true
  | Fin x, Fin y => Qeq_bool x y
  | _, _ => false
  end.

(** [Math.abs(a)] *)
Definition abs (a : num) : num :=
  match a with
  | NaN => NaN
  | PInf | NInf => PInf
  | Fin x => Fin (Qabs x)
  end.

(** [Math.floor(a)] *)
Definition floor (a : num) : num :=
  match a with
  | Fin x => Fin (inject_Z (Qfloor x))
  | _ => a
  end.

(** [Math.max(a, b)] *)
Definition max (a b : num) : num :=
  match a, b with
  | NaN, _ | _, NaN => NaN
  | _, _ => if gt b a then b else a
  end.

(** The number a datum of the IEEE 754 specification of the Standard
    Library stands for. *)
Definition ofSpec (f : spec_float) : num :=
  match f with
  | S754_zero _ => Fin 0
  | S754_infinity s => if s then NInf else PInf
  | S754_nan => NaN
  | S754_finite s m e =>
      Fin ((if s then - inject_Z (Zpos m) else inject_Z (Zpos m)) * pow2 e)
  end.

(** The same number, or both NaN. *)
Definition same (a b : num) : bool :=
  match a, b with
  | NaN, NaN => true
  | _, _ => eqb a b
  end.

(** Whether the four operators agree at [a] and [b] with those of the
    IEEE 754 specification at precision 53 and maximal exponent 1024. *)
Definition agreesWithSpec (ab : spec_float * spec_float) : bool :=
  let (a, b) := ab in
  same (add (ofSpec a) (ofSpec b)) (ofSpec (SFadd 53 1024 a b)) &&
  same (sub (ofSpec a) (ofSpec b)) (ofSpec (SFsub 53 1024 a b)) &&
  same (mul (ofSpec a) (ofSpec b)) (ofSpec (SFmul 53 1024 a b)) &&
  same (div (ofSpec a) (ofSpec b)) (ofSpec (SFdiv 53 1024 a b)).

End JS.

Arguments JS.round : simpl never.
Arguments JS.lit : simpl never.
Arguments JS.dbl : simpl never.

(** [for (let i = lo; i < lo + n; i++)]: the values [i] takes, in order. *)
Definition zrange (lo n : Z) : list Z :=
  map (fun k => lo + Z.of_nat k) (seq 0 (Z.to_nat n)).

(* ================================================================== *)
(** ** Data model *)
(* ================================================================== *)

(** [type FaceBox = { x, y, width, height }]; the coordinates are finite
    doubles, each given by the rational it stands for (the heuristic
    yields integers, the platform detector the sides of a
    [DOMRectReadOnly]). *)
Record FaceBox : Type := mkFaceBox {
  x : Q;
  y : Q;
  width : Q;
  height : Q
}.

(** [type Challenge = 'prepare' | 'blink' | 'turn-left' | 'turn-right'] *)
Inductive Challenge : Type := prepare | blink | turn_left | turn_right.

Definition challengeName (c : Challenge) : string :=
  match c with
  | prepare => "prepare"
  | blink => "blink"
  | turn_left => "turn-left"
  | turn_right => "turn-right"
  end.

(** An entry of [LivenessResult['steps']]; [details] is never written. *)
Record Step : Type := mkStep {
  name : string;
  passed : bool
}.

Record LivenessResult : Type := mkResult {
  alive : bool;
  reason : option string;
  steps : list Step
}.

(** What [getImageData] returns: [width], [height] and [data], the RGBA
    bytes row by row. *)
Record ImageData : Type := mkImageData {
  iwidth : Z;
  iheight : Z;
  idata : list Z
}.

(** The canvas element: whether [getContext('2d')] yields a context,
    [canvas.width], [canvas.height] and the bitmap. *)
Record Canvas : Type := mkCanvas {
  ctx2d : bool;
  cwidth : Z;
  cheight : Z;
  bitmap : list Z
}.

(** A frame is well formed when its size is not negative, it holds four
    bytes per pixel and every byte is in 0..255. *)
Definition validFrame (w h : Z) (image : list Z) : Prop :=
  0 <= w /\ 0 <= h /\ Z.of_nat (List.length image) = 4 * w * h /\
  Forall (fun v => 0 <= v <= 255) image.

(** [validFrame], decided. *)
Definition validFrameb (w h : Z) (image : list Z) : bool :=
  (0 <=? w) && (0 <=? h) && (Z.of_nat (List.length image) =? 4 * w * h) &&
  forallb (fun v => (0 <=? v) && (v <=? 255)) image.

(** [image[i]] on a [Uint8ClampedArray], as a number: a missing entry is
    [undefined], which arithmetic turns into NaN. *)
Definition byteAt (image : list Z) (i : Z) : JS.num :=
  if i <? 0 then JS.NaN
  else match nth_error image (Z.to_nat i) with
       | Some v => JS.ofZ v
       | None => JS.NaN
       end.

(* ================================================================== *)
(** ** FaceLocator: the heuristic fallback of [detectFaceBox] *)
(* ================================================================== *)

Module Heuristic.

Record Accum : Type := mkAccum {
  sum : JS.num;
  sumSq : JS.num;
  count : Z
}.

Record Stats : Type := mkStats {
  mean : JS.num;
  variance : JS.num
}.

(** [(r + g + b) / 3] for the pixel at column [px], row [py]. *)
Definition luminance (width : Z) (image : list Z) (px py : Z) : JS.num :=
  let i := (py * width + px) * 4 in
  let r := byteAt image i in
  let g := byteAt image (i + 1) in
  let b := byteAt image (i + 2) in
  JS.div (JS.add (JS.add r g) b) (JS.ofZ 3).

(** Body of the inner loop of [region]. *)
Definition regionStep (width : Z) (image : list Z) (py : Z) (acc : Accum) (px : Z) : Accum :=
  let v := luminance width image px py in
  {| sum := JS.add (sum acc) v;
     sumSq := JS.add (sumSq acc) (JS.mul v v);
     count := count acc + 1 |}.

Definition regionLoop (width : Z) (image : list Z) (x0 y0 w h : Z) : Accum :=
  fold_left
    (fun acc py => fold_left (regionStep width image py) (zrange x0 w) acc)
    (zrange y0 h)
    {| sum := JS.ofZ 0; sumSq := JS.ofZ 0; count := 0 |}.

(** The closure [region(x0, y0, w, h)]. *)
Definition region (width : Z) (image : list Z) (x0 y0 w h : Z) : Stats :=
  let acc := regionLoop width image x0 y0 w h in
  let mean := JS.div (sum acc) (JS.ofZ (count acc)) in
  let variance := JS.sub (JS.div (sumSq acc) (JS.ofZ (count acc))) (JS.mul mean mean) in
  {| mean := mean; variance := variance |}.

(** [Math.floor(n * f)] for an integer [n] and [f] one of [0.2] and
    [0.6]: the floor of the exact product, which is also the floor of the
    rounded product of [n] and the double nearest [f] for every side a
    canvas can have ([floorMul_as_computed] below). *)
Definition floorMul (n : Z) (f : Q) : Z := Qfloor (inject_Z n * f).

Definition cx (width : Z) : Z := floorMul width (2 # 10).
Definition cy (height : Z) : Z := floorMul height (2 # 10).
Definition cw (width : Z) : Z := floorMul width (6 # 10).
Definition ch (height : Z) : Z := floorMul height (6 # 10).

Definition center (width height : Z) (image : list Z) : Stats :=
  region width image (cx width) (cy height) (cw width) (ch height).

Definition edges (width height : Z) (image : list Z) : list Stats :=
  let cx := cx width in
  let cy := cy height in
  let cw := cw width in
  let ch := ch height in
  [ region width image 0 0 cx height;
    region width image (cx + cw) 0 (width - (cx + cw)) height;
    region width image 0 0 width cy;
    region width image 0 (cy + ch) width (height - (cy + ch)) ].

(** [edges.reduce((a, e) => a + e.variance, 0) / edges.length] *)
Definition edgeVar (width height : Z) (image : list Z) : JS.num :=
  let edges := edges width height image in
  JS.div (fold_left (fun a e => JS.add a (variance e)) edges (JS.ofZ 0))
         (JS.ofZ (Z.of_nat (List.length edges))).

(** Lines 32-70 of [detectFaceBox], from the pixels of the canvas. *)
Definition fallback (width height : Z) (image : list Z) : option FaceBox :=
  if JS.gt (variance (center width height image))
           (JS.mul (edgeVar width height image) (JS.lit (115 # 100)))
  then Some {| x := inject_Z (cx width); y := inject_Z (cy height);
               width := inject_Z (cw width); height := inject_Z (ch height) |}
  else None.

End Heuristic.

(* ================================================================== *)
(** ** FaceLocator: [detectFaceBox] *)
(* ================================================================== *)

(** Exceptions of the platform that can reach the caller.
    [IndexSizeError]: [getImageData] with a zero width or height.
    [SecurityError]: [getImageData] on a bitmap that is not origin-clean.
    [TypeError]: a member access on [null]. *)
Inductive exn : Type := IndexSizeError | SecurityError | TypeError.

Inductive result (A : Type) : Type :=
| Ok (a : A)
| Raise (e : exn).
Arguments Ok {A} a.
Arguments Raise {A} e.

(** What the body of the [try] block meets: something in it throws (the
    constructor, the bitmap creation, [detect], the read of the bounding
    box), or [detect] resolves to a list of faces. *)
Inductive DetectorOutcome : Type :=
| DetectorThrows
| DetectorFaces (faces : list FaceBox).

(** [ctx.getImageData(0, 0, sw, sh)], in the order of the steps of the
    HTML Standard: throws [IndexSizeError] when [sw] or [sh] is zero,
    throws [SecurityError] when the bitmap is not origin-clean, else
    reads the bitmap. *)
Definition getImageData (originClean : bool) (c : Canvas) (sw sh : Z) : result ImageData :=
  if (sw =? 0) || (sh =? 0) then Raise IndexSizeError
  else if negb originClean then Raise SecurityError
  else Ok {| iwidth := sw; iheight := sh; idata := bitmap c |}.

(** The [try { ... } catch { }] of [detectFaceBox]: the box it returns,
    or nothing when control leaves the block by its end or by the
    handler. *)
Definition tryPlatformDetector (outcome : DetectorOutcome) : option FaceBox :=
  match outcome with
  | DetectorThrows => None
  | DetectorFaces [] => None
  | DetectorFaces (box :: _) =>
      Some {| x := x box; y := y box; width := width box; height := height box |}
  end.

(** [detectFaceBox(canvas)], given whether the bitmap of the canvas is
    origin-clean, [supported.faceDetector] and what the platform detector
    does on this call. *)
Definition detectFaceBoxOn (originClean : bool) (faceDetector : bool)
    (outcome : DetectorOutcome) (canvas : Canvas) : result (option FaceBox) :=
  if negb (ctx2d canvas) then Ok None
  else
    match (if faceDetector then tryPlatformDetector outcome else None) with
    | Some box => Ok (Some box)
    | None =>
        match getImageData originClean canvas (cwidth canvas) (cheight canvas) with
        | Raise e => Raise e
        | Ok img =>
            Ok (Heuristic.fallback (cwidth canvas) (cheight canvas) (idata img))
        end
    end.

(** [detectFaceBox(canvas)] on a canvas whose bitmap is origin-clean, as
    is every canvas that was drawn from the camera stream only. *)
Definition detectFaceBox (faceDetector : bool) (outcome : DetectorOutcome)
    (canvas : Canvas) : result (option FaceBox) :=
  detectFaceBoxOn true faceDetector outcome canvas.

(* ================================================================== *)
(** ** ChallengeEvaluator: the pure parts *)
(* ================================================================== *)

Inductive Direction : Type := Left | Right.

(** Lines 111-113 of [checkMovement], from the two sampled boxes. *)
Definition movementVerdict (direction : Direction) (box1 box2 : option FaceBox) : bool :=
  match box1, box2 with
  | Some b1, Some b2 =>
      let dx := JS.sub (JS.Fin (x b2)) (JS.Fin (x b1)) in
      match direction with
      | Left => JS.lt dx (JS.ofZ (-10))
      | Right => JS.gt dx (JS.ofZ 10)
      end
  | _, _ => false
  end.

Module Blink.

(** What [computeEyeBand] returns.  [ex], [ew] and [eh] are floors of
    finite numbers, hence integers; [ey] is the floor of a sum, which is
    an integer or, when the sum overflows, Infinity. *)
Record EyeBand : Type := mkEyeBand {
  ex : Z;
  ey : JS.num;
  ew : Z;
  eh : Z
}.

(** [computeEyeBand(box)].  The product [box.height * 0.25] is exact in
    binary64; the sum [box.y + box.height * 0.25] is rounded. *)
Definition computeEyeBand (box : FaceBox) : EyeBand :=
  {| ex := Z.max 0 (Qfloor (x box));
     ey := JS.max (JS.ofZ 0)
             (JS.floor (JS.add (JS.Fin (y box)) (JS.Fin (height box * (25 # 100)))));
     ew := Qfloor (width box);
     eh := Qfloor (height box * (25 # 100)) |}.

Record Tally : Type := mkTally {
  total : Z;
  changed : Z
}.

(** [(dr + dg + db) / 3] for the pixel at column [px], row [py]. *)
Definition pixelDiff (a b : ImageData) (px py : Z) : JS.num :=
  let i := (py * iwidth a + px) * 4 in
  let dr := JS.abs (JS.sub (byteAt (idata a) i) (byteAt (idata b) i)) in
  let dg := JS.abs (JS.sub (byteAt (idata a) (i + 1)) (byteAt (idata b) (i + 1))) in
  let db := JS.abs (JS.sub (byteAt (idata a) (i + 2)) (byteAt (idata b) (i + 2))) in
  JS.div (JS.add (JS.add dr dg) db) (JS.ofZ 3).

(** [d > 18] *)
Definition pixelChanged (a b : ImageData) (px py : Z) : bool :=
  JS.gt (pixelDiff a b px py) (JS.ofZ 18).

(** Body of the inner loop of [diffInRegion]. *)
Definition diffStep (a b : ImageData) (py : Z) (acc : Tally) (px : Z) : Tally :=
  {| total := total acc + 1;
     changed := if pixelChanged a b px py then changed acc + 1 else changed acc |}.

Definition diffLoop (a b : ImageData) (rx ry rw rh : Z) : Tally :=
  fold_left
    (fun acc py => fold_left (diffStep a b py) (zrange rx rw) acc)
    (zrange ry rh)
    {| total := 0; changed := 0 |}.

(** [diffInRegion(a, b, rx, ry, rw, rh)]: the fraction itself, which the
    source rounds to a double; the test it is put to is the same on both
    ([blinkVerdict_as_computed]). *)
Definition diffInRegion (a b : ImageData) (rx ry rw rh : Z) : Q :=
  let acc := diffLoop a b rx ry rw rh in
  if total acc =? 0 then 0%Q else (inject_Z (changed acc) / inject_Z (total acc))%Q.

(** [diffInRegion(a, b, ex, ey, ew, eh)] on the numbers of a band: from
    the row Infinity the loop over the rows takes no turn, [total] stays
    0 and the result is 0. *)
Definition diffInBand (a b : ImageData) (band : EyeBand) : Q :=
  match ey band with
  | JS.Fin row => diffInRegion a b (ex band) (Qfloor row) (ew band) (eh band)
  | _ => 0%Q
  end.

(** Lines 154-163 of [checkBlink], from the three sampled images. *)
Definition blinkVerdict (band : EyeBand) (a b c : ImageData) : bool :=
  let score1 := diffInBand a b band in
  let score2 := diffInBand b c band in
  let score := Qmax score1 score2 in
  JS.Qltb (6 # 100) score.

End Blink.

(* ================================================================== *)
(** ** The world the sequence runs in *)
(* ================================================================== *)

(** The video element at one instant: its intrinsic size and the bitmap
    that [drawImage(video, 0, 0, w, h)] leaves on the canvas. *)
Record VideoFrame : Type := mkVideoFrame {
  videoWidth : N;
  videoHeight : N;
  drawn : list Z
}.

Record Env : Type := mkEnv {
  (** [supported.faceDetector] *)
  faceDetector : bool;
  (** the platform detector, called at a time on a canvas *)
  platformDetect : Z -> Canvas -> DetectorOutcome;
  (** the frame the video shows at a time *)
  video : Z -> VideoFrame;
  (** the time the n-th suspension takes beyond what was asked for *)
  lag : nat -> N
}.

(** What a run does to the outside, in order: [onChallenge?.(c)] is
    reached, a frame is captured, a detection is made, a timer is set. *)
Inductive Event : Type :=
| EvChallenge (c : Challenge)
| EvCapture
| EvDetect
| EvWait (ms : Z).

(** The clock in milliseconds, the number of suspensions so far, the
    canvas and the log. *)
Record World : Type := mkWorld {
  now : Z;
  awaits : nat;
  canvas : Canvas;
  log : list Event
}.

(** How an asynchronous call ends: its promise resolves, it rejects, or
    the embedding of a loop has used up its fuel. *)
Inductive outcome (A : Type) : Type :=
| Ret (a : A) (w : World)
| Throw (e : exn) (w : World)
| OutOfFuel.
Arguments Ret {A} a w.
Arguments Throw {A} e w.
Arguments OutOfFuel {A}.

Definition M (A : Type) : Type := World -> outcome A.

Definition ret {A : Type} (a : A) : M A := fun w => Ret a w.

Definition bind {A B : Type} (m : M A) (k : A -> M B) : M B :=
  fun w =>
    match m w with
    | Ret a w' => k a w'
    | Throw e w' => Throw e w'
    | OutOfFuel => OutOfFuel
    end.

Declare Scope live_scope.
Delimit Scope live_scope with live.
Notation "x <- m ;; k" := (bind m (fun x => k))
  (at level 100, m at next level, right associativity) : live_scope.
Notation "m ;; k" := (bind m (fun _ => k))
  (at level 100, right associativity) : live_scope.
Local Open Scope live_scope.

(** [Date.now()] *)
Definition dateNow : M Z := fun w => Ret (now w) w.

(** [w] with [ev] added to its log. *)
Definition record (ev : Event) (w : World) : World :=
  {| now := now w; awaits := awaits w; canvas := canvas w; log := log w ++ [ev] |}.

Section Sequence.

Variable env : Env.

(** The world when an [await] that asked for [ms] milliseconds resumes. *)
Definition resume (ms : Z) (w : World) : World :=
  {| now := now w + ms + Z.of_N (lag env (awaits w));
     awaits := S (awaits w);
     canvas := canvas w;
     log := log w |}.

(** [onChallenge?.(c)] *)
Definition onChallenge (c : Challenge) : M unit :=
  fun w => Ret tt (record (EvChallenge c) w).

(** [await wait(ms)] *)
Definition wait (ms : Z) : M unit :=
  fun w => Ret tt (resume ms (record (EvWait ms) w)).

(** [n || d] *)
Definition orDefault (n : N) (d : Z) : Z :=
  if (n =? 0)%N then d else Z.of_N n.

(** The canvas that [captureToCanvas] leaves when called at time [t]. *)
Definition captured (t : Z) (c : Canvas) : Canvas :=
  if negb (ctx2d c) then c
  else
    let w := orDefault (videoWidth (video env t)) 640 in
    let h := orDefault (videoHeight (video env t)) 480 in
    {| ctx2d := true; cwidth := w; cheight := h; bitmap := drawn (video env t) |}.

(** [await captureToCanvas(video, canvas)] *)
Definition captureToCanvas : M unit :=
  fun w =>
    let w1 := record EvCapture w in
    Ret tt (resume 0 {| now := now w1; awaits := awaits w1;
                        canvas := captured (now w) (canvas w); log := log w1 |}).

(** What [detectFaceBox(canvas)] settles to when called at time [t]. *)
Definition detectAt (t : Z) (c : Canvas) : result (option FaceBox) :=
  detectFaceBox (faceDetector env) (platformDetect env t c) c.

(** [await detectFaceBox(canvas)] *)
Definition awaitDetectFaceBox : M (option FaceBox) :=
  fun w =>
    let w' := resume 0 (record EvDetect w) in
    match detectAt (now w) (canvas w) with
    | Ok box => Ret box w'
    | Raise e => Throw e w'
    end.

(** [canvas.getContext('2d')!.getImageData(0, 0, canvas.width, canvas.height)] *)
Definition readCanvas : M ImageData :=
  fun w =>
    if negb (ctx2d (canvas w)) then Throw TypeError w
    else match getImageData true (canvas w) (cwidth (canvas w)) (cheight (canvas w)) with
         | Ok img => Ret img w
         | Raise e => Throw e w
         end.

(** [waitForFacePresent]: the [while] loop, [fuel] bounding its turns. *)
Fixpoint facePresentLoop (fuel : nat) (start maxMs : Z) : M bool :=
  fun w =>
    if now w - start <? maxMs then
      match fuel with
      | O => OutOfFuel
      | S fuel' =>
          (captureToCanvas ;;
           box <- awaitDetectFaceBox ;;
           match box with
           | Some _ => ret true
           | None => wait 200 ;; facePresentLoop fuel' start maxMs
           end) w
      end
    else Ret false w.

(** Turns the loop of [waitForFacePresent(maxMs)] can take: each one that
    does not return suspends for 200ms at least. *)
Definition facePresentFuel (maxMs : Z) : nat := Z.to_nat (maxMs / 200 + 1).

Definition waitForFacePresent (maxMs : Z) : M bool :=
  start <- dateNow ;;
  facePresentLoop (facePresentFuel maxMs) start maxMs.

Definition checkMovement (direction : Direction) : M bool :=
  captureToCanvas ;;
  box1 <- awaitDetectFaceBox ;;
  wait 700 ;;
  captureToCanvas ;;
  box2 <- awaitDetectFaceBox ;;
  ret (movementVerdict direction box1 box2).

Definition checkBlink : M bool :=
  captureToCanvas ;;
  firstBox <- awaitDetectFaceBox ;;
  match firstBox with
  | None => ret false
  | Some firstBox =>
      let band := Blink.computeEyeBand firstBox in
      a <- readCanvas ;;
      wait 140 ;;
      captureToCanvas ;;
      b <- readCanvas ;;
      wait 140 ;;
      captureToCanvas ;;
      c <- readCanvas ;;
      ret (Blink.blinkVerdict band a b c)
  end.

(** [checkBlink] as it was before the eye band, in the older revisions
    of this file: two boxes 200ms apart, compared by size. *)
Definition checkBlinkBySize : M bool :=
  captureToCanvas ;;
  a <- awaitDetectFaceBox ;;
  wait 200 ;;
  captureToCanvas ;;
  b <- awaitDetectFaceBox ;;
  ret (match a, b with
       | Some a, Some b =>
           let da := JS.add (JS.abs (JS.sub (JS.Fin (height a)) (JS.Fin (height b))))
                            (JS.abs (JS.sub (JS.Fin (width a)) (JS.Fin (width b)))) in
           JS.gt da (JS.ofZ 6)
       | _, _ => false
       end).

(** One turn of the per-challenge [while] loop: the three [if]s. *)
Definition attempt (ch : Challenge) (passed : bool) : M bool :=
  passed <- match ch with blink => checkBlink | _ => ret passed end ;;
  passed <- match ch with turn_left => checkMovement Left | _ => ret passed end ;;
  passed <- match ch with turn_right => checkMovement Right | _ => ret passed end ;;
  ret passed.

Fixpoint challengeLoop (fuel : nat) (ch : Challenge) (deadline : Z) (passed : bool) : M bool :=
  fun w =>
    if negb passed && (now w <? deadline) then
      match fuel with
      | O => OutOfFuel
      | S fuel' =>
          (passed <- attempt ch passed ;;
           (if negb passed then wait 300 else ret tt) ;;
           challengeLoop fuel' ch deadline passed) w
      end
    else Ret passed w.

(** Turns the per-challenge loop can take within its 5000ms: each failed
    one suspends for 300ms at least. *)
Definition challengeFuel : nat := Z.to_nat (5000 / 300 + 1).

Definition noFaceText : string :=
  "Rosto não detectado. Centralize seu rosto e tente novamente.".

Definition challengeFailedText (ch : string) : string :=
  "Falha no desafio: " ++ ch.

(** The [for (const ch of challenges)] loop and the final [return]. *)
Fixpoint runChallenges (challenges : list Challenge) (steps : list Step) : M LivenessResult :=
  match challenges with
  | [] => ret {| alive := true; reason := None; steps := steps |}
  | ch :: rest =>
      onChallenge ch ;;
      t <- dateNow ;;
      let deadline := t + 5000 in
      passed <- challengeLoop challengeFuel ch deadline false ;;
      let steps := steps ++ [{| name := challengeName ch; passed := passed |}] in
      if negb passed
      then ret {| alive := false;
                  reason := Some (challengeFailedText (challengeName ch));
                  steps := steps |}
      else runChallenges rest steps
  end.

(** The body of [runLivenessSequence] for a list of challenges. *)
Definition runSequence (challenges : list Challenge) : M LivenessResult :=
  let steps := [] in
  onChallenge prepare ;;
  ready <- waitForFacePresent 5000 ;;
  let steps := steps ++ [{| name := "prepare"; passed := ready |}] in
  if negb ready
  then ret {| alive := false; reason := Some noFaceText; steps := steps |}
  else runChallenges challenges steps.

(** [runLivenessSequence(video, canvas, onChallenge)] *)
Definition runLivenessSequence : M LivenessResult :=
  runSequence [blink; turn_left; turn_right].

End Sequence.

(* ================================================================== *)
(** ** What the specification speaks of *)
(* ================================================================== *)

(** The statistics of section 4.1 and the fractions of section 4.2, said
    of the pixels of a region as a list, in the words of the
    specification and in the numbers of the code. *)
Module Spec.

(** The pixels (column, row) of the rectangle at [(x0, y0)] of size
    [w] by [h], row by row. *)
Definition pixelsOf (x0 y0 w h : Z) : list (Z * Z) :=
  flat_map (fun py => map (fun px => (px, py)) (zrange x0 w)) (zrange y0 h).

Definition total (l : list JS.num) : JS.num := fold_left JS.add l (JS.ofZ 0).

Definition size {A : Type} (l : list A) : JS.num := JS.ofZ (Z.of_nat (List.length l)).

Definition meanOf (l : list JS.num) : JS.num := JS.div (total l) (size l).

(** Variance as mean of squares minus square of mean. *)
Definition varianceOf (l : list JS.num) : JS.num :=
  JS.sub (JS.div (total (map (fun v => JS.mul v v) l)) (size l))
         (JS.mul (meanOf l) (meanOf l)).

(** Channel [k] (0 red, 1 green, 2 blue) of pixel [p] in RGBA data whose
    rows are [width] pixels long. *)
Definition channel (width : Z) (data : list Z) (p : Z * Z) (k : Z) : JS.num :=
  byteAt data (4 * (snd p * width + fst p) + k).

(** Luminance of a pixel: the average of R, G and B. *)
Definition luminance (width : Z) (image : list Z) (p : Z * Z) : JS.num :=
  JS.div (JS.add (JS.add (channel width image p 0) (channel width image p 1))
                 (channel width image p 2))
         (JS.ofZ 3).

Definition luminances (width : Z) (image : list Z) (x0 y0 w h : Z) : list JS.num :=
  map (luminance width image) (pixelsOf x0 y0 w h).

(** A share of a side of the frame, in whole pixels. *)
Definition share (part : Q) (side : Z) : Z := Qfloor (inject_Z side * part).

(** Luminance variance of the central region: 60% by 60% of the frame,
    20% in from the left and from the top. *)
Definition centralVariance (width height : Z) (image : list Z) : JS.num :=
  varianceOf (luminances width image
                (share (2 # 10) width) (share (2 # 10) height)
                (share (6 # 10) width) (share (6 # 10) height)).

(** Luminance variances of the four strips around the central region:
    left and right of it over the whole height, above and below it over
    the whole width. *)
Definition edgeVariances (width height : Z) (image : list Z) : list JS.num :=
  let left := share (2 # 10) width in
  let top := share (2 # 10) height in
  let right := left + share (6 # 10) width in
  let bottom := top + share (6 # 10) height in
  map varianceOf
    [ luminances width image 0 0 left height;
      luminances width image right 0 (width - right) height;
      luminances width image 0 0 width top;
      luminances width image 0 bottom width (height - bottom) ].

Definition meanOfEdgeVariances (width height : Z) (image : list Z) : JS.num :=
  meanOf (edgeVariances width height image).

(** The same statistics in exact arithmetic, which is what the words
    "luminance variance" and "1.15 times" denote when no rounding is
    meant: the average of the three channels, the mean, and the mean of
    the squared deviations from it, all rational. *)
Definition exactLuminance (width : Z) (image : list Z) (p : Z * Z) : Q :=
  let byte := fun k => inject_Z (nth (Z.to_nat (4 * (snd p * width + fst p) + k)) image 0) in
  ((byte 0%Z + byte 1%Z + byte 2%Z) / 3)%Q.

Definition exactMean (l : list Q) : Q :=
  (fold_right Qplus 0 l / inject_Z (Z.of_nat (List.length l)))%Q.

Definition exactVariance (l : list Q) : Q :=
  exactMean (map (fun v => (v - exactMean l) * (v - exactMean l))%Q l).

Definition exactVarianceIn (width : Z) (image : list Z) (x0 y0 w h : Z) : Q :=
  exactVariance (map (exactLuminance width image) (pixelsOf x0 y0 w h)).

Definition exactCentralVariance (width height : Z) (image : list Z) : Q :=
  exactVarianceIn width image
    (share (2 # 10) width) (share (2 # 10) height)
    (share (6 # 10) width) (share (6 # 10) height).

Definition exactMeanOfEdgeVariances (width height : Z) (image : list Z) : Q :=
  let left := share (2 # 10) width in
  let top := share (2 # 10) height in
  let right := left + share (6 # 10) width in
  let bottom := top + share (6 # 10) height in
  exactMean
    [ exactVarianceIn width image 0 0 left height;
      exactVarianceIn width image right 0 (width - right) height;
      exactVarianceIn width image 0 0 width top;
      exactVarianceIn width image 0 bottom width (height - bottom) ].

(** The eye band of a face box: the rows from a quarter of the height of
    the box below its top, over a quarter of its height, and the columns of
    the box; in whole pixels, begun no further left or up than the frame.
    No pixel when the first row is beyond every number. *)
Definition eyeBandPixels (box : FaceBox) : list (Z * Z) :=
  let quarter := (height box * (25 # 100))%Q in
  match JS.max (JS.ofZ 0) (JS.floor (JS.add (JS.Fin (y box)) (JS.Fin quarter))) with
  | JS.Fin top =>
      pixelsOf (Z.max 0 (Qfloor (x box))) (Qfloor top) (Qfloor (width box)) (Qfloor quarter)
  | _ => []
  end.

(** The absolute difference of two images at a pixel, averaged over the
    three colour channels.  Both images are read with the row length of
    the first, as the code does. *)
Definition channelDifference (a b : ImageData) (p : Z * Z) : JS.num :=
  let d := fun k => JS.abs (JS.sub (channel (iwidth a) (idata a) p k)
                                   (channel (iwidth a) (idata b) p k)) in
  JS.div (JS.add (JS.add (d 0) (d 1)) (d 2)) (JS.ofZ 3).

(** A pixel changed when that difference exceeds the noise floor of 18.
    The average is the rounded one; on bytes it exceeds 18 exactly when
    the exact average does ([differs_exact]). *)
Definition differs (a b : ImageData) (p : Z * Z) : bool :=
  JS.gt (channelDifference a b p) (JS.ofZ 18).

(** The fraction of [pixels] that changed between two images (0 when
    there is no pixel). *)
Definition changedFraction (a b : ImageData) (pixels : list (Z * Z)) : Q :=
  match pixels with
  | [] => 0%Q
  | _ => (inject_Z (Z.of_nat (List.length (filter (differs a b) pixels)))
          / inject_Z (Z.of_nat (List.length pixels)))%Q
  end.

(** The message catalogue of section 6, keyed by cause. *)
Inductive Cause : Type :=
| no_face_detected
| challenge_failed (name : string).

Definition message (c : Cause) : string :=
  match c with
  | no_face_detected => noFaceText
  | challenge_failed n => challengeFailedText n
  end.

(** The steps of a run in order, each with the cause its failure is
    reported under: the prepare gate, then the configured challenges. *)
Definition stages (challenges : list Challenge) : list (string * Cause) :=
  ("prepare"%string, no_face_detected)
  :: map (fun c => (challengeName c, challenge_failed (challengeName c))) challenges.

End Spec.

(** The challenges announced through [onChallenge] in a log. *)
Fixpoint announced (l : list Event) : list Challenge :=
  match l with
  | [] => []
  | EvChallenge c :: l' => c :: announced l'
  | _ :: l' => announced l'
  end.

(** The image on a canvas, as [getImageData] over its whole area reads it. *)
Definition imageOf (c : Canvas) : ImageData :=
  {| iwidth := cwidth c; iheight := cheight c; idata := bitmap c |}.

(* ================================================================== *)
(** ** Worlds, runs and results: vocabulary of the statements *)
(* ================================================================== *)

(** Whether a call of [detectFaceBox] reaches the heuristic: there is a
    2D context, and the platform detector is absent, throws or finds no
    face. *)
Definition reachesFallback (faceDetector : bool) (outcome : DetectorOutcome)
    (canvas : Canvas) : Prop :=
  ctx2d canvas = true /\
  (if faceDetector then tryPlatformDetector outcome else None) = None.

(** A canvas [getImageData] can read whole, or one without a context. *)
Definition readable (c : Canvas) : Prop :=
  ctx2d c = false \/ (cwidth c <> 0 /\ cheight c <> 0).

(** The world after [await captureToCanvas], [await detectFaceBox] and
    [await wait(ms)]. *)
Definition afterCapture (env : Env) (w : World) : World :=
  {| now := now w + 0 + Z.of_N (lag env (awaits w));
     awaits := S (awaits w);
     canvas := captured env (now w) (canvas w);
     log := log w ++ [EvCapture] |}.

Definition afterDetect (env : Env) (w : World) : World :=
  resume env 0 (record EvDetect w).

Definition afterWait (env : Env) (ms : Z) (w : World) : World :=
  resume env ms (record (EvWait ms) w).

(** [m] started in [w] returns, with a value and a world that satisfy [post]. *)
Definition returns {A : Type} (m : M A) (w : World) (post : A -> World -> Prop) : Prop :=
  exists a w', m w = Ret a w' /\ post a w'.

(** [w'] is no earlier than [w], announces the same challenges and keeps
    the canvas context and readability. *)
Definition extends (w w' : World) : Prop :=
  now w <= now w' /\
  announced (log w') = announced (log w) /\
  (readable (canvas w) -> readable (canvas w')).

(** One sample: a capture, then a detection on what was captured. *)
Definition sample (env : Env) : M (option FaceBox) :=
  captureToCanvas env ;; awaitDetectFaceBox env.

Definition afterSample (env : Env) (w : World) : World :=
  afterDetect env (afterCapture env w).

(** The world after [await wait(140); await captureToCanvas(video, canvas)]. *)
Definition afterPause (env : Env) (w : World) : World :=
  afterCapture env (afterWait env 140 w).

(** No frame captured from [start] on, for [maxMs], has a face detected
    in it, on a canvas that captures like [c0]. *)
Definition noFaceWithin (env : Env) (c0 : Canvas) (start maxMs : Z) : Prop :=
  forall t t', start <= t < start + maxMs -> t <= t' ->
    detectAt env t' (captured env t c0) = Ok None.

Definition passStep (c : Challenge) : Step :=
  {| name := challengeName c; passed := true |}.

Definition failStep (c : Challenge) : Step :=
  {| name := challengeName c; passed := false |}.

(** The results a run over [challenges] can return, each with the
    challenges it announces on the way. *)
Inductive RunShape (challenges : list Challenge) : LivenessResult -> list Challenge -> Prop :=
| GateFailed :
    RunShape challenges
      {| alive := false; reason := Some noFaceText;
         steps := [{| name := "prepare"; passed := false |}] |}
      [prepare]
| AllPassed :
    RunShape challenges
      {| alive := true; reason := None;
         steps := {| name := "prepare"; passed := true |} :: map passStep challenges |}
      (prepare :: challenges)
| ChallengeFailed (done : list Challenge) (c : Challenge) (rest : list Challenge) :
    challenges = done ++ c :: rest ->
    RunShape challenges
      {| alive := false; reason := Some (challengeFailedText (challengeName c));
         steps := {| name := "prepare"; passed := true |} :: map passStep done ++ [failStep c] |}
      (prepare :: done ++ [c]).

(** A run from [w] to [w'] with result [r] fails at step [k]: it is not
    alive and announced [k] steps, the gate included. *)
Definition failsAtStep (w w' : World) (r : LivenessResult) (k : nat) : Prop :=
  alive r = false /\
  List.length (announced (log w')) = (List.length (announced (log w)) + k)%nat.

(** [box] has a positive width and height and lies in a frame of
    [frameWidth] by [frameHeight]. *)
Definition insideFrame (frameWidth frameHeight : Z) (box : FaceBox) : Prop :=
  (0 < width box)%Q /\ (0 < height box)%Q /\
  (0 <= x box)%Q /\ (0 <= y box)%Q /\
  (x box + width box <= inject_Z frameWidth)%Q /\
  (y box + height box <= inject_Z frameHeight)%Q.

(** A bitmap on which nothing was drawn: every byte is 0. *)
Definition blank (image : list Z) : Prop := Forall (fun v => v = 0) image.

(** NaN, or a finite number equal to zero. *)
Definition zeroish (n : JS.num) : Prop :=
  match n with
  | JS.NaN => True
  | JS.Fin q => (q == 0)%Q
  | _ => False
  end.

(* ================================================================== *)
(** ** Further vocabulary: polls, durations, the older blink verdict *)
(* ================================================================== *)

(** The number of frames captured in a log. *)
Fixpoint captures (l : list Event) : nat :=
  match l with
  | [] => O
  | EvCapture :: l' => S (captures l')
  | _ :: l' => captures l'
  end.

(** The waits a challenge evaluator cannot return true without: two of
    140ms for the blink, one of 700ms for a turn. *)
Definition minDuration (ch : Challenge) : Z :=
  match ch with
  | prepare => 0
  | blink => 280
  | turn_left => 700
  | turn_right => 700
  end.

(** The least time a run takes to pass all of [challenges]. *)
Definition minTotal (challenges : list Challenge) : Z :=
  fold_right (fun ch acc => minDuration ch + acc) 0 challenges.

(** No turn of the loop passes [ch] in [env], wherever it starts. *)
Definition neverPasses (env : Env) (ch : Challenge) : Prop :=
  forall w p w', attempt env ch false w = Ret p w' -> p = false.

(** Lines 123-125 of the older [checkBlink], from its two boxes. *)
Definition sizeVerdict (a b : option FaceBox) : bool :=
  match a, b with
  | Some a, Some b =>
      let da := JS.add (JS.abs (JS.sub (JS.Fin (height a)) (JS.Fin (height b))))
                       (JS.abs (JS.sub (JS.Fin (width a)) (JS.Fin (width b)))) in
      JS.gt da (JS.ofZ 6)
  | _, _ => false
  end.

(* ================================================================== *)
(** ** The host: [App], [LivenessCheck], [useCamera] *)
(* ================================================================== *)

(** [App.tsx]: what the alert shows for a result. *)
Module App.

Inductive Severity : Type := success | error.

(** [result?.alive ? 'success' : 'error'] *)
Definition severity (result : LivenessResult) : Severity :=
  if alive result then success else error.

(** A value inside a template literal: [undefined] prints as its name. *)
Definition interpolate (s : option string) : string :=
  match s with
  | Some s => s
  | None => "undefined"
  end.

(** The text of the alert, lines 15-17. *)
Definition alertText (result : LivenessResult) : string :=
  if alive result
  then "Prova de vida concluída com sucesso"
  else "Falha: " ++ interpolate (reason result).

End App.

(** [components/LivenessCheck.tsx]: the progress updater and [handleRun]. *)
Module LivenessCheck.

(** [(p) => Math.min(100, p + 3)] *)
Definition tick (p : Z) : Z := Z.min 100 (p + 3).

(** The progress after [n] ticks of the interval, from the 0 it is set
    to when a run starts. *)
Definition progressAfter (n : nat) : Z := Nat.iter n tick 0.

(** The state [handleRun] writes, and the results it hands to [onResult]. *)
Record Ui : Type := mkUi {
  running : bool;
  currentChallenge : option Challenge;
  delivered : list LivenessResult
}.

Definition setRunning (b : bool) (ui : Ui) : Ui :=
  {| running := b; currentChallenge := currentChallenge ui; delivered := delivered ui |}.

Definition setCurrentChallenge (c : option Challenge) (ui : Ui) : Ui :=
  {| running := running ui; currentChallenge := c; delivered := delivered ui |}.

Definition onResult (r : LivenessResult) (ui : Ui) : Ui :=
  {| running := running ui; currentChallenge := currentChallenge ui;
     delivered := delivered ui ++ [r] |}.

(** The listener [(c) => setCurrentChallenge(c)], called at each
    challenge a run announced between two worlds. *)
Definition listened (w w' : World) (ui : Ui) : Ui :=
  fold_left (fun ui c => setCurrentChallenge (Some c) ui)
            (skipn (List.length (announced (log w))) (announced (log w')))
            ui.

(** The [finally] block. *)
Definition finally (ui : Ui) : Ui :=
  setCurrentChallenge None (setRunning false ui).

(** [handleRun()], given whether [videoRef.current] and
    [canvasRef.current] are set: the state it leaves and how it settles. *)
Definition handleRun (videoRef canvasRef : bool) (env : Env) (ui : Ui) (w : World)
  : Ui * outcome unit :=
  if negb videoRef || negb canvasRef then (ui, Ret tt w)
  else
    let ui := setRunning true ui in
    match runLivenessSequence env w with
    | Ret result w' => (finally (onResult result (listened w w' ui)), Ret tt w')
    | Throw e w' => (finally (listened w w' ui), Throw e w')
    | OutOfFuel => (ui, OutOfFuel)
    end.

End LivenessCheck.

(** [hooks/useCamera.ts]: [start], [stop] and the clean-up at
    unmounting, over the stream reference and the two pieces of state.
    A call is taken as a whole: calls that overlap at an [await] are
    left out. *)
Module Camera.

(** What a [catch] receives: an [Error] with its message, or something else. *)
Inductive Thrown : Type :=
| ThrownError (message : string)
| ThrownOther.

(** [e instanceof Error ? e.message : 'Falha ao acessar a câmera'] *)
Definition messageOf (e : Thrown) : string :=
  match e with
  | ThrownError m => m
  | ThrownOther => "Falha ao acessar a câmera"
  end.

(** [streamRef.current] (streams are told apart by a number), [isReady],
    [error], and the streams whose tracks are running. *)
Record State : Type := mkState {
  streamRef : option nat;
  isReady : bool;
  error : option string;
  liveStreams : list nat
}.

(** What one call of [start] meets: whether [videoRef.current] is set,
    what [getUserMedia] settles to, and whether [play] throws. *)
Record Attempt : Type := mkAttempt {
  hasVideo : bool;
  userMedia : Thrown + nat;
  play : option Thrown
}.

(** The [catch] block of [start]. *)
Definition caught (e : Thrown) (s : State) : State :=
  {| streamRef := streamRef s; isReady := false;
     error := Some (messageOf e); liveStreams := liveStreams s |}.

(** [start()] *)
Definition start (a : Attempt) (s : State) : State :=
  let s := {| streamRef := streamRef s; isReady := isReady s;
              error := None; liveStreams := liveStreams s |} in
  match userMedia a with
  | inl e => caught e s
  | inr stream =>
      let s := {| streamRef := Some stream; isReady := isReady s;
                  error := error s; liveStreams := stream :: liveStreams s |} in
      if hasVideo a then
        match play a with
        | Some e => caught e s
        | None => {| streamRef := streamRef s; isReady := true;
                     error := error s; liveStreams := liveStreams s |}
        end
      else s
  end.

(** [stop()] *)
Definition stop (s : State) : State :=
  {| streamRef := None;
     isReady := false;
     error := error s;
     liveStreams :=
       match streamRef s with
       | Some stream => filter (fun i => negb (Nat.eqb i stream)) (liveStreams s)
       | None => liveStreams s
       end |}.

(** The calls the hook hands to its user.  The clean-up at unmounting is
    none of them: it is a [Step] below. *)
Inductive Call : Type :=
| CallStart (a : Attempt)
| CallStop.

Definition call (s : State) (c : Call) : State :=
  match c with
  | CallStart a => start a s
  | CallStop => stop s
  end.

(** The hook before any call. *)
Definition initial : State :=
  {| streamRef := None; isReady := false; error := None; liveStreams := [] |}.

(** The clean-up of the effect, run when the component unmounts: the
    tracks of the current stream are stopped; the reference and the
    state are left as they are. *)
Definition unmount (s : State) : State :=
  {| streamRef := streamRef s;
     isReady := isReady s;
     error := error s;
     liveStreams :=
       match streamRef s with
       | Some stream => filter (fun i => negb (Nat.eqb i stream)) (liveStreams s)
       | None => liveStreams s
       end |}.

(** What can happen to the hook: one of its two callbacks is called, or
    the component unmounts. *)
Inductive Step : Type :=
| Called (c : Call)
| Unmounted.

Definition step (s : State) (e : Step) : State :=
  match e with
  | Called c => call s c
  | Unmounted => unmount s
  end.

End Camera.

(* ================================================================== *)
(** ** Sample frames, environments and worlds *)
(* ================================================================== *)

Module Sample.

(** A grey bitmap of [w] by [h] pixels, opaque, of luminance [f px py]. *)
Definition grey (w h : Z) (f : Z -> Z -> Z) : list Z :=
  flat_map (fun py => flat_map (fun px => [f px py; f px py; f px py; 255]) (zrange 0 w))
           (zrange 0 h).

Definition inCenter (px py : Z) : bool :=
  (2 <=? px) && (px <? 8) && (2 <=? py) && (py <? 8).

(** 10 by 10: a black and white chequerboard in the centre, black around. *)
Definition faceBitmap : list Z :=
  grey 10 10 (fun px py => if inCenter px py && Z.even (px + py) then 255 else 0).

(** The same with the colours of the chequerboard exchanged. *)
Definition blinkBitmap : list Z :=
  grey 10 10 (fun px py => if inCenter px py && Z.odd (px + py) then 255 else 0).

(** 10 by 10, black. *)
Definition flatBitmap : list Z := grey 10 10 (fun _ _ => 0).

Definition faceCanvas : Canvas :=
  {| ctx2d := true; cwidth := 10; cheight := 10; bitmap := faceBitmap |}.

Definition flatCanvas : Canvas :=
  {| ctx2d := true; cwidth := 10; cheight := 10; bitmap := flatBitmap |}.

Definition zeroCanvas : Canvas :=
  {| ctx2d := true; cwidth := 0; cheight := 0; bitmap := [] |}.

Definition start (c : Canvas) : World :=
  {| now := 0; awaits := 0; canvas := c; log := [] |}.

(** No platform detector; the video shows the black frame throughout. *)
Definition envNoFace : Env :=
  {| faceDetector := false;
     platformDetect := fun _ _ => DetectorThrows;
     video := fun _ => {| videoWidth := 10; videoHeight := 10; drawn := flatBitmap |};
     lag := fun _ => 3%N |}.

(** No platform detector; the video shows the chequerboard, its colours
    exchanged from 100ms on. *)
Definition envBlink : Env :=
  {| faceDetector := false;
     platformDetect := fun _ _ => DetectorThrows;
     video := fun t => {| videoWidth := 10; videoHeight := 10;
                          drawn := if t <? 100 then faceBitmap else blinkBitmap |};
     lag := fun _ => 3%N |}.

Definition boxAt (bx : Z) : FaceBox :=
  {| x := inject_Z bx; y := 50; width := 200; height := 200 |}.


End Sample.

(** Further sample inputs. *)
Module MoreSamples.

(** No platform detector; the video has no frame yet: its size is zero
    and a capture draws nothing on the 640 by 480 canvas. *)
Definition envNoFrame : Env :=
  {| faceDetector := false;
     platformDetect := fun _ _ => DetectorThrows;
     video := fun _ => {| videoWidth := 0; videoHeight := 0;
                          drawn := repeat 0 (Z.to_nat (4 * 640 * 480)) |};
     lag := fun _ => 3%N |}.

(** A platform detector that finds a face 3 pixels high. *)
Definition envTinyFace : Env :=
  {| faceDetector := true;
     platformDetect := fun _ _ =>
       DetectorFaces [{| x := 4; y := 4; width := 3; height := 3 |}];
     video := fun _ => {| videoWidth := 10; videoHeight := 10; drawn := Sample.faceBitmap |};
     lag := fun _ => 3%N |}.

(** A platform detector whose box is 200 pixels a side before 200ms and
    210 from then on. *)
Definition envGrowingFace : Env :=
  {| faceDetector := true;
     platformDetect := fun t _ =>
       DetectorFaces [{| x := 100; y := 50;
                         width := if t <? 200 then 200 else 210;
                         height := if t <? 200 then 200 else 210 |}];
     video := fun _ => {| videoWidth := 10; videoHeight := 10; drawn := Sample.flatBitmap |};
     lag := fun _ => 3%N |}.

Definition faceImage : ImageData :=
  {| iwidth := 10; iheight := 10; idata := Sample.faceBitmap |}.

Definition blinkImage : ImageData :=
  {| iwidth := 10; iheight := 10; idata := Sample.blinkBitmap |}.

(** A call of [start] that is granted stream 1 and plays it. *)
Definition granted : Camera.Attempt :=
  {| Camera.hasVideo := true; Camera.userMedia := inr 1%nat; Camera.play := None |}.

(** A bitmap of [w] by [h] pixels, opaque, of colour [f px py]. *)
Definition rgb (w h : Z) (f : Z -> Z -> Z * Z * Z) : list Z :=
  flat_map (fun py =>
              flat_map (fun px => let '(r, g, b) := f px py in [r; g; b; 255]) (zrange 0 w))
           (zrange 0 h).

(** 10 by 10, every pixel the dark red (5, 0, 0). *)
Definition uniformRed : list Z := rgb 10 10 (fun _ _ => (5, 0, 0)).

(** 10 by 10, grey.  The 36 pixels of the centre have the luminances
    35 and 5 (9 each), 23 and 17 (5 each) and 20 (8): variance 115.
    Around them a chequerboard of 10 and 30: variance 100 in each strip. *)
Definition thresholdBitmap : list Z :=
  rgb 10 10 (fun px py =>
    let v :=
      if Sample.inCenter px py then
        let k := (py - 2) * 6 + (px - 2) in
        if k <? 9 then 35 else if k <? 18 then 5
        else if k <? 23 then 23 else if k <? 28 then 17 else 20
      else if Z.even (px + py) then 10 else 30 in
    (v, v, v)).

(** 10 by 10: the chequerboard of the centre in the green channel only. *)
Definition greenBitmap : list Z :=
  rgb 10 10 (fun px py =>
    if Sample.inCenter px py && Z.even (px + py) then (0, 255, 0) else (0, 0, 0)).

(** The chequerboard with the colours of row 6 exchanged. *)
Definition chinBitmap : list Z :=
  Sample.grey 10 10 (fun px py =>
    if Sample.inCenter px py && (if py =? 6 then Z.odd (px + py) else Z.even (px + py))
    then 255 else 0).

(** No platform detector; the video shows the chequerboard, and from
    100ms on the colours of its row 6 are exchanged: a change in the face
    box, below the eye band. *)
Definition envChin : Env :=
  {| faceDetector := false;
     platformDetect := fun _ _ => DetectorThrows;
     video := fun t => {| videoWidth := 10; videoHeight := 10;
                          drawn := if t <? 100 then Sample.faceBitmap else chinBitmap |};
     lag := fun _ => 3%N |}.

(** The box whose four numbers are the doubles nearest the decimals. *)
Definition boxOf (bx by' bw bh : Q) : FaceBox :=
  {| x := JS.dbl bx; y := JS.dbl by'; width := JS.dbl bw; height := JS.dbl bh |}.

(** Pairs of doubles, as data of the IEEE 754 specification of the
    Standard Library: 100 and 1.15, 10.3 and 0.3, 0.2 and 6.2, 0.7 and
    0.3 first, then others of every size. *)
Definition operands : list (spec_float * spec_float) :=
  [(S754_finite false 7036874417766400 (-46), S754_finite false 5179139571476070 (-52));
   (S754_finite false 5798384520239514 (-49), S754_finite false 5404319552844595 (-54));
   (S754_finite false 7205759403792794 (-55), S754_finite false 6980579422424269 (-50));
   (S754_finite false 6305039478318694 (-53), S754_finite false 5404319552844595 (-54));
   (S754_finite false 5629499534213120 (-50), S754_finite false 6755399441055744 (-51));
   (S754_finite false 4503599627370496 (-52), S754_finite false 6755399441055744 (-51));
   (S754_finite false 8972014882652160 (-45), S754_finite false 6755399441055744 (-51));
   (S754_finite false 7205759403792794 (-56), S754_finite false 7205759403792794 (-55));
   (S754_finite false 6724873095247260 944, S754_finite false 5242880000000000 (-19));
   (S754_finite false 6032057205060441 (-1049), S754_finite false 5242880000000000 (-19));
   (S754_finite false 20240225330731 (-1074), S754_finite false 6755399441055744 (-51));
   (S754_finite false 4503599627370496 1, S754_finite false 4503599627370496 (-52));
   (S754_finite false 8092405580431360 (-46), S754_finite false 8092405580431359 (-46));
   (S754_finite false 5629499534213120 (-43), S754_finite false 7205759403792794 (-55));
   (S754_finite false 8444249301319680 (-44), S754_finite false 5404319552844595 (-53));
   (S754_finite true 5798384520239514 (-49), S754_finite false 5404319552844595 (-54));
   (S754_finite false 6980579422424269 (-50), S754_finite true 7205759403792794 (-55));
   (S754_finite false 9007199254740991 971, S754_finite false 9007199254740991 971);
   (S754_finite false 1 (-1074), S754_finite false 4503599627370496 (-51));
   (S754_finite false 8646911284551352 (-57), S754_finite false 7036874417766400 (-47));
   (S754_finite true 6701982033387424 (-46), S754_finite false 8412215489973968 (-46));
   (S754_finite false 7462791516155812 (-43), S754_finite true 4834322859339488 (-46));
   (S754_finite false 8828488610338624 (-49), S754_finite false 6149160666347352 (-45));
   (S754_finite true 5547513898087180 (-43), S754_finite false 6703967793895616 (-48));
   (S754_finite false 4569841956017620 (-44), S754_finite false 5154103648082156 (-43));
   (S754_finite true 7140255669080142 (-43), S754_finite true 6917203128013258 (-44));
   (S754_finite true 7201000057904365 (-43), S754_finite false 5447324256223952 (-43));
   (S754_finite false 6806011546029988 (-44), S754_finite true 8059326353186947 (-43));
   (S754_finite false 8482836368085478 (-43), S754_finite false 8176105351150942 (-43));
   (S754_finite false 5415667692710364 (-44), S754_finite false 8132002394968408 (-45));
   (S754_finite true 7008890706821395 (-270), S754_finite false 7847804746803608 (-955));
   (S754_finite true 6899056395283979 (-684), S754_finite true 7349197233440563 (-65));
   (S754_finite true 7600107973516413 (-995), S754_finite false 8379969681756360 (-1050));
   (S754_finite true 7217192480029045 (-874), S754_finite true 4714728550307026 296);
   (S754_finite true 5094419538954643 872, S754_finite false 5638556664900620 (-134));
   (S754_finite true 5097098861088931 6, S754_finite true 7474707781828191 341);
   (S754_finite false 4822198418327780 (-651), S754_finite true 4920504915799953 (-707));
   (S754_finite true 6956985740864703 532, S754_finite false 8635469470281064 (-449))].

(** A call of [start] that is granted stream 3 and plays it. *)
Definition grantedThird : Camera.Attempt :=
  {| Camera.hasVideo := true; Camera.userMedia := inr 3%nat; Camera.play := None |}.

End MoreSamples.

(* ================================================================== *)
(** * Properties *)
(* ================================================================== *)

(** ** Numbers *)

Lemma Qltb_lt (a b : Q) : JS.Qltb a b = true <-> (a < b)%Q.
Proof.
  unfold JS.Qltb. rewrite negb_true_iff.
  split; intros H.
  - apply Qnot_le_lt. intros Hle. apply Qle_bool_iff in Hle. congruence.
  - destruct (Qle_bool b a) eqn:E; [|reflexivity].
    apply Qle_bool_iff in E. exfalso. exact (Qlt_not_le _ _ H E).
Qed.

Lemma Qltb_irrefl_eq (a b : Q) : (a == b)%Q -> JS.Qltb a b = false.
Proof.
  intros H. destruct (JS.Qltb a b) eqn:E; [|reflexivity].
  apply Qltb_lt in E. rewrite H in E. exfalso. exact (Qlt_irrefl _ E).
Qed.

(** Zero is a double. *)
Lemma round_zero (q : Q) : (q == 0)%Q -> JS.round q = JS.Fin 0.
Proof.
  intros H. unfold JS.round.
  assert (Hn : Qnum q = 0) by (unfold Qeq in H; simpl in H; lia).
  rewrite Hn. reflexivity.
Qed.

(** *** Rounding to binary64 *)

Lemma pow2_pos (k : Z) : (0 < JS.pow2 k)%Q.
Proof. apply Qpower_0_lt. reflexivity. Qed.

Lemma pow2_plus (a b : Z) : (JS.pow2 (a + b) == JS.pow2 a * JS.pow2 b)%Q.
Proof. apply Qpower_plus. discriminate. Qed.

Lemma pow2_le (a b : Z) : a <= b -> (JS.pow2 a <= JS.pow2 b)%Q.
Proof. intros H. apply Qpower_le_compat_l; [exact H|discriminate]. Qed.

Lemma pow2_Z (k : Z) : 0 <= k -> (JS.pow2 k == inject_Z (2 ^ k))%Q.
Proof. intros H. unfold JS.pow2. rewrite (Zpower_Qpower 2 k H). reflexivity. Qed.

Lemma pow2_inv (t : Z) : (JS.pow2 t * JS.pow2 (- t) == 1)%Q.
Proof. rewrite <- pow2_plus. replace (t + - t) with 0 by lia. reflexivity. Qed.

(** The exponent [ilog2] finds is no greater than that of the number. *)
Lemma ilog2_le (q : Q) : (0 < q)%Q -> (JS.pow2 (JS.ilog2 q) <= q)%Q.
Proof.
  intros Hq. unfold JS.ilog2.
  destruct (Qle_bool _ q) eqn:E; [apply Qle_bool_iff; exact E|]. clear E.
  destruct q as [n d].
  assert (Hn : 0 < n) by (unfold Qlt in Hq; simpl in Hq; lia).
  cbn [Qnum Qden].
  set (a := Z.log2 n). set (b := Z.log2 (Zpos d)).
  assert (Ha : 0 <= a) by apply Z.log2_nonneg.
  assert (Hb : 0 <= b) by apply Z.log2_nonneg.
  destruct (Z.log2_spec n Hn) as [Hlo _]. fold a in Hlo.
  destruct (Z.log2_spec (Zpos d) (Pos2Z.is_pos d)) as [_ Hhi]. fold b in Hhi.
  replace (a - b - 1) with (a + - (b + 1)) by lia.
  rewrite pow2_plus.
  assert (Hinv : (JS.pow2 (- (b + 1)) == / inject_Z (2 ^ (b + 1)))%Q).
  { unfold JS.pow2. rewrite Qpower_opp. fold (JS.pow2 (b + 1)).
    rewrite pow2_Z by lia. reflexivity. }
  rewrite Hinv, (pow2_Z a Ha).
  rewrite (Qmake_Qdiv n d).
  assert (Hy : (0 < inject_Z (2 ^ (b + 1)))%Q).
  { change 0%Q with (inject_Z 0). rewrite <- Zlt_Qlt. apply Z.pow_pos_nonneg; lia. }
  assert (Hd : (0 < inject_Z (Zpos d))%Q).
  { change 0%Q with (inject_Z 0). rewrite <- Zlt_Qlt. lia. }
  apply Qle_shift_div_l; [exact Hd|].
  change (inject_Z (2 ^ a) * / inject_Z (2 ^ (b + 1)) * inject_Z (Zpos d))%Q
    with (inject_Z (2 ^ a) / inject_Z (2 ^ (b + 1)) * inject_Z (Zpos d))%Q.
  assert (Hgoal : (inject_Z (2 ^ a) * inject_Z (Zpos d) <= inject_Z n * inject_Z (2 ^ (b + 1)))%Q).
  { rewrite <- !inject_Z_mult, <- Zle_Qle.
    replace (Z.succ b) with (b + 1) in Hhi by lia.
    assert (0 < 2 ^ a) by (apply Z.pow_pos_nonneg; lia). nia. }
  apply (Qmult_le_r _ _ (inject_Z (2 ^ (b + 1))) Hy).
  setoid_replace (inject_Z (2 ^ a) / inject_Z (2 ^ (b + 1)) * inject_Z (Zpos d) *
                  inject_Z (2 ^ (b + 1)))%Q
    with (inject_Z (2 ^ a) * inject_Z (Zpos d))%Q; [exact Hgoal|].
  field. intros H0. rewrite H0 in Hy. exact (Qlt_irrefl _ Hy).
Qed.

(** Rounding to the nearest integer stays between the integers around. *)
Lemma nearestEven_between (m : Q) (lo hi : Z) :
  (inject_Z lo <= m)%Q -> (m <= inject_Z hi)%Q ->
  lo <= JS.nearestEven m <= hi.
Proof.
  intros Hlo Hhi. unfold JS.nearestEven.
  pose proof (Qfloor_resp_le _ _ Hlo) as Fl. rewrite Qfloor_Z in Fl.
  pose proof (Qfloor_resp_le _ _ Hhi) as Fh. rewrite Qfloor_Z in Fh.
  pose proof (Qfloor_le m) as Fm.
  assert (Hup : (0 < m - inject_Z (Qfloor m))%Q -> Qfloor m + 1 <= hi).
  { intros Hpos.
    assert (H : (inject_Z (Qfloor m) < inject_Z hi)%Q) by lra.
    rewrite <- Zlt_Qlt in H. lia. }
  destruct (m - inject_Z (Qfloor m) ?= 1 # 2)%Q eqn:C.
  - apply Qeq_alt in C.
    destruct (Z.even (Qfloor m)); [lia|].
    assert (Qfloor m + 1 <= hi) by (apply Hup; lra). lia.
  - lia.
  - apply Qgt_alt in C.
    assert (Qfloor m + 1 <= hi) by (apply Hup; lra). lia.
Qed.

(** The exponent [ilog2] finds is the greatest. *)
Lemma ilog2_lt (q : Q) : (0 < q)%Q -> (q < JS.pow2 (JS.ilog2 q + 1))%Q.
Proof.
  intros Hq. unfold JS.ilog2.
  destruct (Qle_bool _ q) eqn:E.
  2:{ replace (Z.log2 (Qnum q) - Z.log2 (Zpos (Qden q)) - 1 + 1)
        with (Z.log2 (Qnum q) - Z.log2 (Zpos (Qden q))) by lia.
      apply Qnot_le_lt. intros H. apply Qle_bool_iff in H. congruence. }
  clear E.
  destruct q as [n d].
  assert (Hn : 0 < n) by (unfold Qlt in Hq; simpl in Hq; lia).
  cbn [Qnum Qden].
  set (a := Z.log2 n). set (b := Z.log2 (Zpos d)).
  assert (Ha : 0 <= a) by apply Z.log2_nonneg.
  assert (Hb : 0 <= b) by apply Z.log2_nonneg.
  destruct (Z.log2_spec n Hn) as [_ Hhi]. fold a in Hhi.
  destruct (Z.log2_spec (Zpos d) (Pos2Z.is_pos d)) as [Hlo _]. fold b in Hlo.
  replace (a - b + 1) with ((a + 1) + - b) by lia.
  rewrite pow2_plus.
  assert (Hinv : (JS.pow2 (- b) == / inject_Z (2 ^ b))%Q).
  { unfold JS.pow2. rewrite Qpower_opp. fold (JS.pow2 b).
    rewrite pow2_Z by lia. reflexivity. }
  rewrite Hinv, (pow2_Z (a + 1)) by lia.
  rewrite (Qmake_Qdiv n d).
  assert (Hy : (0 < inject_Z (2 ^ b))%Q).
  { change 0%Q with (inject_Z 0). rewrite <- Zlt_Qlt. apply Z.pow_pos_nonneg; lia. }
  assert (Hd : (0 < inject_Z (Zpos d))%Q).
  { change 0%Q with (inject_Z 0). rewrite <- Zlt_Qlt. lia. }
  apply Qlt_shift_div_r; [exact Hd|].
  assert (Hgoal : (inject_Z n * inject_Z (2 ^ b) < inject_Z (2 ^ (a + 1)) * inject_Z (Zpos d))%Q).
  { rewrite <- !inject_Z_mult, <- Zlt_Qlt.
    replace (Z.succ a) with (a + 1) in Hhi by lia.
    assert (0 < 2 ^ b) by (apply Z.pow_pos_nonneg; lia). nia. }
  apply (Qmult_lt_r _ _ (inject_Z (2 ^ b)) Hy).
  setoid_replace (inject_Z (2 ^ (a + 1)) * / inject_Z (2 ^ b) * inject_Z (Zpos d) *
                  inject_Z (2 ^ b))%Q
    with (inject_Z (2 ^ (a + 1)) * inject_Z (Zpos d))%Q; [exact Hgoal|].
  field. intros H0. rewrite H0 in Hy. exact (Qlt_irrefl _ Hy).
Qed.

(** A number less than a half away from an integer rounds to it. *)
Lemma nearestEven_near (m : Q) (n : Z) :
  (inject_Z n - (1 # 2) < m)%Q -> (m < inject_Z n + (1 # 2))%Q ->
  JS.nearestEven m = n.
Proof.
  intros Hlo Hhi. unfold JS.nearestEven.
  pose proof (Qfloor_le m) as Fm.
  pose proof (Qlt_floor m) as Gm. rewrite inject_Z_plus in Gm.
  change (inject_Z 1) with 1%Q in Gm.
  assert (H1 : (inject_Z n < inject_Z (Qfloor m + 2))%Q).
  { rewrite inject_Z_plus. change (inject_Z 2) with 2%Q. lra. }
  assert (H2 : (inject_Z (Qfloor m) < inject_Z (n + 1))%Q).
  { rewrite !inject_Z_plus. change (inject_Z 1) with 1%Q. lra. }
  rewrite <- Zlt_Qlt in H1, H2.
  assert (Hf : Qfloor m = n \/ Qfloor m = n - 1) by lia.
  destruct Hf as [Hf|Hf].
  - destruct (m - inject_Z (Qfloor m) ?= 1 # 2)%Q eqn:C.
    + apply Qeq_alt in C. rewrite Hf in C. lra.
    + exact Hf.
    + apply Qgt_alt in C. rewrite Hf in C. lra.
  - assert (Hi : (inject_Z (Qfloor m) == inject_Z n - 1)%Q).
    { rewrite Hf. unfold Z.sub. rewrite inject_Z_plus.
      change (inject_Z (- (1))) with (- (1))%Q. ring. }
    destruct (m - inject_Z (Qfloor m) ?= 1 # 2)%Q eqn:C.
    + apply Qeq_alt in C. rewrite Hi in C. lra.
    + apply Qlt_alt in C. rewrite Hi in C. lra.
    + lia.
Qed.

(** The grid of the doubles at a positive [q] below [2^(53-j)]: every
    multiple of [2^-j] is on it. *)
Lemma grid_at (q : Q) (j : Z) :
  0 <= j <= 1074 -> (0 < q)%Q -> (q < JS.pow2 (53 - j))%Q ->
  exists s, 0 <= s /\
    Z.max (JS.ilog2 q) (-1022) - 52 = - (j + s).
Proof.
  intros Hj Hq Hlt.
  assert (He : JS.ilog2 q <= 52 - j).
  { destruct (Z_le_gt_dec (JS.ilog2 q) (52 - j)) as [H|H]; [exact H|].
    exfalso.
    pose proof (ilog2_le q Hq) as H1.
    pose proof (pow2_le (53 - j) (JS.ilog2 q) ltac:(lia)) as H2.
    lra. }
  exists (52 - j - Z.max (JS.ilog2 q) (-1022)). split; lia.
Qed.

Lemma pow2_nonzero (k : Z) : ~ (JS.pow2 k == 0)%Q.
Proof. intros H. pose proof (pow2_pos k) as P. rewrite H in P. exact (Qlt_irrefl _ P). Qed.

(** Scaling to the grid: dividing by [2^-(j+s)] a multiple of [2^-j]
    gives an integer. *)
Lemma on_grid (n j s : Z) :
  0 <= s ->
  (inject_Z n * JS.pow2 (- j) / JS.pow2 (- (j + s)) == inject_Z (n * 2 ^ s))%Q.
Proof.
  intros Hs.
  apply (Qmult_inj_r _ _ (JS.pow2 (- (j + s))) (pow2_nonzero _)).
  rewrite (Qmult_comm (_ / _)), Qmult_div_r by apply pow2_nonzero.
  rewrite inject_Z_mult, <- (pow2_Z s Hs), <- !Qmult_assoc, <- pow2_plus.
  replace (s + - (j + s)) with (- j) by lia. reflexivity.
Qed.

(** A positive number between two multiples of [2^-j], the upper one
    below [2^(53-j)], rounds to a double between them: such multiples are
    doubles, and rounding is monotone. *)
Lemma roundPos_between (q : Q) (lo hi j : Z) :
  0 <= j <= 1074 -> (0 < q)%Q ->
  (inject_Z lo * JS.pow2 (- j) <= q)%Q -> (q <= inject_Z hi * JS.pow2 (- j))%Q ->
  hi < 2 ^ 53 ->
  exists r, JS.roundPos q = JS.Fin r /\
    (inject_Z lo * JS.pow2 (- j) <= r)%Q /\ (r <= inject_Z hi * JS.pow2 (- j))%Q.
Proof.
  intros Hj Hq Hlo Hhi Hbound.
  pose proof (pow2_pos (- j)) as Pj.
  assert (Hh53 : (inject_Z hi * JS.pow2 (- j) < JS.pow2 (53 - j))%Q).
  { replace (53 - j) with (53 + - j) by lia. rewrite pow2_plus, (pow2_Z 53) by lia.
    apply Qmult_lt_compat_r; [exact Pj|]. rewrite <- Zlt_Qlt. exact Hbound. }
  destruct (grid_at q j Hj Hq ltac:(lra)) as (s & Hs & He).
  unfold JS.roundPos. rewrite He.
  pose proof (pow2_pos (- (j + s))) as Hulp.
  set (ulp := JS.pow2 (- (j + s))) in *.
  destruct (nearestEven_between (q / ulp) (lo * 2 ^ s) (hi * 2 ^ s)) as [Nlo Nhi].
  { rewrite <- (on_grid lo j s Hs). fold ulp.
    apply Qmult_le_compat_r; [exact Hlo|]. apply Qlt_le_weak, Qinv_lt_0_compat, Hulp. }
  { rewrite <- (on_grid hi j s Hs). fold ulp.
    apply Qmult_le_compat_r; [exact Hhi|]. apply Qlt_le_weak, Qinv_lt_0_compat, Hulp. }
  set (ne := JS.nearestEven (q / ulp)) in *.
  assert (Hback : forall n, (inject_Z (n * 2 ^ s) * ulp == inject_Z n * JS.pow2 (- j))%Q).
  { intros n. rewrite <- (on_grid n j s Hs). fold ulp.
    rewrite Qmult_comm, Qmult_div_r by apply pow2_nonzero. reflexivity. }
  assert (Vlo : (inject_Z lo * JS.pow2 (- j) <= inject_Z ne * ulp)%Q).
  { rewrite <- Hback. apply Qmult_le_compat_r; [rewrite <- Zle_Qle; exact Nlo|lra]. }
  assert (Vhi : (inject_Z ne * ulp <= inject_Z hi * JS.pow2 (- j))%Q).
  { rewrite <- Hback. apply Qmult_le_compat_r; [rewrite <- Zle_Qle; exact Nhi|lra]. }
  destruct (Qle_bool (JS.pow2 1024) (inject_Z ne * ulp)) eqn:O.
  - exfalso. apply Qle_bool_iff in O.
    pose proof (pow2_le (53 - j) 1024 ltac:(lia)) as H2. lra.
  - exists (Qred (inject_Z ne * ulp)). split; [reflexivity|].
    rewrite Qred_correct. split; assumption.
Qed.

Lemma round_between_dyadic (q : Q) (lo hi j : Z) :
  0 <= j <= 1074 -> 0 <= lo ->
  (inject_Z lo * JS.pow2 (- j) <= q)%Q -> (q <= inject_Z hi * JS.pow2 (- j))%Q ->
  hi < 2 ^ 53 ->
  exists r, JS.round q = JS.Fin r /\
    (inject_Z lo * JS.pow2 (- j) <= r)%Q /\ (r <= inject_Z hi * JS.pow2 (- j))%Q.
Proof.
  intros Hj H0 Hlo Hhi Hbound.
  pose proof (pow2_pos (- j)) as Pj.
  assert (Hq : (0 <= q)%Q).
  { assert (H : (inject_Z 0 <= inject_Z lo)%Q) by (rewrite <- Zle_Qle; exact H0).
    change (inject_Z 0) with 0%Q in H.
    assert (H' : (0 <= inject_Z lo * JS.pow2 (- j))%Q) by (apply Qmult_le_0_compat; lra).
    lra. }
  unfold JS.round. destruct q as [[|n|n] d].
  - exists 0%Q. split; [reflexivity|].
    assert (Hz : (0 # d == 0)%Q) by reflexivity.
    rewrite Hz in Hlo, Hhi. split; assumption.
  - cbn [Qnum]. apply roundPos_between; auto. reflexivity.
  - exfalso. unfold Qle in Hq. simpl in Hq. lia.
Qed.

(** A number between two integers, the upper one below 2^53, rounds to a
    double between them. *)
Lemma round_between (q : Q) (lo hi : Z) :
  0 <= lo -> (inject_Z lo <= q)%Q -> (q <= inject_Z hi)%Q -> hi < 2 ^ 53 ->
  exists r, JS.round q = JS.Fin r /\ (inject_Z lo <= r)%Q /\ (r <= inject_Z hi)%Q.
Proof.
  intros H0 Hlo Hhi Hbound.
  destruct (round_between_dyadic q lo hi 0) as (r & Hr & R1 & R2);
    try lia; change (JS.pow2 (- 0)) with 1%Q; rewrite ?Qmult_1_r; try assumption.
  exists r. rewrite !Qmult_1_r in *. auto.
Qed.

(** A positive number within a part in 2^54 of an integer below 2^53
    rounds to that integer. *)
Lemma round_near_int (q : Q) (n : Z) :
  (0 < q)%Q -> 0 < n < 2 ^ 53 ->
  (inject_Z n - q <= q * JS.pow2 (- 54))%Q ->
  (q - inject_Z n <= q * JS.pow2 (- 54))%Q ->
  exists r, JS.round q = JS.Fin r /\ (r == inject_Z n)%Q.
Proof.
  intros Hq Hn Hbelow Habove.
  assert (P54 : (JS.pow2 (- 54) == 1 # 18014398509481984)%Q) by reflexivity.
  assert (P53 : (JS.pow2 53 == 9007199254740992)%Q) by reflexivity.
  assert (Hn' : (inject_Z n <= 9007199254740991)%Q).
  { change 9007199254740991%Q with (inject_Z 9007199254740991). rewrite <- Zle_Qle. lia. }
  assert (Hlt : (q < JS.pow2 (53 - 0))%Q).
  { change (53 - 0) with 53. rewrite P53. rewrite P54 in Habove. lra. }
  destruct (grid_at q 0 ltac:(lia) Hq Hlt) as (s & Hs & He).
  assert (Hround : JS.round q = JS.roundPos q).
  { unfold JS.round. destruct q as [[|a|a] d]; try reflexivity;
      exfalso; unfold Qlt in Hq; simpl in Hq; lia. }
  rewrite Hround. unfold JS.roundPos. rewrite He.
  cbn [Z.add] in *.
  pose proof (pow2_pos (- s)) as Hulp.
  set (ulp := JS.pow2 (- s)) in *.
  pose proof (on_grid n 0 s Hs) as Gn.
  change (JS.pow2 (- 0)) with 1%Q in Gn. rewrite Qmult_1_r in Gn.
  cbn [Z.add] in Gn. fold ulp in Gn.
  (* the distance to [n] is below half a step of the grid *)
  assert (Hhalf : (q * JS.pow2 (- 54) < ulp * (1 # 2))%Q).
  { pose proof (ilog2_lt q Hq) as H1.
    pose proof (pow2_le (JS.ilog2 q + 1) (53 - s) ltac:(lia)) as H2.
    assert (H3 : (JS.pow2 (53 - s) * JS.pow2 (- 54) == ulp * (1 # 2))%Q).
    { rewrite <- pow2_plus. replace (53 - s + - 54) with (- s + - 1) by lia.
      rewrite pow2_plus. reflexivity. }
    rewrite <- H3. apply Qmult_lt_compat_r; [apply pow2_pos|lra]. }
  assert (Hne : JS.nearestEven (q / ulp) = n * 2 ^ s).
  { apply nearestEven_near; rewrite <- Gn.
    - apply (Qmult_lt_r _ _ ulp Hulp).
      setoid_replace ((inject_Z n / ulp - (1 # 2)) * ulp)%Q with (inject_Z n - ulp * (1 # 2))%Q
        by (field; apply pow2_nonzero).
      setoid_replace (q / ulp * ulp)%Q with q by (field; apply pow2_nonzero).
      lra.
    - apply (Qmult_lt_r _ _ ulp Hulp).
      setoid_replace ((inject_Z n / ulp + (1 # 2)) * ulp)%Q with (inject_Z n + ulp * (1 # 2))%Q
        by (field; apply pow2_nonzero).
      setoid_replace (q / ulp * ulp)%Q with q by (field; apply pow2_nonzero).
      lra. }
  rewrite Hne.
  assert (Hv : (inject_Z (n * 2 ^ s) * ulp == inject_Z n)%Q).
  { rewrite <- Gn. field. apply pow2_nonzero. }
  destruct (Qle_bool (JS.pow2 1024) (inject_Z (n * 2 ^ s) * ulp)) eqn:O.
  - exfalso. apply Qle_bool_iff in O.
    pose proof (pow2_le 53 1024 ltac:(lia)) as H2. rewrite Hv in O. lra.
  - eexists. split; [reflexivity|]. rewrite Qred_correct. exact Hv.
Qed.

(** A positive number within a part in 2^54 of a multiple of [2^-j] that
    is a double rounds to it. *)
Lemma round_near_dyadic (q : Q) (n j : Z) :
  0 <= j <= 1074 -> (0 < q)%Q -> 0 < n < 2 ^ 53 ->
  (inject_Z n * JS.pow2 (- j) - q <= q * JS.pow2 (- 54))%Q ->
  (q - inject_Z n * JS.pow2 (- j) <= q * JS.pow2 (- 54))%Q ->
  exists r, JS.round q = JS.Fin r /\ (r == inject_Z n * JS.pow2 (- j))%Q.
Proof.
  intros Hj Hq Hn Hbelow Habove.
  pose proof (pow2_pos (- j)) as Pj.
  assert (P54 : (JS.pow2 (- 54) == 1 # 18014398509481984)%Q) by reflexivity.
  assert (Hn' : (inject_Z n * JS.pow2 (- j) <= 9007199254740991 * JS.pow2 (- j))%Q).
  { apply Qmult_le_compat_r; [|lra].
    change 9007199254740991%Q with (inject_Z 9007199254740991). rewrite <- Zle_Qle. lia. }
  assert (Hlt : (q < JS.pow2 (53 - j))%Q).
  { replace (53 - j) with (53 + - j) by lia. rewrite pow2_plus.
    change (JS.pow2 53) with 9007199254740992%Q.
    rewrite P54 in Habove. lra. }
  destruct (grid_at q j Hj Hq Hlt) as (s & Hs & He).
  assert (Hround : JS.round q = JS.roundPos q).
  { unfold JS.round. destruct q as [[|a|a] d]; try reflexivity;
      exfalso; unfold Qlt in Hq; simpl in Hq; lia. }
  rewrite Hround. unfold JS.roundPos. rewrite He.
  pose proof (pow2_pos (- (j + s))) as Hulp.
  set (ulp := JS.pow2 (- (j + s))) in *.
  pose proof (on_grid n j s Hs) as Gn. fold ulp in Gn.
  set (v := (inject_Z n * JS.pow2 (- j))%Q) in *.
  assert (Hhalf : (q * JS.pow2 (- 54) < ulp * (1 # 2))%Q).
  { pose proof (ilog2_lt q Hq) as H1.
    pose proof (pow2_le (JS.ilog2 q + 1) (53 - (j + s)) ltac:(lia)) as H2.
    assert (H3 : (JS.pow2 (53 - (j + s)) * JS.pow2 (- 54) == ulp * (1 # 2))%Q).
    { rewrite <- pow2_plus. replace (53 - (j + s) + - 54) with (- (j + s) + - 1) by lia.
      rewrite pow2_plus. reflexivity. }
    rewrite <- H3. apply Qmult_lt_compat_r; [apply pow2_pos|lra]. }
  assert (Hne : JS.nearestEven (q / ulp) = n * 2 ^ s).
  { apply nearestEven_near; rewrite <- Gn.
    - apply (Qmult_lt_r _ _ ulp Hulp).
      setoid_replace ((v / ulp - (1 # 2)) * ulp)%Q with (v - ulp * (1 # 2))%Q
        by (field; apply pow2_nonzero).
      setoid_replace (q / ulp * ulp)%Q with q by (field; apply pow2_nonzero).
      lra.
    - apply (Qmult_lt_r _ _ ulp Hulp).
      setoid_replace ((v / ulp + (1 # 2)) * ulp)%Q with (v + ulp * (1 # 2))%Q
        by (field; apply pow2_nonzero).
      setoid_replace (q / ulp * ulp)%Q with q by (field; apply pow2_nonzero).
      lra. }
  rewrite Hne.
  assert (Hv : (inject_Z (n * 2 ^ s) * ulp == v)%Q).
  { rewrite <- Gn. field. apply pow2_nonzero. }
  destruct (Qle_bool (JS.pow2 1024) (inject_Z (n * 2 ^ s) * ulp)) eqn:O.
  - exfalso. apply Qle_bool_iff in O.
    pose proof (pow2_le (53 - j) 1024 ltac:(lia)) as H2. rewrite Hv in O.
    assert (H3 : (JS.pow2 (53 - j) == 9007199254740992 * JS.pow2 (- j))%Q).
    { replace (53 - j) with (53 + - j) by lia. rewrite pow2_plus. reflexivity. }
    lra.
  - eexists. split; [reflexivity|]. rewrite Qred_correct. exact Hv.
Qed.

Lemma Qfloor_in_unit (r : Q) (a : Z) :
  (inject_Z a <= r)%Q -> (r < inject_Z a + 1)%Q -> Qfloor r = a.
Proof.
  intros Hlo Hhi.
  pose proof (Qfloor_resp_le _ _ Hlo) as F1. rewrite Qfloor_Z in F1.
  pose proof (Qfloor_le r) as F2.
  assert (F3 : (inject_Z (Qfloor r) < inject_Z (a + 1))%Q).
  { rewrite inject_Z_plus. change (inject_Z 1) with 1%Q. lra. }
  rewrite <- Zlt_Qlt in F3. lia.
Qed.

(** [Math.floor(n * 0.2)] and [Math.floor(n * 0.6)] as binary64 computes
    them, with the doubles nearest 0.2 and 0.6 and the rounded product,
    are the floors of a fifth and of three fifths of [n], for every [n]
    below 2^50. *)
Lemma floorMul_as_computed (n : Z) :
  0 <= n < 2 ^ 50 ->
  (exists r, JS.mul (JS.ofZ n) (JS.lit (2 # 10)) = JS.Fin r /\
             Qfloor r = Heuristic.floorMul n (2 # 10)) /\
  (exists r, JS.mul (JS.ofZ n) (JS.lit (6 # 10)) = JS.Fin r /\
             Qfloor r = Heuristic.floorMul n (6 # 10)).
Proof.
  intros Hn.
  assert (P3 : (JS.pow2 (- 3) == 1 # 8)%Q) by reflexivity.
  assert (P54 : (JS.pow2 (- 54) == 1 # 18014398509481984)%Q) by reflexivity.
  assert (Hn1 : (0 <= inject_Z n)%Q).
  { change 0%Q with (inject_Z 0). rewrite <- Zle_Qle. lia. }
  assert (Hn2 : (inject_Z n <= 1125899906842624)%Q).
  { change 1125899906842624%Q with (inject_Z 1125899906842624). rewrite <- Zle_Qle. lia. }
  split.
  - assert (Hc : JS.lit (2 # 10) = JS.Fin (3602879701896397 # 18014398509481984))
      by (vm_compute; reflexivity).
    unfold JS.mul, JS.ofZ. rewrite Hc.
    assert (Hf : Heuristic.floorMul n (2 # 10) = n / 5).
    { unfold Heuristic.floorMul, Qfloor. simpl. Z.div_mod_to_equations. lia. }
    rewrite Hf.
    pose proof (Z.div_mod n 5 ltac:(lia)) as Hdm.
    pose proof (Z.mod_pos_bound n 5 ltac:(lia)) as Hb.
    set (a := n / 5) in *. set (b := n mod 5) in *.
    assert (En : (inject_Z n == 5 * inject_Z a + inject_Z b)%Q).
    { rewrite Hdm, inject_Z_plus, inject_Z_mult. reflexivity. }
    assert (Hb1 : (0 <= inject_Z b)%Q).
    { change 0%Q with (inject_Z 0). rewrite <- Zle_Qle. lia. }
    assert (Hb2 : (inject_Z b <= 4)%Q).
    { change 4%Q with (inject_Z 4). rewrite <- Zle_Qle. lia. }
    destruct (round_between_dyadic
                (inject_Z n * (3602879701896397 # 18014398509481984)) (8 * a) (8 * a + 7) 3)
      as (r & Hr & R1 & R2).
    + lia.
    + lia.
    + rewrite P3, inject_Z_mult. change (inject_Z 8) with 8%Q. lra.
    + rewrite P3, inject_Z_plus, inject_Z_mult.
      change (inject_Z 8) with 8%Q. change (inject_Z 7) with 7%Q. lra.
    + lia.
    + exists r. split; [exact Hr|].
      rewrite P3, inject_Z_mult in R1.
      rewrite P3, inject_Z_plus, inject_Z_mult in R2.
      change (inject_Z 8) with 8%Q in R1, R2. change (inject_Z 7) with 7%Q in R2.
      apply Qfloor_in_unit; lra.
  - assert (Hc : JS.lit (6 # 10) = JS.Fin (5404319552844595 # 9007199254740992))
      by (vm_compute; reflexivity).
    unfold JS.mul, JS.ofZ. rewrite Hc.
    assert (Hf : Heuristic.floorMul n (6 # 10) = 3 * n / 5).
    { unfold Heuristic.floorMul, Qfloor. simpl.
      replace (n * 1) with n by lia.
      assert (H6 : n * 6 / 10 = 3 * n / 5).
      { replace (n * 6) with ((3 * n) * 2) by lia.
        replace 10 with (5 * 2) by lia.
        apply Z.div_mul_cancel_r; lia. }
      exact H6 || (rewrite <- H6; f_equal; lia). }
    rewrite Hf.
    pose proof (Z.div_mod (3 * n) 5 ltac:(lia)) as Hdm.
    pose proof (Z.mod_pos_bound (3 * n) 5 ltac:(lia)) as Hb.
    set (a := 3 * n / 5) in *. set (b := (3 * n) mod 5) in *.
    assert (En : (3 * inject_Z n == 5 * inject_Z a + inject_Z b)%Q).
    { change 3%Q with (inject_Z 3). rewrite <- inject_Z_mult, Hdm, inject_Z_plus, inject_Z_mult.
      reflexivity. }
    assert (Hb1 : (0 <= inject_Z b)%Q).
    { change 0%Q with (inject_Z 0). rewrite <- Zle_Qle. lia. }
    assert (Hb2 : (inject_Z b <= 4)%Q).
    { change 4%Q with (inject_Z 4). rewrite <- Zle_Qle. lia. }
    destruct (Z.eq_dec b 0) as [Hb0|Hb0].
    + (* three fifths of [n] is an integer: the product is just below it *)
      destruct (Z.eq_dec n 0) as [Hn0|Hn0].
      * exists 0%Q. split.
        -- apply round_zero. rewrite Hn0. reflexivity.
        -- subst a. rewrite Hn0. reflexivity.
      * assert (Ha : 0 < a) by lia.
        assert (Ha1 : (0 < inject_Z a)%Q).
        { change 0%Q with (inject_Z 0). rewrite <- Zlt_Qlt. exact Ha. }
        assert (Eb : (inject_Z b == 0)%Q) by (rewrite Hb0; reflexivity).
        destruct (round_near_int
                    (inject_Z n * (5404319552844595 # 9007199254740992)) a)
          as (r & Hr & Er).
        -- lra.
        -- lia.
        -- rewrite P54. lra.
        -- rewrite P54. lra.
        -- exists r. split; [exact Hr|]. rewrite Er. apply Qfloor_Z.
    + assert (Hb3 : (1 <= inject_Z b)%Q).
      { change 1%Q with (inject_Z 1). rewrite <- Zle_Qle. lia. }
      destruct (round_between_dyadic
                  (inject_Z n * (5404319552844595 # 9007199254740992)) (8 * a) (8 * a + 7) 3)
        as (r & Hr & R1 & R2).
      * lia.
      * lia.
      * rewrite P3, inject_Z_mult. change (inject_Z 8) with 8%Q. lra.
      * rewrite P3, inject_Z_plus, inject_Z_mult.
        change (inject_Z 8) with 8%Q. change (inject_Z 7) with 7%Q. lra.
      * lia.
      * exists r. split; [exact Hr|].
        rewrite P3, inject_Z_mult in R1.
        rewrite P3, inject_Z_plus, inject_Z_mult in R2.
        change (inject_Z 8) with 8%Q in R1, R2. change (inject_Z 7) with 7%Q in R2.
        apply Qfloor_in_unit; lra.
Qed.

(** Bounds of a quotient of integers, from bounds of the integers. *)
Lemma quotient_le (c t a b : Z) :
  0 < t -> a * c <= b * t -> (inject_Z a * (inject_Z c / inject_Z t) <= inject_Z b)%Q.
Proof.
  intros Ht H.
  assert (Ht' : (0 < inject_Z t)%Q) by (change 0%Q with (inject_Z 0); rewrite <- Zlt_Qlt; exact Ht).
  apply (Qmult_le_r _ _ (inject_Z t) Ht').
  setoid_replace (inject_Z a * (inject_Z c / inject_Z t) * inject_Z t)%Q
    with (inject_Z a * inject_Z c)%Q by (field; lra).
  rewrite <- !inject_Z_mult, <- Zle_Qle. exact H.
Qed.

Lemma quotient_ge (c t a b : Z) :
  0 < t -> b * t <= a * c -> (inject_Z b <= inject_Z a * (inject_Z c / inject_Z t))%Q.
Proof.
  intros Ht H.
  assert (Ht' : (0 < inject_Z t)%Q) by (change 0%Q with (inject_Z 0); rewrite <- Zlt_Qlt; exact Ht).
  apply (Qmult_le_r _ _ (inject_Z t) Ht').
  setoid_replace (inject_Z a * (inject_Z c / inject_Z t) * inject_Z t)%Q
    with (inject_Z a * inject_Z c)%Q by (field; lra).
  rewrite <- !inject_Z_mult, <- Zle_Qle. exact H.
Qed.

Lemma Qltb_false_le (a b : Q) : (b <= a)%Q -> JS.Qltb a b = false.
Proof.
  intros H. unfold JS.Qltb. apply negb_false_iff. apply Qle_bool_iff. exact H.
Qed.

Lemma Qltb_true_lt (a b : Q) : (a < b)%Q -> JS.Qltb a b = true.
Proof.
  intros H. unfold JS.Qltb. apply negb_true_iff.
  destruct (Qle_bool b a) eqn:E; [|reflexivity].
  apply Qle_bool_iff in E. lra.
Qed.

(** [changed / total > 0.06] as binary64 computes it, with the rounded
    quotient and the double nearest 0.06, is the test of the exact
    fraction, for every total below 2^50. *)
Lemma fraction_test_as_computed (c t : Z) :
  0 <= c <= t -> 0 < t < 2 ^ 50 ->
  JS.gt (JS.div (JS.ofZ c) (JS.ofZ t)) (JS.lit (6 # 100))
  = JS.Qltb (6 # 100) (inject_Z c / inject_Z t).
Proof.
  intros Hc Ht.
  assert (Hd : JS.lit (6 # 100) = JS.Fin (1080863910568919 # 18014398509481984))
    by (vm_compute; reflexivity).
  assert (P57 : (JS.pow2 (- 57) == 1 # 144115188075855872)%Q) by reflexivity.
  assert (P54 : (JS.pow2 (- 54) == 1 # 18014398509481984)%Q) by reflexivity.
  assert (P4 : (JS.pow2 (- 4) == 1 # 16)%Q) by reflexivity.
  assert (Ht' : (0 < inject_Z t)%Q) by (change 0%Q with (inject_Z 0); rewrite <- Zlt_Qlt; lia).
  rewrite Hd. unfold JS.div, JS.ofZ.
  assert (Hnz : Qeq_bool (inject_Z t) 0 = false).
  { destruct (Qeq_bool (inject_Z t) 0) eqn:E; [|reflexivity].
    apply Qeq_bool_iff in E. lra. }
  rewrite Hnz.
  set (q := (inject_Z c / inject_Z t)%Q).
  pose proof (quotient_ge c t 1 0 ltac:(lia) ltac:(lia)) as Q0.
  pose proof (quotient_le c t 1 1 ltac:(lia) ltac:(lia)) as Q1.
  fold q in Q0, Q1. change (inject_Z 0) with 0%Q in Q0. change (inject_Z 1) with 1%Q in Q0, Q1.
  destruct (Z_le_gt_dec (100 * c) (6 * t)) as [Hle|Hgt].
  - (* at most six hundredths *)
    pose proof (quotient_le c t 100 6 ltac:(lia) ltac:(lia)) as Q6. fold q in Q6.
    change (inject_Z 100) with 100%Q in Q6. change (inject_Z 6) with 6%Q in Q6.
    rewrite (Qltb_false_le (6 # 100) q) by lra.
    destruct (Z.eq_dec c 0) as [Hc0|Hc0].
    { rewrite round_zero; [reflexivity|]. unfold q. rewrite Hc0. reflexivity. }
    assert (Hq : (0 < q)%Q).
    { unfold q. apply Qlt_shift_div_l; [exact Ht'|]. rewrite Qmult_0_l.
      change 0%Q with (inject_Z 0). rewrite <- Zlt_Qlt. lia. }
    destruct (Z_le_gt_dec (144115188075855872 * c) (8646911284551352 * t)) as [Hlow|Hhigh].
    + pose proof (quotient_le c t 144115188075855872 8646911284551352 ltac:(lia) Hlow) as Qd.
      fold q in Qd.
      change (inject_Z 144115188075855872) with 144115188075855872%Q in Qd.
      change (inject_Z 8646911284551352) with 8646911284551352%Q in Qd.
      destruct (round_between_dyadic q 0 8646911284551352 57) as (r & Hr & R1 & R2).
      * lia.
      * lia.
      * change (inject_Z 0) with 0%Q. lra.
      * rewrite P57. change (inject_Z 8646911284551352) with 8646911284551352%Q. lra.
      * lia.
      * rewrite Hr. cbn [JS.gt]. apply Qltb_false_le.
        rewrite P57 in R2. change (inject_Z 8646911284551352) with 8646911284551352%Q in R2.
        lra.
    + pose proof (quotient_ge c t 144115188075855872 8646911284551352 ltac:(lia) ltac:(lia)) as Qd.
      fold q in Qd.
      change (inject_Z 144115188075855872) with 144115188075855872%Q in Qd.
      change (inject_Z 8646911284551352) with 8646911284551352%Q in Qd.
      destruct (round_near_dyadic q 8646911284551352 57) as (r & Hr & Er).
      * lia.
      * exact Hq.
      * lia.
      * rewrite P57, P54. change (inject_Z 8646911284551352) with 8646911284551352%Q. lra.
      * rewrite P57, P54. change (inject_Z 8646911284551352) with 8646911284551352%Q. lra.
      * rewrite Hr. cbn [JS.gt]. apply Qltb_false_le.
        rewrite Er, P57. change (inject_Z 8646911284551352) with 8646911284551352%Q. lra.
  - (* more than six hundredths *)
    pose proof (quotient_ge c t 100 6 ltac:(lia) ltac:(lia)) as Q6. fold q in Q6.
    change (inject_Z 100) with 100%Q in Q6. change (inject_Z 6) with 6%Q in Q6.
    assert (Hq6 : (6 # 100 < q)%Q).
    { assert (H : (inject_Z (6 * t + 1) <= inject_Z (100 * c))%Q) by (rewrite <- Zle_Qle; lia).
      unfold q. apply Qlt_shift_div_l; [exact Ht'|].
      rewrite inject_Z_plus, !inject_Z_mult in H.
      change (inject_Z 6) with 6%Q in H. change (inject_Z 100) with 100%Q in H.
      change (inject_Z 1) with 1%Q in H. lra. }
    rewrite (Qltb_true_lt (6 # 100) q Hq6).
    destruct (Z_le_gt_dec t (16 * c)) as [Hbig|Hsmall].
    + pose proof (quotient_ge c t 16 1 ltac:(lia) ltac:(lia)) as Q16. fold q in Q16.
      change (inject_Z 16) with 16%Q in Q16. change (inject_Z 1) with 1%Q in Q16.
      destruct (round_between_dyadic q 1 16 4) as (r & Hr & R1 & R2).
      * lia.
      * lia.
      * rewrite P4. change (inject_Z 1) with 1%Q. lra.
      * rewrite P4. change (inject_Z 16) with 16%Q. lra.
      * lia.
      * rewrite Hr. cbn [JS.gt]. apply Qltb_true_lt.
        rewrite P4 in R1. change (inject_Z 1) with 1%Q in R1. lra.
    + pose proof (quotient_ge c t 144115188075855872 8646911284551353 ltac:(lia) ltac:(lia)) as Qlo.
      pose proof (quotient_le c t 144115188075855872 9007199254740991 ltac:(lia) ltac:(lia)) as Qhi.
      fold q in Qlo, Qhi.
      change (inject_Z 144115188075855872) with 144115188075855872%Q in Qlo, Qhi.
      change (inject_Z 8646911284551353) with 8646911284551353%Q in Qlo.
      change (inject_Z 9007199254740991) with 9007199254740991%Q in Qhi.
      destruct (round_between_dyadic q 8646911284551353 9007199254740991 57) as (r & Hr & R1 & R2).
      * lia.
      * lia.
      * rewrite P57. change (inject_Z 8646911284551353) with 8646911284551353%Q. lra.
      * rewrite P57. change (inject_Z 9007199254740991) with 9007199254740991%Q. lra.
      * lia.
      * rewrite Hr. cbn [JS.gt]. apply Qltb_true_lt.
        rewrite P57 in R1. change (inject_Z 8646911284551353) with 8646911284551353%Q in R1.
        lra.
Qed.

Lemma round_is_a_number (q : Q) : JS.round q <> JS.NaN.
Proof.
  unfold JS.round, JS.roundPos.
  destruct (Qnum q); try discriminate;
    match goal with |- context [Qle_bool ?a ?b] => destruct (Qle_bool a b) end;
    discriminate.
Qed.

Lemma Qltb_cases (a b : Q) :
  (JS.Qltb a b = true /\ (a < b)%Q) \/ (JS.Qltb a b = false /\ (b <= a)%Q).
Proof.
  destruct (Qlt_le_dec a b) as [H|H].
  - left. split; [apply Qltb_true_lt|]; exact H.
  - right. split; [apply Qltb_false_le|]; exact H.
Qed.

(** [Math.max(a, b) > d] is [a > d || b > d], NaN apart. *)
Lemma gt_max (a b d : JS.num) :
  a <> JS.NaN -> b <> JS.NaN ->
  JS.gt (JS.max a b) d = JS.gt a d || JS.gt b d.
Proof.
  intros Ha Hb.
  destruct a as [| | |x]; [congruence| | |];
    (destruct b as [| | |y]; [congruence| | |]);
    destruct d as [| | |z]; cbn [JS.max JS.gt orb]; try reflexivity.
  all: try (destruct (JS.Qltb _ _); reflexivity).
  all: destruct (Qltb_cases x y) as [[E H]|[E H]]; rewrite E; cbn [JS.gt]; try reflexivity.
  all: destruct (Qltb_cases z x) as [[E1 H1]|[E1 H1]];
       destruct (Qltb_cases z y) as [[E2 H2]|[E2 H2]]; rewrite ?E1, ?E2; try reflexivity; lra.
Qed.

Lemma Qltb_Qmax (d x y : Q) : JS.Qltb d (Qmax x y) = JS.Qltb d x || JS.Qltb d y.
Proof.
  pose proof (Q.le_max_l x y) as H1. pose proof (Q.le_max_r x y) as H2.
  assert (H3 : (Qmax x y == x \/ Qmax x y == y)%Q).
  { destruct (Q.max_spec x y) as [[_ E]|[_ E]]; auto. }
  destruct (Qltb_cases d (Qmax x y)) as [[E H]|[E H]];
    destruct (Qltb_cases d x) as [[E1 G1]|[E1 G1]];
    destruct (Qltb_cases d y) as [[E2 G2]|[E2 G2]]; rewrite E, E1, E2; try reflexivity;
    exfalso; destruct H3 as [H3|H3]; rewrite H3 in *; lra.
Qed.

(** [Math.max(score1, score2) > 0.06] as binary64 computes it, with the
    rounded quotients [changed / total] and the double nearest 0.06,
    is the test of the exact fractions, for regions of fewer than 2^50
    pixels. *)
Lemma blink_test_as_computed (c1 t1 c2 t2 : Z) :
  0 <= c1 <= t1 -> t1 < 2 ^ 50 -> 0 <= c2 <= t2 -> t2 < 2 ^ 50 ->
  JS.gt (JS.max (if t1 =? 0 then JS.ofZ 0 else JS.div (JS.ofZ c1) (JS.ofZ t1))
                (if t2 =? 0 then JS.ofZ 0 else JS.div (JS.ofZ c2) (JS.ofZ t2)))
        (JS.lit (6 # 100))
  = JS.Qltb (6 # 100)
      (Qmax (if t1 =? 0 then 0 else inject_Z c1 / inject_Z t1)
            (if t2 =? 0 then 0 else inject_Z c2 / inject_Z t2)).
Proof.
  intros Hc1 Ht1 Hc2 Ht2.
  assert (Hd : JS.lit (6 # 100) = JS.Fin (1080863910568919 # 18014398509481984))
    by (vm_compute; reflexivity).
  assert (One : forall c t, 0 <= c <= t -> t < 2 ^ 50 ->
            (if t =? 0 then JS.ofZ 0 else JS.div (JS.ofZ c) (JS.ofZ t)) <> JS.NaN /\
            JS.gt (if t =? 0 then JS.ofZ 0 else JS.div (JS.ofZ c) (JS.ofZ t)) (JS.lit (6 # 100))
            = JS.Qltb (6 # 100) (if t =? 0 then 0 else inject_Z c / inject_Z t)).
  { intros c t Hc Ht. destruct (Z.eqb_spec t 0) as [E|E].
    - split; [discriminate|]. rewrite Hd. reflexivity.
    - split; [|apply fraction_test_as_computed; lia].
      unfold JS.div, JS.ofZ.
      destruct (Qeq_bool (inject_Z t) 0) eqn:Z0; [|apply round_is_a_number].
      apply Qeq_bool_iff in Z0. exfalso. apply E.
      unfold Qeq in Z0. simpl in Z0. lia. }
  destruct (One c1 t1 Hc1 Ht1) as [N1 G1]. destruct (One c2 t2 Hc2 Ht2) as [N2 G2].
  rewrite gt_max by assumption. rewrite G1, G2. symmetry. apply Qltb_Qmax.
Qed.

(** The exponent of a positive rational is determined by its value. *)
Lemma ilog2_unique (q : Q) (k : Z) :
  (0 < q)%Q -> (JS.pow2 k <= q)%Q -> (q < JS.pow2 (k + 1))%Q -> JS.ilog2 q = k.
Proof.
  intros Hq Hlo Hhi.
  pose proof (ilog2_le q Hq) as L. pose proof (ilog2_lt q Hq) as U.
  destruct (Z.lt_trichotomy (JS.ilog2 q) k) as [H|[H|H]]; [|exact H|]; exfalso.
  - pose proof (pow2_le (JS.ilog2 q + 1) k ltac:(lia)). lra.
  - pose proof (pow2_le (k + 1) (JS.ilog2 q) ltac:(lia)). lra.
Qed.

Lemma nearestEven_compat (m m' : Q) : (m == m')%Q -> JS.nearestEven m = JS.nearestEven m'.
Proof.
  intros H. unfold JS.nearestEven.
  rewrite (Qfloor_comp _ _ H).
  assert (E : (m - inject_Z (Qfloor m') ?= 1 # 2)%Q = (m' - inject_Z (Qfloor m') ?= 1 # 2)%Q).
  { apply Qcompare_comp; [rewrite H; reflexivity|reflexivity]. }
  rewrite E. reflexivity.
Qed.

Lemma roundPos_compat (a a' : Q) :
  (0 < a)%Q -> (a == a')%Q -> JS.roundPos a = JS.roundPos a'.
Proof.
  intros Ha H.
  assert (Ha' : (0 < a')%Q) by (rewrite <- H; exact Ha).
  assert (E : JS.ilog2 a' = JS.ilog2 a).
  { apply ilog2_unique; [exact Ha'| |]; rewrite <- H; [apply ilog2_le|apply ilog2_lt]; exact Ha. }
  unfold JS.roundPos. rewrite E.
  set (ulp := JS.pow2 (Z.max (JS.ilog2 a) (-1022) - 52)).
  rewrite (nearestEven_compat (a / ulp) (a' / ulp)) by (rewrite H; reflexivity).
  reflexivity.
Qed.

(** Rounding depends on the value of a rational only, not on the
    fraction that denotes it. *)
Lemma round_compat (q q' : Q) : (q == q')%Q -> JS.round q = JS.round q'.
Proof.
  intros H. unfold JS.round.
  destruct q as [n d]. destruct q' as [n' d']. cbn [Qnum].
  assert (Hs : n * Zpos d' = n' * Zpos d) by exact H.
  destruct n as [|n|n]; destruct n' as [|n'|n']; try lia; try reflexivity.
  - apply roundPos_compat; [reflexivity|exact H].
  - f_equal. apply roundPos_compat; [reflexivity|]. rewrite H. reflexivity.
Qed.

Lemma Qred_int (n : Z) : Qred (inject_Z n) = inject_Z n.
Proof.
  unfold Qred, inject_Z.
  pose proof (Z.ggcd_gcd n 1) as G. pose proof (Z.ggcd_correct_divisors n 1) as D.
  destruct (Z.ggcd n 1) as [g [a b]]. cbn [fst snd] in *.
  rewrite Z.gcd_1_r in G. subst g. destruct D as [Da Db].
  replace a with n by lia. replace b with 1 by lia. reflexivity.
Qed.

(** What rounding yields is a fraction in lowest terms. *)
Lemma roundPos_reduced (a r : Q) : JS.roundPos a = JS.Fin r -> Qred r = r.
Proof.
  unfold JS.roundPos.
  set (v := (inject_Z _ * _)%Q).
  destruct (Qle_bool _ v); [discriminate|].
  intros H. assert (E : r = Qred v) by congruence.
  rewrite E. apply Qred_complete, Qred_correct.
Qed.

(** An integer below 2^53 in magnitude is a double. *)
Lemma round_int (n : Z) : Z.abs n < 2 ^ 53 -> JS.round (inject_Z n) = JS.ofZ n.
Proof.
  intros Hn. unfold JS.ofZ.
  assert (Pos : forall k, 0 < k < 2 ^ 53 -> JS.round (inject_Z k) = JS.Fin (inject_Z k)).
  { intros k Hk.
    assert (Hq : (0 < inject_Z k)%Q) by (change 0%Q with (inject_Z 0); rewrite <- Zlt_Qlt; lia).
    pose proof (pow2_pos (- 54)) as P.
    assert (Hm : (0 <= inject_Z k * JS.pow2 (- 54))%Q) by (apply Qmult_le_0_compat; lra).
    destruct (round_near_int (inject_Z k) k Hq Hk) as (r & Hr & Er); [lra|lra|].
    rewrite Hr. f_equal.
    assert (Hc : Qred r = r).
    { apply (roundPos_reduced (inject_Z k)).
      rewrite <- Hr. unfold JS.round. destruct k as [|k|k]; try lia. reflexivity. }
    rewrite <- Hc, (Qred_complete _ _ Er). apply Qred_int. }
  destruct n as [|n|n].
  - reflexivity.
  - apply Pos. lia.
  - assert (Hk : 0 < Zpos n < 2 ^ 53) by lia.
    specialize (Pos (Zpos n) Hk).
    change (JS.round (inject_Z (Zpos n))) with (JS.roundPos (inject_Z (Zpos n))) in Pos.
    change (JS.round (inject_Z (Zneg n))) with (JS.neg (JS.roundPos (inject_Z (Zpos n)))).
    rewrite Pos. reflexivity.
Qed.

Lemma add_int (a b : Z) :
  Z.abs (a + b) < 2 ^ 53 -> JS.add (JS.ofZ a) (JS.ofZ b) = JS.ofZ (a + b).
Proof.
  intros H. unfold JS.add, JS.ofZ.
  rewrite (round_compat _ (inject_Z (a + b))) by (rewrite inject_Z_plus; reflexivity).
  apply round_int. exact H.
Qed.

Lemma sub_int (a b : Z) :
  Z.abs (a - b) < 2 ^ 53 -> JS.sub (JS.ofZ a) (JS.ofZ b) = JS.ofZ (a - b).
Proof.
  intros H. unfold JS.sub, JS.ofZ, JS.neg.
  change (- inject_Z b)%Q with (inject_Z (- b)).
  apply (add_int a (- b)). exact H.
Qed.

Lemma abs_int (a : Z) : JS.abs (JS.ofZ a) = JS.ofZ (Z.abs a).
Proof. reflexivity. Qed.




(** [s / 3 > 18] as binary64 computes it, for the sum [s] of three
    differences of bytes, is the exact test. *)
Lemma third_above_18 (s : Z) :
  0 <= s <= 765 ->
  JS.gt (JS.div (JS.ofZ s) (JS.ofZ 3)) (JS.ofZ 18) = JS.Qltb 18 (inject_Z s / 3).
Proof.
  intros Hs.
  assert (P2 : (JS.pow2 (- 2) == 1 # 4)%Q) by reflexivity.
  unfold JS.div, JS.ofZ.
  change (Qeq_bool (inject_Z 3) 0) with false. cbv iota.
  change (inject_Z 3) with 3%Q. change (inject_Z 18) with 18%Q.
  set (q := (inject_Z s / 3)%Q).
  pose proof (quotient_ge s 3 1 0 ltac:(lia) ltac:(lia)) as Q0.
  pose proof (quotient_le s 3 1 255 ltac:(lia) ltac:(lia)) as Q1.
  change (inject_Z 3) with 3%Q in Q0, Q1. fold q in Q0, Q1.
  change (inject_Z 0) with 0%Q in Q0. change (inject_Z 1) with 1%Q in Q0, Q1.
  change (inject_Z 255) with 255%Q in Q1.
  destruct (Z_le_gt_dec s 54) as [Hle|Hgt].
  - pose proof (quotient_le s 3 1 18 ltac:(lia) ltac:(lia)) as Q18.
    change (inject_Z 3) with 3%Q in Q18. fold q in Q18.
    change (inject_Z 1) with 1%Q in Q18. change (inject_Z 18) with 18%Q in Q18.
    rewrite (Qltb_false_le 18 q) by lra.
    destruct (round_between q 0 18) as (r & Hr & R1 & R2).
    + lia.
    + change (inject_Z 0) with 0%Q. lra.
    + change (inject_Z 18) with 18%Q. lra.
    + lia.
    + rewrite Hr. cbn [JS.gt]. apply Qltb_false_le.
      change (inject_Z 18) with 18%Q in R2. exact R2.
  - pose proof (quotient_ge s 3 4 73 ltac:(lia) ltac:(lia)) as Q73.
    change (inject_Z 3) with 3%Q in Q73. fold q in Q73.
    change (inject_Z 4) with 4%Q in Q73. change (inject_Z 73) with 73%Q in Q73.
    rewrite (Qltb_true_lt 18 q) by lra.
    destruct (round_between_dyadic q 73 1020 2) as (r & Hr & R1 & R2).
    + lia.
    + lia.
    + rewrite P2. change (inject_Z 73) with 73%Q. lra.
    + rewrite P2. change (inject_Z 1020) with 1020%Q. lra.
    + lia.
    + rewrite Hr. cbn [JS.gt]. apply Qltb_true_lt.
      rewrite P2 in R1. change (inject_Z 73) with 73%Q in R1. lra.
Qed.

(** Where both images hold a pixel, the test [d > 18] of the code, on
    the rounded average, is that of the exact average of the three
    absolute differences. *)
Lemma differs_exact (a b : ImageData) (p : Z * Z) (ra ga ba rb gb bb : Z) :
  Forall (fun v => 0 <= v <= 255) [ra; ga; ba; rb; gb; bb] ->
  map (Spec.channel (iwidth a) (idata a) p) [0; 1; 2] = map JS.ofZ [ra; ga; ba] ->
  map (Spec.channel (iwidth a) (idata b) p) [0; 1; 2] = map JS.ofZ [rb; gb; bb] ->
  Spec.differs a b p =
  JS.Qltb 18 (inject_Z (Z.abs (ra - rb) + Z.abs (ga - gb) + Z.abs (ba - bb)) / 3).
Proof.
  intros Hbytes Ha Hb.
  repeat match goal with H : Forall _ (_ :: _) |- _ => inversion H; clear H; subst end.
  cbn [map] in Ha, Hb.
  injection Ha as A0 A1 A2. injection Hb as B0 B1 B2.
  unfold Spec.differs, Spec.channelDifference.
  rewrite A0, A1, A2, B0, B1, B2.
  rewrite !sub_int, !abs_int by lia.
  rewrite !add_int by lia.
  apply third_above_18. lia.
Qed.

Lemma gt_not_NaN_l (a b : JS.num) : JS.gt a b = true -> a <> JS.NaN.
Proof. destruct a; simpl; congruence. Qed.

Lemma gt_eqb_false (a b : JS.num) : JS.eqb a b = true -> JS.gt a b = false.
Proof.
  destruct a, b; simpl; try congruence.
  intros H. apply Qeq_bool_eq in H. apply Qltb_irrefl_eq. symmetry. exact H.
Qed.

(** ** Loops over a rectangle *)

Lemma zrange_nil (lo n : Z) : n <= 0 -> zrange lo n = [].
Proof.
  intros H. unfold zrange. replace (Z.to_nat n) with 0%nat by lia. reflexivity.
Qed.

Lemma pixelsOf_empty (x0 y0 w h : Z) : w <= 0 \/ h <= 0 -> Spec.pixelsOf x0 y0 w h = [].
Proof.
  intros [H|H]; unfold Spec.pixelsOf.
  - rewrite (zrange_nil x0 w H). induction (zrange y0 h); simpl; auto.
  - rewrite (zrange_nil y0 h H). reflexivity.
Qed.

(** A nested pair of [for] loops over a rectangle is one fold over its
    pixels. *)
Lemma nested_fold {A : Type} (f : Z -> A -> Z -> A) (xs ys : list Z) (acc : A) :
  fold_left (fun acc py => fold_left (f py) xs acc) ys acc =
  fold_left (fun acc p => f (snd p) acc (fst p))
            (flat_map (fun py => map (fun px => (px, py)) xs) ys) acc.
Proof.
  revert acc. induction ys as [|py ys IH]; intros acc; simpl; [reflexivity|].
  rewrite fold_left_app, IH. f_equal.
  clear. revert acc. induction xs as [|px xs IH]; intros acc; simpl; auto.
Qed.

(** The luminance the loop of [region] computes at a pixel is the
    average of its three colour channels. *)
Lemma luminance_spec (width : Z) (image : list Z) (p : Z * Z) :
  Heuristic.luminance width image (fst p) (snd p) = Spec.luminance width image p.
Proof.
  unfold Heuristic.luminance, Spec.luminance, Spec.channel.
  replace (4 * (snd p * width + fst p) + 0) with ((snd p * width + fst p) * 4) by ring.
  replace (4 * (snd p * width + fst p) + 1) with ((snd p * width + fst p) * 4 + 1) by ring.
  replace (4 * (snd p * width + fst p) + 2) with ((snd p * width + fst p) * 4 + 2) by ring.
  reflexivity.
Qed.

Lemma regionStep_fold (width : Z) (image : list Z) (ps : list (Z * Z)) (acc : Heuristic.Accum) :
  let lums := map (fun p => Heuristic.luminance width image (fst p) (snd p)) ps in
  fold_left (fun acc p => Heuristic.regionStep width image (snd p) acc (fst p)) ps acc =
  {| Heuristic.sum := fold_left JS.add lums (Heuristic.sum acc);
     Heuristic.sumSq := fold_left JS.add (map (fun v => JS.mul v v) lums) (Heuristic.sumSq acc);
     Heuristic.count := Heuristic.count acc + Z.of_nat (List.length lums) |}.
Proof.
  revert acc. induction ps as [|p ps IH]; intros acc; simpl.
  - destruct acc; simpl. f_equal. lia.
  - rewrite IH. simpl. f_equal. lia.
Qed.

(** The accumulators of [region] hold the sum, the sum of squares and the
    number of the luminances of the region. *)
Lemma region_stats (width : Z) (image : list Z) (x0 y0 w h : Z) :
  Heuristic.region width image x0 y0 w h =
  {| Heuristic.mean := Spec.meanOf (Spec.luminances width image x0 y0 w h);
     Heuristic.variance := Spec.varianceOf (Spec.luminances width image x0 y0 w h) |}.
Proof.
  unfold Heuristic.region, Heuristic.regionLoop.
  rewrite nested_fold.
  change (flat_map _ (zrange y0 h)) with (Spec.pixelsOf x0 y0 w h).
  rewrite regionStep_fold. cbn [Heuristic.sum Heuristic.sumSq Heuristic.count].
  rewrite (map_ext _ _ (luminance_spec width image)).
  reflexivity.
Qed.

Lemma edgeVar_mean (width height : Z) (image : list Z) :
  Heuristic.edgeVar width height image = Spec.meanOfEdgeVariances width height image.
Proof.
  unfold Heuristic.edgeVar, Heuristic.edges, Spec.meanOfEdgeVariances,
    Spec.edgeVariances, Spec.meanOf, Spec.total, Spec.size.
  rewrite !region_stats. reflexivity.
Qed.

Lemma fallback_some_inv (width height : Z) (image : list Z) (box : FaceBox) :
  Heuristic.fallback width height image = Some box ->
  box = {| x := inject_Z (Heuristic.cx width); y := inject_Z (Heuristic.cy height);
           width := inject_Z (Heuristic.cw width);
           height := inject_Z (Heuristic.ch height) |} /\
  JS.gt (Spec.centralVariance width height image)
        (JS.mul (Spec.meanOfEdgeVariances width height image) (JS.lit (115 # 100))) = true.
Proof.
  unfold Heuristic.fallback, Heuristic.center.
  rewrite region_stats, edgeVar_mean. simpl.
  fold (Spec.centralVariance width height image).
  destruct (JS.gt _ _); intros H; inversion H. auto.
Qed.

(** ** FaceLocator *)

Lemma eqb_not_NaN_l (a b : JS.num) : JS.eqb a b = true -> a <> JS.NaN.
Proof. destruct a; simpl; congruence. Qed.

(** The central variance is NaN when the central region is empty. *)
Lemma central_region_not_empty (frameWidth frameHeight : Z) (image : list Z) :
  Spec.centralVariance frameWidth frameHeight image <> JS.NaN ->
  0 < Heuristic.cw frameWidth /\ 0 < Heuristic.ch frameHeight.
Proof.
  intros H.
  destruct (Z_lt_le_dec 0 (Heuristic.cw frameWidth)) as [Hw|Hw];
    destruct (Z_lt_le_dec 0 (Heuristic.ch frameHeight)) as [Hh|Hh]; auto;
    exfalso; apply H; unfold Spec.centralVariance, Spec.luminances;
    rewrite pixelsOf_empty by auto; reflexivity.
Qed.

Lemma central_region_needs_size (frameWidth frameHeight : Z) :
  0 < Heuristic.cw frameWidth /\ 0 < Heuristic.ch frameHeight ->
  frameWidth <> 0 /\ frameHeight <> 0.
Proof.
  intros [Hw Hh]. split; intros ->; [revert Hw|revert Hh]; vm_compute; discriminate.
Qed.

Lemma fallback_threshold (frameWidth frameHeight : Z) (image : list Z) :
  Heuristic.fallback frameWidth frameHeight image <> None <->
  JS.gt (Spec.centralVariance frameWidth frameHeight image)
        (JS.mul (Spec.meanOfEdgeVariances frameWidth frameHeight image)
                (JS.lit (115 # 100))) = true.
Proof.
  unfold Heuristic.fallback, Heuristic.center.
  rewrite region_stats, edgeVar_mean. simpl.
  fold (Spec.centralVariance frameWidth frameHeight image).
  destruct (JS.gt _ _); split; congruence.
Qed.

Lemma detectFaceBox_fallback_cases (fd : bool) (outcome : DetectorOutcome) (c : Canvas) :
  reachesFallback fd outcome c ->
  (cwidth c = 0 \/ cheight c = 0) /\ detectFaceBox fd outcome c = Raise IndexSizeError \/
  (cwidth c <> 0 /\ cheight c <> 0) /\
  detectFaceBox fd outcome c = Ok (Heuristic.fallback (cwidth c) (cheight c) (bitmap c)).
Proof.
  intros [Hc Hp]. unfold detectFaceBox, detectFaceBoxOn. rewrite Hc, Hp. simpl.
  unfold getImageData.
  destruct (Z.eqb_spec (cwidth c) 0) as [Hw|Hw]; [left; auto|].
  destruct (Z.eqb_spec (cheight c) 0) as [Hh|Hh]; [left; auto|].
  right. auto.
Qed.

(** C5, as the code has it.  The heuristic fallback reports a face
    exactly when the luminance variance of the central region is strictly
    greater than the mean of the variances of the four edge strips
    multiplied by 1.15, all of them the binary64 numbers the code
    computes: the luminance of a pixel is the rounded average of its R, G
    and B, a variance the rounded mean of the squares less the rounded
    square of the mean, and the threshold the rounded product of the mean
    edge variance and the double nearest 1.15.  When the central variance
    is equal to that threshold it reports none.  So does every call of
    [detectFaceBox] that reaches the fallback. *)
Theorem fallback_face_iff_central_variance_above_threshold
    (frameWidth frameHeight : Z) (image : list Z) :
  let central := Spec.centralVariance frameWidth frameHeight image in
  let threshold :=
    JS.mul (Spec.meanOfEdgeVariances frameWidth frameHeight image) (JS.lit (115 # 100)) in
  (Heuristic.fallback frameWidth frameHeight image <> None <->
   JS.gt central threshold = true) /\
  (JS.eqb central threshold = true ->
   Heuristic.fallback frameWidth frameHeight image = None) /\
  (forall (fd : bool) (outcome : DetectorOutcome) (c : Canvas),
      reachesFallback fd outcome c ->
      cwidth c = frameWidth -> cheight c = frameHeight -> bitmap c = image ->
      ((exists box, detectFaceBox fd outcome c = Ok (Some box)) <->
       JS.gt central threshold = true) /\
      (JS.eqb central threshold = true -> detectFaceBox fd outcome c = Ok None)).
Proof.
  intros central threshold.
  pose proof (fallback_threshold frameWidth frameHeight image) as E.
  fold central in E. fold threshold in E.
  assert (Hnone : JS.eqb central threshold = true ->
                  Heuristic.fallback frameWidth frameHeight image = None).
  { intros Heq. apply gt_eqb_false in Heq.
    destruct (Heuristic.fallback frameWidth frameHeight image) eqn:F; [|reflexivity].
    assert (H : JS.gt central threshold = true) by (apply E; congruence).
    congruence. }
  split; [exact E|]. split; [exact Hnone|].
  intros fd outcome c Hreach Hw Hh Hb.
  assert (Hsize : central <> JS.NaN -> cwidth c <> 0 /\ cheight c <> 0).
  { intros Hn. rewrite Hw, Hh.
    apply central_region_needs_size.
    apply (central_region_not_empty frameWidth frameHeight image). exact Hn. }
  destruct (detectFaceBox_fallback_cases fd outcome c Hreach)
    as [[Hzero ->]|[_ ->]]; rewrite ?Hw, ?Hh, ?Hb.
  - split.
    + split.
      * intros [box Hbox]. discriminate.
      * intros Hgt. apply gt_not_NaN_l in Hgt.
        destruct (Hsize Hgt). destruct Hzero; contradiction.
    + intros Heq. apply eqb_not_NaN_l in Heq.
      destruct (Hsize Heq). destruct Hzero; contradiction.
  - split.
    + rewrite <- E. split.
      * intros [box Hbox]. inversion Hbox. congruence.
      * intros Hsome.
        destruct (Heuristic.fallback frameWidth frameHeight image) as [box|];
          [exists box; reflexivity|congruence].
    + intros Heq. rewrite (Hnone Heq). reflexivity.
Qed.

Lemma floor_fifths (n : Z) :
  0 <= n ->
  0 <= Heuristic.floorMul n (2 # 10) /\
  Heuristic.floorMul n (2 # 10) + Heuristic.floorMul n (6 # 10) <= n.
Proof.
  intros Hn. unfold Heuristic.floorMul, Qfloor. simpl.
  Z.div_mod_to_equations. lia.
Qed.

Lemma fallback_inside (frameWidth frameHeight : Z) (image : list Z) (box : FaceBox) :
  0 <= frameWidth -> 0 <= frameHeight ->
  Heuristic.fallback frameWidth frameHeight image = Some box ->
  insideFrame frameWidth frameHeight box.
Proof.
  intros Hw Hh F.
  apply fallback_some_inv in F. destruct F as [-> Hgt].
  destruct (central_region_not_empty _ _ _ (gt_not_NaN_l _ _ Hgt)) as [Hcw Hch].
  destruct (floor_fifths frameWidth Hw) as [Hx Hxw].
  destruct (floor_fifths frameHeight Hh) as [Hy Hyh].
  fold (Heuristic.cx frameWidth) in Hx, Hxw. fold (Heuristic.cw frameWidth) in Hxw.
  fold (Heuristic.cy frameHeight) in Hy, Hyh. fold (Heuristic.ch frameHeight) in Hyh.
  unfold insideFrame. simpl. repeat split.
  - change 0%Q with (inject_Z 0). rewrite <- Zlt_Qlt. exact Hcw.
  - change 0%Q with (inject_Z 0). rewrite <- Zlt_Qlt. exact Hch.
  - change 0%Q with (inject_Z 0). rewrite <- Zle_Qle. exact Hx.
  - change 0%Q with (inject_Z 0). rewrite <- Zle_Qle. exact Hy.
  - rewrite <- inject_Z_plus, <- Zle_Qle. exact Hxw.
  - rewrite <- inject_Z_plus, <- Zle_Qle. exact Hyh.
Qed.

(** C7. On a well-formed frame the heuristic fallback returns none, or a
    box of positive width and height lying inside the frame; and so does
    a call of [detectFaceBox] that reaches the fallback on a canvas
    holding such a frame, of a size that is not zero. *)
Theorem fallback_box_inside_frame
    (frameWidth frameHeight : Z) (image : list Z) :
  validFrame frameWidth frameHeight image ->
  (Heuristic.fallback frameWidth frameHeight image = None \/
   exists box,
     Heuristic.fallback frameWidth frameHeight image = Some box /\
     insideFrame frameWidth frameHeight box) /\
  (forall (fd : bool) (outcome : DetectorOutcome) (c : Canvas),
      reachesFallback fd outcome c ->
      cwidth c = frameWidth -> cheight c = frameHeight -> bitmap c = image ->
      frameWidth <> 0 -> frameHeight <> 0 ->
      detectFaceBox fd outcome c = Ok None \/
      exists box,
        detectFaceBox fd outcome c = Ok (Some box) /\
        insideFrame frameWidth frameHeight box).
Proof.
  intros (Hw & Hh & _).
  assert (H : Heuristic.fallback frameWidth frameHeight image = None \/
              exists box,
                Heuristic.fallback frameWidth frameHeight image = Some box /\
                insideFrame frameWidth frameHeight box).
  { destruct (Heuristic.fallback frameWidth frameHeight image) as [box|] eqn:F;
      [right|left; reflexivity].
    exists box. split; [reflexivity|].
    apply (fallback_inside frameWidth frameHeight image box Hw Hh F). }
  split; [exact H|].
  intros fd outcome c Hreach Hcw Hch Hb Hw0 Hh0.
  destruct (detectFaceBox_fallback_cases fd outcome c Hreach)
    as [[Hzero _]|[_ ->]].
  - rewrite Hcw, Hch in Hzero. destruct Hzero; contradiction.
  - rewrite Hcw, Hch, Hb.
    destruct H as [->|(box & -> & Hin)]; [left; reflexivity|].
    right. exists box. auto.
Qed.

(** C9. Two calls of [detectFaceBox] that reach the heuristic fallback on
    canvases of the same width, height and RGBA data return the same
    result, whatever else differs between the calls. *)
Theorem fallback_deterministic
    (fd1 fd2 : bool) (outcome1 outcome2 : DetectorOutcome) (c1 c2 : Canvas) :
  reachesFallback fd1 outcome1 c1 ->
  reachesFallback fd2 outcome2 c2 ->
  cwidth c1 = cwidth c2 ->
  cheight c1 = cheight c2 ->
  bitmap c1 = bitmap c2 ->
  detectFaceBox fd1 outcome1 c1 = detectFaceBox fd2 outcome2 c2.
Proof.
  intros [Hc1 Hp1] [Hc2 Hp2] Hw Hh Hb.
  unfold detectFaceBox, detectFaceBoxOn. rewrite Hc1, Hc2, Hp1, Hp2. simpl.
  unfold getImageData. rewrite Hw, Hh, Hb. reflexivity.
Qed.

Lemma captured_readable (env : Env) (t : Z) (c : Canvas) : readable (captured env t c).
Proof.
  unfold captured, readable.
  destruct (ctx2d c) eqn:E; simpl; [right|left; exact E].
  unfold orDefault.
  split.
  - destruct (N.eqb_spec (videoWidth (video env t)) 0); lia.
  - destruct (N.eqb_spec (videoHeight (video env t)) 0); lia.
Qed.

Lemma captured_with_context (env : Env) (t : Z) (c : Canvas) :
  ctx2d c = true ->
  captured env t c =
  {| ctx2d := true;
     cwidth := orDefault (videoWidth (video env t)) 640;
     cheight := orDefault (videoHeight (video env t)) 480;
     bitmap := drawn (video env t) |}.
Proof. intros H. unfold captured. rewrite H. reflexivity. Qed.

Lemma captured_ctx2d (env : Env) (t : Z) (c : Canvas) :
  ctx2d (captured env t c) = ctx2d c.
Proof. unfold captured. destruct (ctx2d c) eqn:E; simpl; auto. Qed.

Lemma detectFaceBox_readable (fd : bool) (outcome : DetectorOutcome) (c : Canvas) :
  readable c -> exists r, detectFaceBox fd outcome c = Ok r.
Proof.
  intros [H|[Hw Hh]]; unfold detectFaceBox, detectFaceBoxOn.
  - rewrite H. simpl. eauto.
  - destruct (negb (ctx2d c)); [eauto|].
    destruct (if fd then tryPlatformDetector outcome else None); [eauto|].
    unfold getImageData.
    destruct (Z.eqb_spec (cwidth c) 0); [contradiction|].
    destruct (Z.eqb_spec (cheight c) 0); [contradiction|].
    simpl. eauto.
Qed.

Lemma zeroish_add (a b : JS.num) : zeroish a -> zeroish b -> zeroish (JS.add a b).
Proof.
  destruct a as [| | |p], b as [| | |q]; simpl; auto.
  intros Hp Hq. rewrite round_zero; [reflexivity|].
  rewrite Hp, Hq. reflexivity.
Qed.

Lemma zeroish_neg (a : JS.num) : zeroish a -> zeroish (JS.neg a).
Proof.
  destruct a as [| | |p]; simpl; auto.
  intros Hp. rewrite Hp. reflexivity.
Qed.

Lemma zeroish_sub (a b : JS.num) : zeroish a -> zeroish b -> zeroish (JS.sub a b).
Proof. intros Ha Hb. apply zeroish_add; [exact Ha|apply zeroish_neg; exact Hb]. Qed.

Lemma zeroish_mul_l (a b : JS.num) : zeroish a -> zeroish (JS.mul a b).
Proof.
  destruct a as [| | |p], b as [| | |q]; simpl; auto; try contradiction.
  - intros Hp. unfold Qeq in Hp. simpl in Hp.
    replace (Qnum p) with 0 by lia. reflexivity.
  - intros Hp. unfold Qeq in Hp. simpl in Hp.
    replace (Qnum p) with 0 by lia. reflexivity.
  - intros Hp. rewrite round_zero; [reflexivity|].
    rewrite Hp. apply Qmult_0_l.
Qed.

Lemma zeroish_div (a b : JS.num) : zeroish a -> zeroish (JS.div a b).
Proof.
  destruct a as [| | |p], b as [| | |q]; simpl; auto; try contradiction;
    try reflexivity.
  intros Hp. destruct (Qeq_bool q 0).
  - unfold Qeq in Hp. simpl in Hp. replace (Qnum p) with 0 by lia. exact I.
  - rewrite round_zero; [reflexivity|].
    unfold Qdiv. rewrite Hp. apply Qmult_0_l.
Qed.

Lemma zeroish_total (l : list JS.num) : Forall zeroish l -> zeroish (Spec.total l).
Proof.
  unfold Spec.total.
  assert (H : forall acc, zeroish acc -> Forall zeroish l -> zeroish (fold_left JS.add l acc)).
  { induction l as [|v l IH]; intros acc Hacc Hl; simpl; [exact Hacc|].
    inversion Hl; subst. apply IH; [apply zeroish_add|]; assumption. }
  apply H. reflexivity.
Qed.

Lemma zeroish_varianceOf (l : list JS.num) : Forall zeroish l -> zeroish (Spec.varianceOf l).
Proof.
  intros Hl. unfold Spec.varianceOf, Spec.meanOf.
  apply zeroish_sub.
  - apply zeroish_div, zeroish_total.
    apply Forall_map. eapply Forall_impl; [|exact Hl].
    intros v Hv. apply zeroish_mul_l. exact Hv.
  - apply zeroish_mul_l, zeroish_div, zeroish_total. exact Hl.
Qed.

Lemma zeroish_not_gt (a b : JS.num) : zeroish a -> zeroish b -> JS.gt a b = false.
Proof.
  destruct a as [| | |p], b as [| | |q]; simpl; auto; try contradiction.
  intros Hp Hq. apply Qltb_irrefl_eq. rewrite Hp, Hq. reflexivity.
Qed.

Lemma byteAt_blank (image : list Z) (i : Z) : blank image -> zeroish (byteAt image i).
Proof.
  intros Hb. unfold byteAt.
  destruct (i <? 0); [exact I|].
  destruct (nth_error image (Z.to_nat i)) as [v|] eqn:E; [|exact I].
  apply nth_error_In in E. unfold blank in Hb. rewrite Forall_forall in Hb.
  rewrite (Hb v E). reflexivity.
Qed.

Lemma luminances_blank (frameWidth : Z) (image : list Z) (x0 y0 w h : Z) :
  blank image -> Forall zeroish (Spec.luminances frameWidth image x0 y0 w h).
Proof.
  intros Hb. unfold Spec.luminances. apply Forall_map. apply Forall_forall.
  intros p _. unfold Spec.luminance, Spec.channel.
  apply zeroish_div. repeat apply zeroish_add; apply byteAt_blank; exact Hb.
Qed.

(** Nothing is found in a frame on which nothing was drawn. *)
Lemma fallback_blank (frameWidth frameHeight : Z) (image : list Z) :
  blank image -> Heuristic.fallback frameWidth frameHeight image = None.
Proof.
  intros Hb.
  destruct (Heuristic.fallback frameWidth frameHeight image) as [box|] eqn:F; [|reflexivity].
  exfalso.
  destruct (fallback_some_inv _ _ _ _ F) as [_ Hgt].
  rewrite zeroish_not_gt in Hgt; [discriminate| |].
  - apply zeroish_varianceOf, luminances_blank. exact Hb.
  - apply zeroish_mul_l. unfold Spec.meanOfEdgeVariances, Spec.meanOf.
    apply zeroish_div, zeroish_total.
    unfold Spec.edgeVariances. cbv zeta. apply Forall_map.
    repeat constructor; apply zeroish_varianceOf, luminances_blank; exact Hb.
Qed.

Lemma detectFaceBox_falls_through (fd : bool) (outcome : DetectorOutcome) (c : Canvas) :
  readable c ->
  ctx2d c = true ->
  fd = false \/ outcome = DetectorThrows \/ outcome = DetectorFaces [] ->
  detectFaceBox fd outcome c =
  Ok (Heuristic.fallback (cwidth c) (cheight c) (bitmap c)).
Proof.
  intros Hr Hc Hfall.
  assert (Hp : (if fd then tryPlatformDetector outcome else None) = None).
  { destruct Hfall as [->|[->| ->]]; [reflexivity| |]; destruct fd; reflexivity. }
  unfold detectFaceBox, detectFaceBoxOn. rewrite Hc, Hp. simpl.
  destruct Hr as [Hr|[Hw Hh]]; [congruence|].
  unfold getImageData.
  destruct (Z.eqb_spec (cwidth c) 0); [contradiction|].
  destruct (Z.eqb_spec (cheight c) 0); [contradiction|].
  reflexivity.
Qed.




(** ** Turn left, turn right *)





(** ** Running in a world *)

Lemma returns_ret {A : Type} (a : A) (w : World) (post : A -> World -> Prop) :
  post a w -> returns (ret a) w post.
Proof. intros H. exists a, w. split; [reflexivity|exact H]. Qed.

Lemma announced_app (l1 l2 : list Event) :
  announced (l1 ++ l2) = announced l1 ++ announced l2.
Proof.
  induction l1 as [|e l1 IH]; simpl; [reflexivity|].
  destruct e; simpl; rewrite IH; reflexivity.
Qed.

Lemma extends_refl (w : World) : extends w w.
Proof. unfold extends. repeat split; auto. lia. Qed.

Lemma extends_trans (w1 w2 w3 : World) : extends w1 w2 -> extends w2 w3 -> extends w1 w3.
Proof.
  unfold extends. intros (H1 & H2 & H3) (H4 & H5 & H6).
  repeat split; [lia|congruence|auto].
Qed.

Lemma capture_run (env : Env) (w : World) :
  captureToCanvas env w = Ret tt (afterCapture env w).
Proof. reflexivity. Qed.

Lemma wait_run (env : Env) (ms : Z) (w : World) :
  wait env ms w = Ret tt (afterWait env ms w).
Proof. reflexivity. Qed.

Lemma detect_run (env : Env) (w : World) (o : option FaceBox) :
  detectAt env (now w) (canvas w) = Ok o ->
  awaitDetectFaceBox env w = Ret o (afterDetect env w).
Proof. unfold awaitDetectFaceBox. intros ->. reflexivity. Qed.

Lemma afterCapture_extends (env : Env) (w : World) : extends w (afterCapture env w).
Proof.
  unfold extends, afterCapture. simpl. repeat split.
  - pose proof (N2Z.is_nonneg (lag env (awaits w))). lia.
  - rewrite announced_app. simpl. apply app_nil_r.
  - intros _. apply captured_readable.
Qed.

Lemma afterDetect_extends (env : Env) (w : World) : extends w (afterDetect env w).
Proof.
  unfold extends, afterDetect, resume, record. simpl. repeat split; auto.
  - pose proof (N2Z.is_nonneg (lag env (awaits w))). lia.
  - rewrite announced_app. simpl. apply app_nil_r.
Qed.

Lemma afterWait_extends (env : Env) (ms : Z) (w : World) :
  0 <= ms -> extends w (afterWait env ms w).
Proof.
  intros Hms. unfold extends, afterWait, resume, record. simpl. repeat split; auto.
  - pose proof (N2Z.is_nonneg (lag env (awaits w))). lia.
  - rewrite announced_app. simpl. apply app_nil_r.
Qed.

Lemma afterWait_later (env : Env) (ms : Z) (w : World) :
  now w + ms <= now (afterWait env ms w).
Proof.
  unfold afterWait, resume, record. simpl.
  pose proof (N2Z.is_nonneg (lag env (awaits w))). lia.
Qed.

Lemma sample_run (env : Env) (w : World) :
  exists o,
    detectAt env (now (afterCapture env w)) (captured env (now w) (canvas w)) = Ok o /\
    sample env w = Ret o (afterSample env w).
Proof.
  destruct (detectFaceBox_readable (faceDetector env)
              (platformDetect env (now (afterCapture env w)) (captured env (now w) (canvas w)))
              (captured env (now w) (canvas w))
              (captured_readable env (now w) (canvas w))) as [o Ho].
  exists o. split; [exact Ho|].
  unfold sample, bind. rewrite capture_run.
  apply detect_run. exact Ho.
Qed.

Lemma afterSample_extends (env : Env) (w : World) : extends w (afterSample env w).
Proof.
  eapply extends_trans; [apply afterCapture_extends|apply afterDetect_extends].
Qed.

Lemma afterSample_log (env : Env) (w : World) :
  log (afterSample env w) = log w ++ [EvCapture; EvDetect] /\
  awaits (afterSample env w) = S (S (awaits w)) /\
  canvas (afterSample env w) = captured env (now w) (canvas w).
Proof.
  unfold afterSample, afterDetect, afterCapture, resume, record. simpl.
  rewrite <- app_assoc. auto.
Qed.

(** C8.  [detectFaceBox] raises nothing in a run.  Every call of it in
    the repository is made on the canvas that [captureToCanvas] has just
    drawn from the camera video, whatever the canvas was before: such a
    canvas has no 2D context, or sides that are not zero and a bitmap
    that is origin-clean, and the detection on it returns.  A platform
    detector that is absent, throws or finds no face leads to the
    heuristic fallback; a canvas without a context gives none; and a
    capture on which nothing was drawn, as when the video has no frame
    and its zero size is replaced by 640 by 480, gives none. *)
Theorem detectFaceBox_never_raises_in_a_run
    (env : Env) (w : World) (fd : bool) (outcome : DetectorOutcome) :
  let c := captured env (now w) (canvas w) in
  (exists o, sample env w = Ret o (afterSample env w)) /\
  (exists r, detectFaceBox fd outcome c = Ok r) /\
  (ctx2d (canvas w) = false -> detectFaceBox fd outcome c = Ok None) /\
  (ctx2d (canvas w) = true ->
   fd = false \/ outcome = DetectorThrows \/ outcome = DetectorFaces [] ->
   cwidth c = orDefault (videoWidth (video env (now w))) 640 /\
   cheight c = orDefault (videoHeight (video env (now w))) 480 /\
   cwidth c <> 0 /\ cheight c <> 0 /\
   detectFaceBox fd outcome c =
   Ok (Heuristic.fallback (cwidth c) (cheight c) (bitmap c)) /\
   (blank (drawn (video env (now w))) -> detectFaceBox fd outcome c = Ok None)).
Proof.
  intros c.
  pose proof (captured_readable env (now w) (canvas w)) as Hr. fold c in Hr.
  split; [|split; [|split]].
  - destruct (sample_run env w) as (o & _ & Hs). exists o. exact Hs.
  - apply detectFaceBox_readable. exact Hr.
  - intros Hc. unfold detectFaceBox, detectFaceBoxOn.
    unfold c. rewrite captured_ctx2d, Hc. reflexivity.
  - intros Hc Hfall.
    assert (Hfb : detectFaceBox fd outcome c =
                  Ok (Heuristic.fallback (cwidth c) (cheight c) (bitmap c))).
    { apply detectFaceBox_falls_through;
        [exact Hr|unfold c; rewrite captured_ctx2d; exact Hc|exact Hfall]. }
    assert (Hcap := captured_with_context env (now w) (canvas w) Hc). fold c in Hcap.
    destruct Hr as [Hr|[Hw Hh]].
    { unfold c in Hr. rewrite captured_ctx2d in Hr. congruence. }
    split; [rewrite Hcap; reflexivity|]. split; [rewrite Hcap; reflexivity|].
    split; [exact Hw|]. split; [exact Hh|]. split; [exact Hfb|].
    intros Hblank. rewrite Hfb. rewrite Hcap. simpl.
    rewrite fallback_blank by exact Hblank. reflexivity.
Qed.

(** A detection that finds a box has a canvas with a context. *)
Lemma detectFaceBox_some_ctx (fd : bool) (outcome : DetectorOutcome) (c : Canvas) (box : FaceBox) :
  detectFaceBox fd outcome c = Ok (Some box) -> ctx2d c = true.
Proof.
  unfold detectFaceBox, detectFaceBoxOn. destruct (ctx2d c); simpl; [reflexivity|discriminate].
Qed.

Lemma readCanvas_run (w : World) :
  ctx2d (canvas w) = true -> readable (canvas w) ->
  readCanvas w = Ret (imageOf (canvas w)) w.
Proof.
  intros Hc [Hr|[Hw Hh]]; [congruence|].
  unfold readCanvas, getImageData. rewrite Hc. simpl.
  destruct (Z.eqb_spec (cwidth (canvas w)) 0); [contradiction|].
  destruct (Z.eqb_spec (cheight (canvas w)) 0); [contradiction|].
  reflexivity.
Qed.

Lemma bind_run {A B : Type} (m : M A) (k : A -> M B) (w w' : World) (a : A) :
  m w = Ret a w' -> bind m k w = k a w'.
Proof. intros H. unfold bind. rewrite H. reflexivity. Qed.

(** Runs the first action of a [bind] by an equation for it. *)
Ltac run_with H := rewrite (bind_run _ _ _ _ _ H).

Lemma sample_then {B : Type} (env : Env) (k : option FaceBox -> M B) (w : World) :
  (captureToCanvas env ;; box <- awaitDetectFaceBox env ;; k box) w =
  (box <- sample env ;; k box) w.
Proof.
  unfold sample, bind. rewrite capture_run.
  destruct (awaitDetectFaceBox env (afterCapture env w)); reflexivity.
Qed.



(** ** Blink *)

(** C10. When the first sample of [checkBlink] holds no box, the check
    returns false at once: its log grows by that one capture and that one
    detection, with no wait, no further capture and no second detection
    from which a change of box size could be taken. *)
Theorem checkBlink_without_first_box_returns_false
    (env : Env) (w w1 : World) :
  sample env w = Ret None w1 ->
  checkBlink env w = Ret false w1 /\
  log w1 = log w ++ [EvCapture; EvDetect] /\
  awaits w1 = S (S (awaits w)).
Proof.
  intros H.
  split.
  - unfold checkBlink. rewrite sample_then. unfold bind. rewrite H. reflexivity.
  - destruct (sample_run env w) as (o & _ & Hs). rewrite Hs in H.
    inversion H; subst.
    destruct (afterSample_log env w) as (Hl & Ha & _). auto.
Qed.

Lemma diffStep_fold (a b : ImageData) (ps : list (Z * Z)) (acc : Blink.Tally) :
  fold_left (fun acc p => Blink.diffStep a b (snd p) acc (fst p)) ps acc =
  {| Blink.total := Blink.total acc + Z.of_nat (List.length ps);
     Blink.changed := Blink.changed acc +
       Z.of_nat (List.length (filter (fun p => Blink.pixelChanged a b (fst p) (snd p)) ps)) |}.
Proof.
  revert acc. induction ps as [|p ps IH]; intros acc; simpl.
  - destruct acc; simpl. f_equal; lia.
  - rewrite IH. unfold Blink.diffStep at 1 2. simpl.
    destruct (Blink.pixelChanged a b (fst p) (snd p)); simpl; f_equal; lia.
Qed.

(** The test [d > 18] of [diffInRegion] at a pixel is that of the
    specification: the absolute differences of the three colour channels,
    averaged, exceed 18. *)
Lemma pixelChanged_spec (a b : ImageData) (p : Z * Z) :
  Blink.pixelChanged a b (fst p) (snd p) = Spec.differs a b p.
Proof.
  unfold Blink.pixelChanged, Blink.pixelDiff, Spec.differs, Spec.channelDifference,
    Spec.channel.
  replace (4 * (snd p * iwidth a + fst p) + 0) with ((snd p * iwidth a + fst p) * 4) by ring.
  replace (4 * (snd p * iwidth a + fst p) + 1) with ((snd p * iwidth a + fst p) * 4 + 1) by ring.
  replace (4 * (snd p * iwidth a + fst p) + 2) with ((snd p * iwidth a + fst p) * 4 + 2) by ring.
  reflexivity.
Qed.

(** Where both images hold the pixel, the test [d > 18] of
    [diffInRegion], made on the rounded average [(dr + dg + db) / 3], is
    the test of the exact average of the three absolute differences. *)
Theorem pixelChanged_as_computed
    (a b : ImageData) (px py : Z) (ra ga ba rb gb bb : Z) :
  Forall (fun v => 0 <= v <= 255) [ra; ga; ba; rb; gb; bb] ->
  let i := (py * iwidth a + px) * 4 in
  map (byteAt (idata a)) [i; i + 1; i + 2] = map JS.ofZ [ra; ga; ba] ->
  map (byteAt (idata b)) [i; i + 1; i + 2] = map JS.ofZ [rb; gb; bb] ->
  Blink.pixelChanged a b px py =
  JS.Qltb 18 (inject_Z (Z.abs (ra - rb) + Z.abs (ga - gb) + Z.abs (ba - bb)) / 3).
Proof.
  intros Hbytes i Ha Hb.
  pose proof (pixelChanged_spec a b (px, py)) as E. cbn [fst snd] in E. rewrite E. clear E.
  assert (Hi : forall k, 4 * (py * iwidth a + px) + k = i + k) by (intros k; unfold i; ring).
  apply differs_exact; [exact Hbytes| |]; unfold Spec.channel; cbn [fst snd map];
    rewrite !Hi, Z.add_0_r; assumption.
Qed.

(** [diffInRegion] over a rectangle is the fraction of its pixels that
    changed. *)
Lemma diffInRegion_fraction (a b : ImageData) (rx ry rw rh : Z) :
  Blink.diffInRegion a b rx ry rw rh =
  Spec.changedFraction a b (Spec.pixelsOf rx ry rw rh).
Proof.
  unfold Blink.diffInRegion, Blink.diffLoop.
  rewrite nested_fold.
  change (flat_map _ (zrange ry rh)) with (Spec.pixelsOf rx ry rw rh).
  rewrite diffStep_fold. simpl.
  rewrite (filter_ext _ _ (pixelChanged_spec a b)).
  unfold Spec.changedFraction.
  destruct (Spec.pixelsOf rx ry rw rh) as [|p ps] eqn:E; [reflexivity|].
  destruct (Z.eqb_spec (Z.of_nat (List.length (p :: ps))) 0) as [H|H]; [simpl in H; lia|].
  reflexivity.
Qed.

Lemma diffLoop_tally (a b : ImageData) (rx ry rw rh : Z) :
  let acc := Blink.diffLoop a b rx ry rw rh in
  Blink.total acc = Z.of_nat (List.length (Spec.pixelsOf rx ry rw rh)) /\
  0 <= Blink.changed acc <= Blink.total acc.
Proof.
  unfold Blink.diffLoop. rewrite nested_fold.
  change (flat_map _ (zrange ry rh)) with (Spec.pixelsOf rx ry rw rh).
  rewrite diffStep_fold. cbn [Blink.total Blink.changed].
  pose proof (filter_length_le (fun p => Blink.pixelChanged a b (fst p) (snd p))
                (Spec.pixelsOf rx ry rw rh)) as H.
  split; [lia|]. split; lia.
Qed.

(** The test that ends [checkBlink],
    [Math.max(score1, score2) > 0.06] with the scores
    [total === 0 ? 0 : changed / total] of [diffInRegion], gives in
    binary64 what it gives on the exact fractions, over a region of
    fewer than 2^50 pixels. *)
Lemma blinkVerdict_as_computed (a b c : ImageData) (rx ry rw rh : Z) :
  Z.of_nat (List.length (Spec.pixelsOf rx ry rw rh)) < 2 ^ 50 ->
  let score (t : Blink.Tally) :=
    if Blink.total t =? 0 then JS.ofZ 0
    else JS.div (JS.ofZ (Blink.changed t)) (JS.ofZ (Blink.total t)) in
  JS.gt (JS.max (score (Blink.diffLoop a b rx ry rw rh))
                (score (Blink.diffLoop b c rx ry rw rh)))
        (JS.lit (6 # 100))
  = JS.Qltb (6 # 100) (Qmax (Blink.diffInRegion a b rx ry rw rh)
                            (Blink.diffInRegion b c rx ry rw rh)).
Proof.
  intros Hsize score. unfold score, Blink.diffInRegion.
  destruct (diffLoop_tally a b rx ry rw rh) as [T1 C1].
  destruct (diffLoop_tally b c rx ry rw rh) as [T2 C2].
  apply blink_test_as_computed; lia.
Qed.



Lemma zeroish_absdiff (v : JS.num) : zeroish (JS.abs (JS.sub v v)).
Proof.
  destruct v as [| | |q]; simpl; auto.
  rewrite round_zero; [reflexivity|].
  unfold Qeq. simpl. lia.
Qed.

Lemma zeroish_not_above (d : JS.num) (n : Z) :
  0 <= n -> zeroish d -> JS.gt d (JS.ofZ n) = false.
Proof.
  intros Hn.
  destruct d as [| | |q]; simpl; auto; try contradiction.
  intros Hq. destruct (JS.Qltb (inject_Z n) q) eqn:E; [|reflexivity].
  apply Qltb_lt in E. rewrite Hq in E.
  exfalso. revert E. unfold Qlt. simpl. lia.
Qed.




Lemma afterPause_canvas (env : Env) (w : World) :
  canvas (afterPause env w) = captured env (now (afterWait env 140 w)) (canvas w).
Proof. reflexivity. Qed.

Lemma checkBlink_with_first_box (env : Env) (w w1 : World) (box : FaceBox) :
  sample env w = Ret (Some box) w1 ->
  ctx2d (canvas w1) = true /\
  checkBlink env w =
  Ret (Blink.blinkVerdict (Blink.computeEyeBand box)
         (imageOf (canvas w1))
         (imageOf (canvas (afterPause env w1)))
         (imageOf (canvas (afterPause env (afterPause env w1)))))
      (afterPause env (afterPause env w1)).
Proof.
  intros H.
  destruct (sample_run env w) as (o & Hd & Hs).
  rewrite Hs in H. inversion H; subst o w1. clear H.
  destruct (afterSample_log env w) as (_ & _ & Hc).
  assert (Hctx : ctx2d (canvas (afterSample env w)) = true).
  { rewrite Hc. eapply detectFaceBox_some_ctx. exact Hd. }
  split; [exact Hctx|].
  set (w1 := afterSample env w) in *.
  assert (Hr1 : readable (canvas w1)) by (rewrite Hc; apply captured_readable).
  assert (Hctx2 : ctx2d (canvas (afterPause env w1)) = true).
  { rewrite afterPause_canvas, captured_ctx2d. exact Hctx. }
  assert (Hr2 : readable (canvas (afterPause env w1))).
  { rewrite afterPause_canvas. apply captured_readable. }
  assert (Hctx3 : ctx2d (canvas (afterPause env (afterPause env w1))) = true).
  { rewrite afterPause_canvas, captured_ctx2d. exact Hctx2. }
  assert (Hr3 : readable (canvas (afterPause env (afterPause env w1)))).
  { rewrite afterPause_canvas. apply captured_readable. }
  unfold checkBlink. rewrite sample_then.
  run_with Hs.
  run_with (readCanvas_run w1 Hctx Hr1).
  run_with (wait_run env 140 w1).
  run_with (capture_run env (afterWait env 140 w1)).
  fold (afterPause env w1).
  run_with (readCanvas_run (afterPause env w1) Hctx2 Hr2).
  run_with (wait_run env 140 (afterPause env w1)).
  run_with (capture_run env (afterWait env 140 (afterPause env w1))).
  fold (afterPause env (afterPause env w1)).
  run_with (readCanvas_run (afterPause env (afterPause env w1)) Hctx3 Hr3).
  reflexivity.
Qed.


(** ** The sequence always returns *)

Lemma afterPause_extends (env : Env) (w : World) : extends w (afterPause env w).
Proof.
  eapply extends_trans; [apply (afterWait_extends env 140); lia|apply afterCapture_extends].
Qed.

Lemma checkMovement_returns (env : Env) (direction : Direction) (w : World) :
  returns (checkMovement env direction) w (fun _ w' => extends w w').
Proof.
  destruct (sample_run env w) as (o1 & _ & Hs1).
  destruct (sample_run env (afterWait env 700 (afterSample env w))) as (o2 & _ & Hs2).
  exists (movementVerdict direction o1 o2), (afterSample env (afterWait env 700 (afterSample env w))).
  split.
  - unfold checkMovement. rewrite sample_then.
    run_with Hs1.
    run_with (wait_run env 700 (afterSample env w)).
    rewrite sample_then.
    run_with Hs2. reflexivity.
  - eapply extends_trans; [apply afterSample_extends|].
    eapply extends_trans; [apply (afterWait_extends env 700); lia|apply afterSample_extends].
Qed.

Lemma checkBlink_returns (env : Env) (w : World) :
  returns (checkBlink env) w (fun _ w' => extends w w').
Proof.
  destruct (sample_run env w) as (o & _ & Hs).
  destruct o as [box|].
  - destruct (checkBlink_with_first_box env w _ box Hs) as [_ Hb].
    eexists. eexists. split; [exact Hb|].
    eapply extends_trans; [apply afterSample_extends|].
    eapply extends_trans; apply afterPause_extends.
  - exists false, (afterSample env w). split.
    + unfold checkBlink. rewrite sample_then.
      run_with Hs. reflexivity.
    + apply afterSample_extends.
Qed.

Lemma attempt_returns (env : Env) (ch : Challenge) (passed : bool) (w : World) :
  returns (attempt env ch passed) w (fun _ w' => extends w w').
Proof.
  unfold attempt.
  destruct ch.
  - apply returns_ret. apply extends_refl.
  - destruct (checkBlink_returns env w) as (b & w' & Hb & He).
    exists b, w'. split; [|exact He].
    run_with Hb. reflexivity.
  - destruct (checkMovement_returns env Left w) as (b & w' & Hb & He).
    exists b, w'. split; [|exact He].
    unfold bind at 1. unfold ret at 1.
    run_with Hb. reflexivity.
  - destruct (checkMovement_returns env Right w) as (b & w' & Hb & He).
    exists b, w'. split; [|exact He].
    unfold bind at 1. unfold ret at 1. unfold bind at 1. unfold ret at 1.
    run_with Hb. reflexivity.
Qed.

(** The per-challenge loop returns within its fuel: a failed turn moves
    the clock 300ms nearer the deadline. *)
Lemma challengeLoop_returns (env : Env) (ch : Challenge) (deadline : Z) :
  forall (fuel : nat) (passed : bool) (w : World),
    passed = true \/ deadline - now w <= 300 * Z.of_nat fuel ->
    returns (challengeLoop env fuel ch deadline passed) w (fun _ w' => extends w w').
Proof.
  induction fuel as [|fuel IH]; intros passed w Hinv.
  - exists passed, w. split; [|apply extends_refl].
    simpl. destruct passed; [reflexivity|].
    destruct Hinv as [Hinv|Hinv]; [discriminate|].
    destruct (Z.ltb_spec (now w) deadline); [lia|reflexivity].
  - unfold returns. simpl.
    destruct (negb passed && (now w <? deadline)) eqn:Hcond.
    2:{ exists passed, w. split; [reflexivity|apply extends_refl]. }
    apply andb_true_iff in Hcond. destruct Hcond as [Hp Hlt].
    apply negb_true_iff in Hp. subst passed.
    destruct Hinv as [Hinv|Hinv]; [discriminate|].
    destruct (attempt_returns env ch false w) as (p & w1 & Ha & He1).
    run_with Ha.
    destruct p; simpl.
    + unfold bind at 1. unfold ret at 1.
      destruct (IH true w1 (or_introl eq_refl)) as (b & w2 & Hl & He2).
      exists b, w2. split; [exact Hl|]. eapply extends_trans; eauto.
    + run_with (wait_run env 300 w1).
      assert (Hfuel : deadline - now (afterWait env 300 w1) <= 300 * Z.of_nat fuel).
      { pose proof (afterWait_later env 300 w1). destruct He1 as (Hn & _). lia. }
      destruct (IH false _ (or_intror Hfuel)) as (b & w2 & Hl & He2).
      exists b, w2. split; [exact Hl|].
      eapply extends_trans; [exact He1|].
      eapply extends_trans; [apply (afterWait_extends env 300); lia|exact He2].
Qed.

Lemma captured_again (env : Env) (t t0 : Z) (c : Canvas) :
  captured env t (captured env t0 c) = captured env t c.
Proof.
  unfold captured. destruct (ctx2d c) eqn:E; simpl; [reflexivity|].
  rewrite E. reflexivity.
Qed.

(** The loop of [waitForFacePresent] returns within its fuel, and returns
    false when no captured frame has a face detected in it. *)
Lemma facePresentLoop_returns (env : Env) (c0 : Canvas) (start maxMs : Z) :
  forall (fuel : nat) (w : World),
    maxMs - (now w - start) <= 200 * Z.of_nat fuel ->
    returns (facePresentLoop env fuel start maxMs) w
      (fun b w' =>
         extends w w' /\
         (start <= now w ->
          (forall t, captured env t (canvas w) = captured env t c0) ->
          noFaceWithin env c0 start maxMs ->
          b = false)).
Proof.
  induction fuel as [|fuel IH]; intros w Hinv.
  - exists false, w. split; [|split; [apply extends_refl|reflexivity]].
    simpl. destruct (Z.ltb_spec (now w - start) maxMs); [lia|reflexivity].
  - unfold returns. simpl.
    destruct (Z.ltb_spec (now w - start) maxMs) as [Hlt|Hge].
    2:{ exists false, w. split; [reflexivity|]. split; [apply extends_refl|reflexivity]. }
    rewrite sample_then.
    destruct (sample_run env w) as (o & Hd & Hs).
    run_with Hs.
    destruct o as [box|].
    + exists true, (afterSample env w). split; [reflexivity|].
      split; [apply afterSample_extends|].
      intros Hstart Hcan Hno.
      rewrite Hcan in Hd. rewrite Hno in Hd; [discriminate| lia |].
      destruct (afterCapture_extends env w) as (Hn & _). exact Hn.
    + run_with (wait_run env 200 (afterSample env w)).
      pose proof (afterSample_extends env w) as He1.
      pose proof (afterWait_later env 200 (afterSample env w)) as Hlater.
      pose proof (afterWait_extends env 200 (afterSample env w) ltac:(lia)) as He2.
      assert (Hfuel : maxMs - (now (afterWait env 200 (afterSample env w)) - start)
                      <= 200 * Z.of_nat fuel).
      { destruct He1 as (Hn & _). lia. }
      destruct (IH _ Hfuel) as (b & w2 & Hl & He3 & Hb).
      exists b, w2. split; [exact Hl|]. split.
      * eapply extends_trans; [exact He1|]. eapply extends_trans; eauto.
      * intros Hstart Hcan Hno. apply Hb; [|  |exact Hno].
        -- destruct He1 as (Hn & _). lia.
        -- intros t.
           destruct (afterSample_log env w) as (_ & _ & Hc).
           change (canvas (afterWait env 200 (afterSample env w)))
             with (canvas (afterSample env w)).
           rewrite Hc, captured_again. apply Hcan.
Qed.

Lemma facePresentFuel_enough (maxMs : Z) :
  maxMs <= 200 * Z.of_nat (facePresentFuel maxMs).
Proof.
  unfold facePresentFuel.
  destruct (Z_lt_le_dec (maxMs / 200 + 1) 0) as [H|H].
  - replace (Z.to_nat (maxMs / 200 + 1)) with 0%nat by lia.
    simpl. Z.div_mod_to_equations. lia.
  - rewrite Z2Nat.id by exact H. Z.div_mod_to_equations. lia.
Qed.

Lemma waitForFacePresent_returns (env : Env) (maxMs : Z) (w : World) :
  returns (waitForFacePresent env maxMs) w
    (fun b w' =>
       extends w w' /\
       (noFaceWithin env (canvas w) (now w) maxMs -> b = false)).
Proof.
  unfold returns.
  change (waitForFacePresent env maxMs w)
    with (facePresentLoop env (facePresentFuel maxMs) (now w) maxMs w).
  assert (Hfuel : maxMs - (now w - now w) <= 200 * Z.of_nat (facePresentFuel maxMs)).
  { pose proof (facePresentFuel_enough maxMs). lia. }
  destruct (facePresentLoop_returns env (canvas w) (now w) maxMs _ w Hfuel)
    as (b & w' & Hl & He & Hb).
  exists b, w'. split; [exact Hl|]. split; [exact He|].
  intros Hno. apply Hb; auto. lia.
Qed.

(** ** The shape of a result *)

Lemma onChallenge_run (c : Challenge) (w : World) :
  onChallenge c w = Ret tt (record (EvChallenge c) w).
Proof. reflexivity. Qed.

Lemma dateNow_run (w : World) : dateNow w = Ret (now w) w.
Proof. reflexivity. Qed.

Lemma challengeFuel_enough : 5000 <= 300 * Z.of_nat challengeFuel.
Proof. vm_compute. discriminate. Qed.

Lemma runChallenges_shape (env : Env) :
  forall (challenges : list Challenge) (steps0 : list Step) (w : World),
    returns (runChallenges env challenges steps0) w
      (fun r w' =>
         now w <= now w' /\
         ((r = {| alive := true; reason := None;
                  steps := steps0 ++ map passStep challenges |} /\
           announced (log w') = announced (log w) ++ challenges) \/
          (exists done c rest,
              challenges = done ++ c :: rest /\
              r = {| alive := false;
                     reason := Some (challengeFailedText (challengeName c));
                     steps := steps0 ++ map passStep done ++ [failStep c] |} /\
              announced (log w') = announced (log w) ++ done ++ [c]))).
Proof.
  induction challenges as [|ch rest IH]; intros steps0 w.
  - apply returns_ret. split; [lia|]. left. simpl. rewrite !app_nil_r. auto.
  - unfold returns. cbn [runChallenges].
    set (w1 := record (EvChallenge ch) w).
    assert (Hann : announced (log w1) = announced (log w) ++ [ch]).
    { unfold w1, record. simpl. rewrite announced_app. reflexivity. }
    run_with (onChallenge_run ch w). fold w1.
    run_with (dateNow_run w1).
    assert (Hfuel : false = true \/ now w1 + 5000 - now w1 <= 300 * Z.of_nat challengeFuel).
    { right. pose proof challengeFuel_enough. lia. }
    destruct (challengeLoop_returns env ch (now w1 + 5000) challengeFuel false w1 Hfuel)
      as (p & w2 & Hl & Hn & Ha & _).
    cbv beta. run_with Hl.
    destruct p; simpl.
    + destruct (IH (steps0 ++ [{| name := challengeName ch; passed := true |}]) w2)
        as (r & w3 & Hr & Hn3 & Hcase).
      exists r, w3. split; [exact Hr|]. split; [change (now w) with (now w1); lia|].
      destruct Hcase as [[-> Han]|(done & c & rest' & -> & -> & Han)].
      * left. split.
        -- rewrite <- app_assoc. reflexivity.
        -- rewrite Han, Ha, Hann, <- app_assoc. reflexivity.
      * right. exists (ch :: done), c, rest'. split; [reflexivity|]. split.
        -- simpl. rewrite <- app_assoc. reflexivity.
        -- rewrite Han, Ha, Hann, <- app_assoc. reflexivity.
    + exists {| alive := false;
                reason := Some (challengeFailedText (challengeName ch));
                steps := steps0 ++ [{| name := challengeName ch; passed := false |}] |}, w2.
      split; [reflexivity|]. split; [change (now w) with (now w1); lia|].
      right. exists [], ch, rest. split; [reflexivity|]. split; [reflexivity|].
      rewrite Ha, Hann. reflexivity.
Qed.

(** Every run returns a result of one of the three shapes; and when no
    frame of the first 5000ms has a face detected in it, the first. *)
Lemma runSequence_shape (env : Env) (challenges : list Challenge) (w : World) :
  returns (runSequence env challenges) w
    (fun r w' =>
       exists ann,
         announced (log w') = announced (log w) ++ ann /\
         RunShape challenges r ann /\
         (noFaceWithin env (canvas w) (now w) 5000 -> ann = [prepare])).
Proof.
  unfold returns, runSequence.
  set (w1 := record (EvChallenge prepare) w).
  assert (Hann : announced (log w1) = announced (log w) ++ [prepare]).
  { unfold w1, record. simpl. rewrite announced_app. reflexivity. }
  run_with (onChallenge_run prepare w). fold w1.
  destruct (waitForFacePresent_returns env 5000 w1) as (ready & w2 & Hw & (Hn & Ha & _) & Hno).
  run_with Hw.
  destruct ready; simpl.
  - destruct (runChallenges_shape env challenges
                [{| name := "prepare"; passed := true |}] w2)
      as (r & w3 & Hr & _ & Hcase).
    exists r, w3. split; [exact Hr|].
    destruct Hcase as [[-> Han]|(done & c & rest & -> & -> & Han)].
    + exists (prepare :: challenges). split; [|split].
      * rewrite Han, Ha, Hann, <- app_assoc. reflexivity.
      * apply AllPassed.
      * intros H. specialize (Hno H). discriminate.
    + exists (prepare :: done ++ [c]). split; [|split].
      * rewrite Han, Ha, Hann, <- app_assoc. reflexivity.
      * apply (ChallengeFailed _ done c rest). reflexivity.
      * intros H. specialize (Hno H). discriminate.
  - eexists. exists w2. split; [reflexivity|].
    exists [prepare]. split; [|split].
    + rewrite Ha, Hann. reflexivity.
    + apply GateFailed.
    + reflexivity.
Qed.

Lemma message_names_one_cause (c1 c2 : Spec.Cause) :
  Spec.message c1 = Spec.message c2 -> c1 = c2.
Proof.
  destruct c1 as [|n1], c2 as [|n2]; simpl; intros H;
    try reflexivity; try discriminate.
  unfold challengeFailedText in H. simpl in H. inversion H. reflexivity.
Qed.

Lemma passSteps_all_passed (cs : list Challenge) :
  Forall (fun s => passed s = true) (map passStep cs) /\
  map passed (map passStep cs) = repeat true (List.length cs) /\
  map name (map passStep cs) = map challengeName cs.
Proof.
  induction cs as [|c cs (IH1 & IH2 & IH3)]; simpl; [auto|].
  rewrite IH2, IH3. auto.
Qed.

Lemma firstn_through (A : Type) (done : list A) (c : A) (rest : list A) :
  firstn (S (List.length done)) (done ++ c :: rest) = done ++ [c].
Proof. induction done as [|d done IH]; simpl; [reflexivity|]. f_equal. exact IH. Qed.

Lemma nth_error_through (A : Type) (done : list A) (c : A) (rest : list A) :
  nth_error (done ++ c :: rest) (List.length done) = Some c.
Proof. induction done as [|d done IH]; simpl; auto. Qed.

Lemma stage_of_challenge (done : list Challenge) (c : Challenge) (rest : list Challenge) :
  nth_error (Spec.stages (done ++ c :: rest)) (S (List.length done)) =
  Some (challengeName c, Spec.challenge_failed (challengeName c)).
Proof.
  unfold Spec.stages. simpl. rewrite map_app. simpl.
  rewrite <- (length_map (fun c0 => (challengeName c0, Spec.challenge_failed (challengeName c0))) done).
  apply nth_error_through.
Qed.

Lemma stage_names (done : list Challenge) (c : Challenge) (rest : list Challenge) :
  map fst (firstn (S (S (List.length done))) (Spec.stages (done ++ c :: rest))) =
  "prepare"%string :: map challengeName done ++ [challengeName c].
Proof.
  unfold Spec.stages. rewrite firstn_cons. cbn [map fst]. f_equal.
  induction done as [|d done IH]; [reflexivity|].
  cbn [List.length app map]. rewrite firstn_cons. cbn [map fst]. f_equal. exact IH.
Qed.

(** What the three shapes say of [alive], [reason] and [steps]. *)
Lemma shape_verdict (challenges : list Challenge) (r : LivenessResult) (ann : list Challenge) :
  RunShape challenges r ann ->
  (alive r = true <-> Forall (fun s => passed s = true) (steps r)) /\
  (reason r <> None <-> alive r = false) /\
  (alive r = false ->
   exists before s stage,
     steps r = before ++ [s] /\
     Forall (fun s => passed s = true) before /\
     passed s = false /\
     nth_error (Spec.stages challenges) (List.length before) = Some stage /\
     name s = fst stage /\
     reason r = Some (Spec.message (snd stage)) /\
     (forall c, reason r = Some (Spec.message c) -> c = snd stage)).
Proof.
  intros [ | |done c rest Hsplit]; simpl.
  - split; [|split].
    + split; [discriminate|]. intros H. inversion H; subst. discriminate.
    + split; [reflexivity|discriminate].
    + intros _.
      exists [], {| name := "prepare"; passed := false |},
             ("prepare"%string, Spec.no_face_detected).
      repeat split; auto.
      intros c H. inversion H. symmetry. apply message_names_one_cause. auto.
  - split; [|split].
    + split; [|reflexivity]. intros _. constructor; [reflexivity|].
      apply passSteps_all_passed.
    + split; [congruence|discriminate].
    + discriminate.
  - split; [|split].
    + split; [discriminate|]. intros H. inversion H as [|s l _ Hl]; subst.
      apply Forall_app in Hl. destruct Hl as [_ Hl]. inversion Hl; subst. discriminate.
    + split; [reflexivity|discriminate].
    + intros _.
      exists ({| name := "prepare"; passed := true |} :: map passStep done), (failStep c),
             (challengeName c, Spec.challenge_failed (challengeName c)).
      repeat split.
      * constructor; [reflexivity|]. apply passSteps_all_passed.
      * simpl. rewrite length_map, Hsplit. apply stage_of_challenge.
      * intros c' H. inversion H. symmetry. apply message_names_one_cause. auto.
Qed.

(** ** SequenceController *)

(** C1. Every run of [runLivenessSequence] returns a result in which
    [alive] is true exactly when every step passed and [reason] is
    present exactly when [alive] is false; the steps of such a result are
    passed ones followed by one that failed, and [reason] is the message
    of that step's cause and of no other. *)
Theorem run_alive_iff_every_step_passed (env : Env) (w : World) :
  exists r w',
    runLivenessSequence env w = Ret r w' /\
    (alive r = true <-> Forall (fun s => passed s = true) (steps r)) /\
    (reason r <> None <-> alive r = false) /\
    (alive r = false ->
     exists before s stage,
       steps r = before ++ [s] /\
       Forall (fun s => passed s = true) before /\
       passed s = false /\
       nth_error (Spec.stages [blink; turn_left; turn_right]) (List.length before)
         = Some stage /\
       name s = fst stage /\
       reason r = Some (Spec.message (snd stage)) /\
       (forall c, reason r = Some (Spec.message c) -> c = snd stage)).
Proof.
  destruct (runSequence_shape env [blink; turn_left; turn_right] w)
    as (r & w' & Hr & ann & _ & Hshape & _).
  exists r, w'. split; [exact Hr|].
  exact (shape_verdict _ _ _ Hshape).
Qed.

(** C2. Every run over a list of challenges returns, and a run that
    fails at step [k] returns [k] steps, the first [k - 1] passed and the
    last failed, named after the first [k] stages, with the message of
    the [k]-th stage's cause as [reason]. *)
Theorem failing_run_returns_k_steps (env : Env) (challenges : list Challenge) (w : World) :
  exists r w',
    runSequence env challenges w = Ret r w' /\
    forall k,
      failsAtStep w w' r k ->
      (1 <= k <= S (List.length challenges))%nat /\
      List.length (steps r) = k /\
      map passed (steps r) = repeat true (k - 1) ++ [false] /\
      map name (steps r) = map fst (firstn k (Spec.stages challenges)) /\
      announced (log w') = announced (log w) ++ firstn k (prepare :: challenges) /\
      exists stage,
        nth_error (Spec.stages challenges) (k - 1) = Some stage /\
        reason r = Some (Spec.message (snd stage)).
Proof.
  destruct (runSequence_shape env challenges w) as (r & w' & Hr & ann & Hann & Hshape & _).
  exists r, w'. split; [exact Hr|].
  intros k [Hdead Hk].
  rewrite Hann, length_app in Hk.
  assert (Hlen : List.length ann = k) by lia. clear Hk.
  rewrite Hann. clear Hann Hr.
  destruct Hshape as [ | |done c rest Hsplit]; simpl in *.
  - subst k. simpl. repeat split; auto; try lia.
    eexists. split; reflexivity.
  - discriminate.
  - rewrite length_app in Hlen. simpl in Hlen.
    assert (Hk : k = S (S (List.length done))) by lia. clear Hlen. subst k.
    destruct (passSteps_all_passed done) as (_ & Hflags & Hnames).
    subst challenges.
    repeat split.
    + lia.
    + rewrite length_app. simpl. lia.
    + rewrite length_app, length_map. simpl. lia.
    + rewrite map_app, Hflags. reflexivity.
    + rewrite map_app, Hnames. symmetry. apply stage_names.
    + f_equal. symmetry. apply (firstn_through _ (prepare :: done) c rest).
    + exists (challengeName c, Spec.challenge_failed (challengeName c)).
      split; [|reflexivity].
      apply (stage_of_challenge done c rest).
Qed.

(** C3, as the code has it.  When no frame captured in the 5000ms from
    the start of the prepare gate has a face detected in it,
    [runLivenessSequence] returns not alive, with the single step
    "prepare" failed and the face-not-detected text as [reason]. *)
Theorem no_face_within_5000ms_fails_prepare (env : Env) (w : World) :
  noFaceWithin env (canvas w) (now w) 5000 ->
  exists w',
    runLivenessSequence env w =
    Ret {| alive := false;
           reason := Some noFaceText;
           steps := [{| name := "prepare"; passed := false |}] |} w'.
Proof.
  intros Hno.
  destruct (runSequence_shape env [blink; turn_left; turn_right] w)
    as (r & w' & Hr & ann & _ & Hshape & Hann).
  specialize (Hann Hno). subst ann.
  exists w'. unfold runLivenessSequence. rewrite Hr. f_equal.
  inversion Hshape as [ | |done c rest Hsplit Hres Hann]; [reflexivity|].
  destruct done; discriminate.
Qed.

(* ================================================================== *)
(** * The properties at sample inputs *)
(* ================================================================== *)

Lemma validFrameb_sound (w h : Z) (image : list Z) :
  validFrameb w h image = true -> validFrame w h image.
Proof.
  unfold validFrameb, validFrame. rewrite !andb_true_iff.
  intros [[[Hw Hh] Hl] Hb].
  repeat split; try lia.
  apply Forall_forall. intros v Hv.
  rewrite forallb_forall in Hb. specialize (Hb v Hv). lia.
Defined.

(** The call on the chequerboard canvas reaches the fallback and finds
    a face, so the central variance there is above the threshold. *)
Lemma fallback_face_iff_central_variance_above_threshold_witness :
  reachesFallback false DetectorThrows Sample.faceCanvas /\
  JS.gt (Spec.centralVariance 10 10 Sample.faceBitmap)
        (JS.mul (Spec.meanOfEdgeVariances 10 10 Sample.faceBitmap)
                (JS.lit (115 # 100))) = true.
Proof.
  assert (H : reachesFallback false DetectorThrows Sample.faceCanvas).
  { split; reflexivity. }
  split; [exact H|].
  destruct (fallback_face_iff_central_variance_above_threshold 10 10 Sample.faceBitmap)
    as (_ & _ & Hcall).
  destruct (Hcall false DetectorThrows Sample.faceCanvas H eq_refl eq_refl eq_refl)
    as [Hiff _].
  apply Hiff. eexists. vm_compute. reflexivity.
Defined.

(** The chequerboard frame is well formed and a face is found in it, in
    a box inside the frame. *)
Lemma fallback_box_inside_frame_witness :
  validFrame 10 10 Sample.faceBitmap /\
  exists box,
    detectFaceBox false DetectorThrows Sample.faceCanvas = Ok (Some box) /\
    insideFrame 10 10 box.
Proof.
  assert (H : validFrame 10 10 Sample.faceBitmap).
  { apply validFrameb_sound. vm_compute. reflexivity. }
  split; [exact H|].
  destruct (fallback_box_inside_frame 10 10 Sample.faceBitmap H) as [_ Hcall].
  destruct (Hcall false DetectorThrows Sample.faceCanvas) as [Hnone|Hsome].
  - split; reflexivity.
  - reflexivity.
  - reflexivity.
  - reflexivity.
  - lia.
  - lia.
  - vm_compute in Hnone. discriminate Hnone.
  - exact Hsome.
Defined.

Example fallback_finds_chequerboard :
  Heuristic.fallback 10 10 Sample.faceBitmap =
  Some {| x := 2; y := 2; width := 6; height := 6 |}.
Proof. vm_compute. reflexivity. Qed.

Example fallback_flat_frame_none : Heuristic.fallback 10 10 Sample.flatBitmap = None.
Proof. vm_compute. reflexivity. Qed.

(** A call whose platform detector throws and a call without platform
    detector agree on the chequerboard canvas. *)
Lemma fallback_deterministic_witness :
  detectFaceBox true DetectorThrows Sample.faceCanvas =
  detectFaceBox false (DetectorFaces []) Sample.faceCanvas.
Proof.
  apply (fallback_deterministic true false DetectorThrows (DetectorFaces [])
           Sample.faceCanvas Sample.faceCanvas).
  - split; reflexivity.
  - split; reflexivity.
  - reflexivity.
  - reflexivity.
  - reflexivity.
Defined.

(** The video without a frame, on a canvas that was of size zero before:
    the capture makes it 640 by 480, nothing is drawn, and the detection
    returns none. *)
Lemma detectFaceBox_never_raises_in_a_run_witness :
  (exists o, sample MoreSamples.envNoFrame (Sample.start Sample.zeroCanvas)
             = Ret o (afterSample MoreSamples.envNoFrame (Sample.start Sample.zeroCanvas))) /\
  cwidth (captured MoreSamples.envNoFrame 0 Sample.zeroCanvas) = 640 /\
  cheight (captured MoreSamples.envNoFrame 0 Sample.zeroCanvas) = 480 /\
  detectFaceBox false DetectorThrows
    (captured MoreSamples.envNoFrame 0 Sample.zeroCanvas) = Ok None.
Proof.
  destruct (detectFaceBox_never_raises_in_a_run
              MoreSamples.envNoFrame (Sample.start Sample.zeroCanvas) false DetectorThrows)
    as (Hs & _ & _ & Hfall).
  split; [exact Hs|].
  destruct Hfall as (Hw & Hh & _ & _ & _ & Hblank).
  - reflexivity.
  - left. reflexivity.
  - split; [exact Hw|]. split; [exact Hh|].
    apply Hblank. apply Forall_forall. intros v Hv.
    exact (repeat_spec _ _ _ Hv).
Defined.

(** Called on its own, outside a run, [detectFaceBox] can raise: on a
    canvas of size zero, and on one whose bitmap is not origin-clean,
    [getImageData] throws outside the [try] block. *)
Example detectFaceBox_raises_outside_a_run :
  detectFaceBox false DetectorThrows Sample.zeroCanvas = Raise IndexSizeError /\
  detectFaceBoxOn false true (DetectorFaces []) Sample.zeroCanvas = Raise IndexSizeError /\
  detectFaceBoxOn false false DetectorThrows Sample.faceCanvas = Raise SecurityError /\
  detectFaceBoxOn true true DetectorThrows Sample.flatCanvas = Ok None.
Proof. repeat split; vm_compute; reflexivity. Qed.


Example turn_right_fails_on_the_same_pair :
  movementVerdict Left (Some (Sample.boxAt 100)) (Some (Sample.boxAt 80)) = true /\
  movementVerdict Right (Some (Sample.boxAt 100)) (Some (Sample.boxAt 80)) = false /\
  movementVerdict Right (Some (Sample.boxAt 100)) (Some (Sample.boxAt 110)) = false /\
  movementVerdict Right (Some (Sample.boxAt 100)) (Some (Sample.boxAt 111)) = true /\
  movementVerdict Left (Some (Sample.boxAt 100)) (Some (Sample.boxAt 90)) = false /\
  movementVerdict Left (Some (Sample.boxAt 100)) (Some (Sample.boxAt 89)) = true.
Proof. vm_compute. repeat split. Qed.

(** On the black video the first sample of [checkBlink] holds no box. *)
Lemma checkBlink_without_first_box_returns_false_witness :
  checkBlink Sample.envNoFace (Sample.start Sample.flatCanvas) =
  Ret false (afterSample Sample.envNoFace (Sample.start Sample.flatCanvas)).
Proof.
  refine (proj1 (checkBlink_without_first_box_returns_false
                   Sample.envNoFace (Sample.start Sample.flatCanvas)
                   (afterSample Sample.envNoFace (Sample.start Sample.flatCanvas)) _)).
  vm_compute. reflexivity.
Defined.

(** Where the older [checkBlink] goes on to a second sample, this one
    has returned. *)
Example checkBlinkBySize_takes_the_second_sample :
  exists w2,
    checkBlinkBySize Sample.envNoFace (Sample.start Sample.flatCanvas) = Ret false w2 /\
    log w2 = [EvCapture; EvDetect; EvWait 200; EvCapture; EvDetect].
Proof. eexists. split; vm_compute; reflexivity. Qed.

Example checkBlink_sees_the_exchange :
  exists w', checkBlink Sample.envBlink (Sample.start Sample.flatCanvas) = Ret true w'.
Proof. eexists. vm_compute. reflexivity. Qed.

Lemma noFaceWithin_black_video :
  noFaceWithin Sample.envNoFace Sample.flatCanvas 0 5000.
Proof. intros t t' _ _. vm_compute. reflexivity. Defined.

Lemma black_video_run :
  exists w',
    runLivenessSequence Sample.envNoFace (Sample.start Sample.flatCanvas) =
    Ret {| alive := false;
           reason := Some noFaceText;
           steps := [{| name := "prepare"; passed := false |}] |} w'.
Proof. eexists. vm_compute. reflexivity. Qed.

(** On the black video the run fails at the prepare gate. *)
Lemma no_face_within_5000ms_fails_prepare_witness :
  exists w',
    runLivenessSequence Sample.envNoFace (Sample.start Sample.flatCanvas) =
    Ret {| alive := false;
           reason := Some noFaceText;
           steps := [{| name := "prepare"; passed := false |}] |} w'.
Proof.
  apply (no_face_within_5000ms_fails_prepare
           Sample.envNoFace (Sample.start Sample.flatCanvas)).
  exact noFaceWithin_black_video.
Defined.

(** C3 fails as it is worded: on the black video no face is detected
    within 5000ms, and the reason returned is not "no_face_detected". *)
Lemma no_face_reason_is_not_the_cause_name :
  noFaceWithin Sample.envNoFace Sample.flatCanvas 0 5000 /\
  forall w',
    runLivenessSequence Sample.envNoFace (Sample.start Sample.flatCanvas) <>
    Ret {| alive := false;
           reason := Some "no_face_detected"%string;
           steps := [{| name := "prepare"; passed := false |}] |} w'.
Proof.
  split; [exact noFaceWithin_black_video|].
  intros w' H.
  destruct black_video_run as [w0 Hw0].
  rewrite Hw0 in H. inversion H.
Qed.


(** On that video the run passes the gate and the blink, and fails at
    its third step, turn-left. *)
Lemma failing_run_returns_k_steps_witness :
  exists r w',
    runSequence Sample.envBlink [blink; turn_left; turn_right]
      (Sample.start Sample.flatCanvas) = Ret r w' /\
    failsAtStep (Sample.start Sample.flatCanvas) w' r 3 /\
    map passed (steps r) = [true; true; false] /\
    map name (steps r) = ["prepare"; "blink"; "turn-left"]%string /\
    reason r = Some "Falha no desafio: turn-left"%string.
Proof.
  destruct (failing_run_returns_k_steps
              Sample.envBlink [blink; turn_left; turn_right]
              (Sample.start Sample.flatCanvas))
    as (r & w' & Hrun & Hk).
  exists r, w'. split; [exact Hrun|].
  assert (Hfail : failsAtStep (Sample.start Sample.flatCanvas) w' r 3).
  { vm_compute in Hrun. inversion Hrun; subst r w'. split; vm_compute; reflexivity. }
  split; [exact Hfail|].
  destruct (Hk 3%nat Hfail) as (_ & _ & Hflags & Hnames & _ & stage & Hstage & Hreason).
  split; [exact Hflags|]. split; [exact Hnames|].
  rewrite Hreason. simpl in Hstage. inversion Hstage. reflexivity.
Defined.

(** On the black video the run is not alive and its reason is the
    message of the prepare gate. *)
Lemma run_alive_iff_every_step_passed_witness :
  exists r w',
    runLivenessSequence Sample.envNoFace (Sample.start Sample.flatCanvas) = Ret r w' /\
    alive r = false /\
    reason r = Some (Spec.message Spec.no_face_detected).
Proof.
  destruct (run_alive_iff_every_step_passed
              Sample.envNoFace (Sample.start Sample.flatCanvas))
    as (r & w' & Hrun & _ & _ & Hdead).
  exists r, w'. split; [exact Hrun|].
  assert (Ha : alive r = false).
  { vm_compute in Hrun. inversion Hrun. reflexivity. }
  split; [exact Ha|].
  destruct (Hdead Ha) as (before & s & stage & Hsteps & _ & _ & Hstage & _ & Hreason & _).
  rewrite Hreason. f_equal. f_equal.
  assert (Hlen : List.length before = 0%nat).
  { vm_compute in Hrun. inversion Hrun as [[Hr Hw]]. subst r. simpl in Hsteps.
    destruct before as [|b before]; [reflexivity|].
    destruct before; discriminate. }
  rewrite Hlen in Hstage. simpl in Hstage. inversion Hstage. reflexivity.
Defined.

(* ================================================================== *)
(** * Further properties of the code *)
(* ================================================================== *)

(** ** FaceLocator: errors and edges *)


Lemma add_NaN_r (a : JS.num) : JS.add a JS.NaN = JS.NaN.
Proof. destruct a; reflexivity. Qed.

Lemma total_with_NaN (l : list JS.num) : In JS.NaN l -> Spec.total l = JS.NaN.
Proof.
  unfold Spec.total.
  assert (Hnan : forall l', fold_left JS.add l' JS.NaN = JS.NaN).
  { induction l' as [|v l' IH]; simpl; auto. }
  generalize (JS.ofZ 0).
  induction l as [|v l IH]; intros acc Hin; [contradiction|].
  simpl. destruct Hin as [->|Hin].
  - rewrite add_NaN_r. apply Hnan.
  - apply IH. exact Hin.
Qed.

Lemma gt_NaN_r (a : JS.num) : JS.gt a JS.NaN = false.
Proof. destruct a; reflexivity. Qed.

Lemma fallback_none_when_an_edge_is_empty (frameWidth frameHeight : Z) (image : list Z) :
  In JS.NaN (Spec.edgeVariances frameWidth frameHeight image) ->
  Heuristic.fallback frameWidth frameHeight image = None.
Proof.
  intros Hin.
  destruct (Heuristic.fallback frameWidth frameHeight image) as [box|] eqn:F; [|reflexivity].
  exfalso. destruct (fallback_some_inv _ _ _ _ F) as [_ Hgt].
  unfold Spec.meanOfEdgeVariances, Spec.meanOf in Hgt.
  rewrite (total_with_NaN _ Hin) in Hgt. simpl in Hgt.
  rewrite gt_NaN_r in Hgt. discriminate.
Qed.

(** In a frame less than 5 pixels wide or high an edge strip is empty,
    its variance is NaN, and the fallback finds no face whatever the
    pixels are. *)
Theorem fallback_none_on_frames_under_5_pixels
    (frameWidth frameHeight : Z) (image : list Z) :
  frameWidth < 5 \/ frameHeight < 5 ->
  Heuristic.fallback frameWidth frameHeight image = None.
Proof.
  intros Hsmall. apply fallback_none_when_an_edge_is_empty.
  unfold Spec.edgeVariances. cbv zeta. cbn [map].
  destruct Hsmall as [Hw|Hh].
  - left. unfold Spec.luminances.
    rewrite pixelsOf_empty; [reflexivity|].
    left. unfold Spec.share, Qfloor. simpl.
    Z.div_mod_to_equations. lia.
  - right. right. left. unfold Spec.luminances.
    rewrite pixelsOf_empty; [reflexivity|].
    right. unfold Spec.share, Qfloor. simpl.
    Z.div_mod_to_equations. lia.
Qed.

(** The box the fallback returns is the central rectangle of the frame:
    two frames of one size in which it finds a face give the same box,
    whatever their pixels. *)
Theorem fallback_box_depends_on_size_only
    (frameWidth frameHeight : Z) (image1 image2 : list Z) (box1 box2 : FaceBox) :
  Heuristic.fallback frameWidth frameHeight image1 = Some box1 ->
  Heuristic.fallback frameWidth frameHeight image2 = Some box2 ->
  box1 = box2 /\
  x box1 = inject_Z (Heuristic.floorMul frameWidth (2 # 10)) /\
  y box1 = inject_Z (Heuristic.floorMul frameHeight (2 # 10)) /\
  width box1 = inject_Z (Heuristic.floorMul frameWidth (6 # 10)) /\
  height box1 = inject_Z (Heuristic.floorMul frameHeight (6 # 10)).
Proof.
  intros F1 F2.
  destruct (fallback_some_inv _ _ _ _ F1) as [-> _].
  destruct (fallback_some_inv _ _ _ _ F2) as [-> _].
  repeat split.
Qed.

(** A detection made right after a capture raises nothing, whatever the
    canvas was before (of size zero, say), the video shows and the
    platform detector does; without a 2D context it finds none. *)
Theorem detection_after_capture_never_raises (env : Env) (w : World) :
  exists o,
    sample env w = Ret o (afterSample env w) /\
    canvas (afterSample env w) = captured env (now w) (canvas w) /\
    readable (canvas (afterSample env w)) /\
    (ctx2d (canvas w) = false -> o = None).
Proof.
  destruct (sample_run env w) as (o & Hd & Hs).
  exists o.
  destruct (afterSample_log env w) as (_ & _ & Hc).
  split; [exact Hs|]. split; [exact Hc|]. split.
  - rewrite Hc. apply captured_readable.
  - intros Hctx. unfold detectAt, detectFaceBox, detectFaceBoxOn in Hd.
    rewrite captured_ctx2d, Hctx in Hd. simpl in Hd. inversion Hd. reflexivity.
Qed.

(** ** Turn left, turn right: what the fallback can and cannot do *)

Lemma checkMovement_run (env : Env) (direction : Direction) (w : World) :
  exists o1 o2,
    sample env w = Ret o1 (afterSample env w) /\
    sample env (afterWait env 700 (afterSample env w)) =
      Ret o2 (afterSample env (afterWait env 700 (afterSample env w))) /\
    checkMovement env direction w =
      Ret (movementVerdict direction o1 o2)
          (afterSample env (afterWait env 700 (afterSample env w))).
Proof.
  destruct (sample_run env w) as (o1 & _ & Hs1).
  destruct (sample_run env (afterWait env 700 (afterSample env w))) as (o2 & _ & Hs2).
  exists o1, o2. split; [exact Hs1|]. split; [exact Hs2|].
  unfold checkMovement. rewrite sample_then.
  run_with Hs1.
  run_with (wait_run env 700 (afterSample env w)).
  rewrite sample_then.
  run_with Hs2. reflexivity.
Qed.

(** [checkMovement] takes both samples whatever the first one holds: it
    always logs a capture and a detection, a wait of 700ms, a capture and
    a detection, and returns 700ms or more after it was called. *)
Theorem checkMovement_always_takes_both_samples
    (env : Env) (direction : Direction) (w : World) :
  exists b w',
    checkMovement env direction w = Ret b w' /\
    log w' = log w ++ [EvCapture; EvDetect; EvWait 700; EvCapture; EvDetect] /\
    now w + 700 <= now w'.
Proof.
  destruct (checkMovement_run env direction w) as (o1 & o2 & _ & _ & Hrun).
  eexists. eexists. split; [exact Hrun|]. split.
  - unfold afterSample, afterDetect, afterCapture, afterWait, resume, record. simpl.
    rewrite <- !app_assoc. reflexivity.
  - pose proof (afterSample_extends env w) as (H1 & _).
    pose proof (afterWait_later env 700 (afterSample env w)) as H2.
    pose proof (afterSample_extends env (afterWait env 700 (afterSample env w))) as (H3 & _).
    lia.
Qed.

(** What a sample holds when there is no platform detector: the central
    rectangle of the captured frame, or nothing. *)
Lemma sample_without_detector (env : Env) (w : World) (o : option FaceBox) :
  faceDetector env = false ->
  sample env w = Ret o (afterSample env w) ->
  o = None \/
  o = Some {| x := inject_Z (Heuristic.cx (orDefault (videoWidth (video env (now w))) 640));
              y := inject_Z (Heuristic.cy (orDefault (videoHeight (video env (now w))) 480));
              width := inject_Z (Heuristic.cw (orDefault (videoWidth (video env (now w))) 640));
              height := inject_Z (Heuristic.ch (orDefault (videoHeight (video env (now w))) 480)) |}.
Proof.
  intros Hfd Hs.
  destruct (sample_run env w) as (o' & Hd & Hs').
  rewrite Hs' in Hs. inversion Hs; subst o'. clear Hs.
  destruct o as [box|]; [right|left; reflexivity].
  unfold detectAt in Hd.
  pose proof (detectFaceBox_some_ctx _ _ _ _ Hd) as Hctx.
  rewrite captured_ctx2d in Hctx.
  rewrite detectFaceBox_falls_through in Hd;
    [|apply captured_readable|rewrite captured_ctx2d; exact Hctx|left; exact Hfd].
  injection Hd as Hf.
  rewrite (captured_with_context env (now w) (canvas w) Hctx) in Hf. simpl in Hf.
  destruct (fallback_some_inv _ _ _ _ Hf) as [Hbox _]. rewrite Hbox. reflexivity.
Qed.

Lemma movementVerdict_same_x (direction : Direction) (b1 b2 : FaceBox) :
  (x b1 == x b2)%Q -> movementVerdict direction (Some b1) (Some b2) = false.
Proof.
  intros Hx. unfold movementVerdict.
  assert (Hdx : JS.sub (JS.Fin (x b2)) (JS.Fin (x b1)) = JS.Fin 0).
  { unfold JS.sub. simpl. apply round_zero. rewrite Hx. ring. }
  rewrite Hdx. destruct direction; reflexivity.
Qed.

Lemma checkMovement_false_at_steady_width
    (env : Env) (direction : Direction) (w : World) :
  faceDetector env = false ->
  videoWidth (video env (now w)) =
  videoWidth (video env (now (afterWait env 700 (afterSample env w)))) ->
  exists w', checkMovement env direction w = Ret false w'.
Proof.
  intros Hfd Hwidth.
  destruct (checkMovement_run env direction w) as (o1 & o2 & Hs1 & Hs2 & Hrun).
  eexists. rewrite Hrun. f_equal.
  destruct (sample_without_detector env _ _ Hfd Hs1) as [-> | ->]; [reflexivity|].
  destruct (sample_without_detector env _ _ Hfd Hs2) as [-> | ->]; [reflexivity|].
  apply movementVerdict_same_x. simpl. rewrite Hwidth. reflexivity.
Qed.

(** Without a platform detector the box is the central rectangle of the
    frame, so a turn is only seen as a change of the video width: when
    the video is as wide at the second capture as at the first,
    [checkMovement] returns false in either direction. *)
Theorem checkMovement_fails_on_fallback_at_steady_width
    (env : Env) (direction : Direction) (w : World) :
  faceDetector env = false ->
  videoWidth (video env (now w)) =
  videoWidth (video env (now (afterWait env 700 (afterSample env w)))) ->
  exists w', checkMovement env direction w = Ret false w'.
Proof. apply checkMovement_false_at_steady_width. Qed.

(** ** The prepare gate: how long and how often it polls *)

Lemma captures_app (l1 l2 : list Event) :
  captures (l1 ++ l2) = (captures l1 + captures l2)%nat.
Proof.
  induction l1 as [|e l1 IH]; simpl; [reflexivity|].
  destruct e; simpl; rewrite IH; reflexivity.
Qed.

Lemma afterSample_captures (env : Env) (w : World) :
  captures (log (afterSample env w)) = S (captures (log w)).
Proof.
  destruct (afterSample_log env w) as (Hl & _ & _).
  rewrite Hl, captures_app. simpl. lia.
Qed.

Lemma afterWait_captures (env : Env) (ms : Z) (w : World) :
  captures (log (afterWait env ms w)) = captures (log w).
Proof.
  unfold afterWait, resume, record. simpl. rewrite captures_app. simpl. lia.
Qed.

Lemma facePresentLoop_polls (env : Env) (start maxMs : Z) :
  forall (fuel : nat) (w : World),
    maxMs - (now w - start) <= 200 * Z.of_nat fuel ->
    returns (facePresentLoop env fuel start maxMs) w
      (fun b w' =>
         (b = false -> maxMs <= now w' - start) /\
         exists polls,
           captures (log w') = (captures (log w) + polls)%nat /\
           (polls = 0%nat \/ 200 * (Z.of_nat polls - 1) < maxMs - (now w - start)) /\
           (b = true -> (1 <= polls)%nat)).
Proof.
  induction fuel as [|fuel IH]; intros w Hinv.
  - exists false, w. split.
    + simpl. destruct (Z.ltb_spec (now w - start) maxMs); [lia|reflexivity].
    + split; [intros _; simpl in Hinv; lia|].
      exists 0%nat. split; [lia|]. split; [left; reflexivity|discriminate].
  - unfold returns. cbn [facePresentLoop].
    destruct (Z.ltb_spec (now w - start) maxMs) as [Hlt|Hge].
    2:{ exists false, w. split; [reflexivity|]. split; [intros _; lia|].
        exists 0%nat. split; [lia|]. split; [left; reflexivity|discriminate]. }
    rewrite sample_then.
    destruct (sample_run env w) as (o & _ & Hs).
    run_with Hs.
    destruct o as [box|].
    + exists true, (afterSample env w). split; [reflexivity|].
      split; [discriminate|].
      exists 1%nat. split; [rewrite afterSample_captures; lia|].
      split; [right; simpl; lia|intros _; lia].
    + run_with (wait_run env 200 (afterSample env w)).
      pose proof (afterSample_extends env w) as (He1 & _).
      pose proof (afterWait_later env 200 (afterSample env w)) as Hlater.
      assert (Hfuel : maxMs - (now (afterWait env 200 (afterSample env w)) - start)
                      <= 200 * Z.of_nat fuel) by lia.
      destruct (IH _ Hfuel) as (b & w2 & Hl & Hfalse & polls & Hcap & Hbound & Htrue).
      exists b, w2. split; [exact Hl|]. split; [exact Hfalse|].
      exists (S polls). split.
      * rewrite Hcap, afterWait_captures, afterSample_captures. lia.
      * split; [right; destruct Hbound as [-> | Hbound]; lia|intros _; lia].
Qed.

Lemma waitForFacePresent_polls (env : Env) (maxMs : Z) (w : World) :
  exists b w' polls,
    waitForFacePresent env maxMs w = Ret b w' /\
    captures (log w') = (captures (log w) + polls)%nat /\
    (b = false -> now w + maxMs <= now w') /\
    (b = true -> (1 <= polls)%nat) /\
    (polls = 0%nat \/ 200 * (Z.of_nat polls - 1) < maxMs).
Proof.
  change (waitForFacePresent env maxMs w)
    with (facePresentLoop env (facePresentFuel maxMs) (now w) maxMs w).
  assert (Hfuel : maxMs - (now w - now w) <= 200 * Z.of_nat (facePresentFuel maxMs)).
  { pose proof (facePresentFuel_enough maxMs). lia. }
  destruct (facePresentLoop_polls env (now w) maxMs _ w Hfuel)
    as (b & w' & Hl & Hfalse & polls & Hcap & Hbound & Htrue).
  exists b, w', polls. split; [exact Hl|]. split; [exact Hcap|].
  split; [intros Hb; specialize (Hfalse Hb); lia|]. split; [exact Htrue|].
  destruct Hbound as [Hz|Hb]; [left; exact Hz|right; lia].
Qed.

(** [waitForFacePresent(maxMs)] always returns.  It returns false only
    once [maxMs] milliseconds have gone by; it returns true only after a
    capture; the captures it makes are 200ms apart at least and begin
    within the window, so there are at most [maxMs / 200] of them,
    rounded up, and none when [maxMs] is not positive. *)
Theorem waitForFacePresent_polls_within_window (env : Env) (maxMs : Z) (w : World) :
  exists b w' polls,
    waitForFacePresent env maxMs w = Ret b w' /\
    captures (log w') = (captures (log w) + polls)%nat /\
    (b = false -> now w + maxMs <= now w') /\
    (b = true -> (1 <= polls)%nat) /\
    (polls = 0%nat \/ 200 * (Z.of_nat polls - 1) < maxMs) /\
    (maxMs <= 0 -> b = false /\ polls = 0%nat).
Proof.
  destruct (waitForFacePresent_polls env maxMs w)
    as (b & w' & polls & Hrun & Hcap & Hfalse & Htrue & Hbound).
  exists b, w', polls. repeat split; auto.
  - destruct b; [|reflexivity].
    specialize (Htrue eq_refl). destruct Hbound as [Hz|Hb]; lia.
  - destruct Hbound as [Hz|Hb]; lia.
Qed.

(** ** How long a run lasts, and when it cannot pass *)

Lemma afterPause_later (env : Env) (w : World) : now w + 140 <= now (afterPause env w).
Proof.
  unfold afterPause.
  pose proof (afterWait_later env 140 w) as H1.
  pose proof (afterCapture_extends env (afterWait env 140 w)) as (H2 & _). lia.
Qed.

Lemma attempt_timing (env : Env) (ch : Challenge) (w : World) :
  returns (attempt env ch false) w
    (fun p w' => extends w w' /\ (p = true -> now w + minDuration ch <= now w')).
Proof.
  unfold attempt. destruct ch.
  - apply returns_ret. split; [apply extends_refl|discriminate].
  - destruct (sample_run env w) as (o & _ & Hs). destruct o as [box|].
    + destruct (checkBlink_with_first_box env w _ box Hs) as [_ Hb].
      eexists. eexists. split; [run_with Hb; reflexivity|].
      split.
      * eapply extends_trans; [apply afterSample_extends|].
        eapply extends_trans; apply afterPause_extends.
      * intros _. simpl.
        pose proof (afterSample_extends env w) as (H1 & _).
        pose proof (afterPause_later env (afterSample env w)).
        pose proof (afterPause_later env (afterPause env (afterSample env w))). lia.
    + exists false, (afterSample env w). split.
      * assert (Hb : checkBlink env w = Ret false (afterSample env w)).
        { unfold checkBlink. rewrite sample_then. run_with Hs. reflexivity. }
        run_with Hb. reflexivity.
      * split; [apply afterSample_extends|discriminate].
  - destruct (checkMovement_run env Left w) as (o1 & o2 & _ & _ & Hrun).
    eexists. eexists. split.
    + unfold bind at 1. unfold ret at 1. run_with Hrun. reflexivity.
    + pose proof (afterSample_extends env w) as He1.
      pose proof (afterWait_extends env 700 (afterSample env w) ltac:(lia)) as He2.
      pose proof (afterSample_extends env (afterWait env 700 (afterSample env w))) as He3.
      pose proof (afterWait_later env 700 (afterSample env w)) as Hl.
      split; [eapply extends_trans; [exact He1|eapply extends_trans; eauto]|].
      intros _. simpl. destruct He1 as (H1 & _). destruct He3 as (H3 & _). lia.
  - destruct (checkMovement_run env Right w) as (o1 & o2 & _ & _ & Hrun).
    eexists. eexists. split.
    + unfold bind at 1. unfold ret at 1. unfold bind at 1. unfold ret at 1.
      run_with Hrun. reflexivity.
    + pose proof (afterSample_extends env w) as He1.
      pose proof (afterWait_extends env 700 (afterSample env w) ltac:(lia)) as He2.
      pose proof (afterSample_extends env (afterWait env 700 (afterSample env w))) as He3.
      pose proof (afterWait_later env 700 (afterSample env w)) as Hl.
      split; [eapply extends_trans; [exact He1|eapply extends_trans; eauto]|].
      intros _. simpl. destruct He1 as (H1 & _). destruct He3 as (H3 & _). lia.
Qed.

(** The per-challenge loop returns false only at or after its deadline,
    true only after an evaluator has had its waits, and false whenever
    no turn can pass. *)
Lemma challengeLoop_timing (env : Env) (ch : Challenge) (deadline : Z) :
  forall (fuel : nat) (passed : bool) (w : World),
    passed = true \/ deadline - now w <= 300 * Z.of_nat fuel ->
    returns (challengeLoop env fuel ch deadline passed) w
      (fun b w' =>
         now w <= now w' /\
         (passed = true -> b = true) /\
         (b = false -> deadline <= now w') /\
         (passed = false -> b = true -> now w + minDuration ch <= now w') /\
         (neverPasses env ch -> passed = false -> b = false)).
Proof.
  induction fuel as [|fuel IH]; intros passed w Hinv.
  - exists passed, w. split.
    + simpl. destruct passed; [reflexivity|].
      destruct Hinv as [Hinv|Hinv]; [discriminate|].
      destruct (Z.ltb_spec (now w) deadline); [simpl in Hinv; lia|reflexivity].
    + split; [lia|]. split; [auto|]. split.
      * intros ->. destruct Hinv as [Hinv|Hinv]; [discriminate|]. simpl in Hinv. lia.
      * split; [congruence|auto].
  - unfold returns. cbn [challengeLoop].
    destruct (negb passed && (now w <? deadline)) eqn:Hcond.
    2:{ exists passed, w. split; [reflexivity|]. split; [lia|]. split; [auto|].
        split.
        - intros ->. simpl in Hcond.
          destruct (Z.ltb_spec (now w) deadline); [discriminate|lia].
        - split; [congruence|auto]. }
    apply andb_true_iff in Hcond. destruct Hcond as [Hp Hlt].
    apply negb_true_iff in Hp. subst passed.
    destruct Hinv as [Hinv|Hinv]; [discriminate|].
    destruct (attempt_timing env ch w) as (p & w1 & Ha & He1 & Hmin).
    run_with Ha.
    destruct p; cbn [negb].
    + unfold bind at 1. unfold ret at 1.
      destruct (IH true w1 (or_introl eq_refl)) as (b & w2 & Hl & Hn & Htrue & _).
      exists b, w2. split; [exact Hl|].
      rewrite (Htrue eq_refl).
      destruct He1 as (Hn1 & _).
      split; [lia|]. split; [discriminate|]. split; [discriminate|].
      split.
      * intros _ _. specialize (Hmin eq_refl). lia.
      * intros Hnever _. exfalso.
        specialize (Hnever w true w1 Ha). discriminate.
    + run_with (wait_run env 300 w1).
      pose proof (afterWait_later env 300 w1) as Hlater.
      destruct He1 as (Hn1 & _).
      assert (Hfuel : deadline - now (afterWait env 300 w1) <= 300 * Z.of_nat fuel) by lia.
      destruct (IH false _ (or_intror Hfuel)) as (b & w2 & Hl & Hn & _ & Hdead & Hdur & Hnp).
      exists b, w2. split; [exact Hl|].
      split; [lia|]. split; [discriminate|]. split; [exact Hdead|].
      split.
      * intros _ Hb. specialize (Hdur eq_refl Hb). lia.
      * intros Hnever _. apply Hnp; auto.
Qed.

Lemma runChallenges_timing (env : Env) :
  forall (challenges : list Challenge) (steps0 : list Step) (w : World),
    returns (runChallenges env challenges steps0) w
      (fun r w' =>
         (alive r = false -> now w + 5000 <= now w') /\
         (alive r = true -> now w + minTotal challenges <= now w') /\
         (forall ch, In ch challenges -> neverPasses env ch -> alive r = false) /\
         (List.length (steps r) <= List.length steps0 + List.length challenges)%nat /\
         (forall ch pre post, challenges = pre ++ ch :: post -> neverPasses env ch ->
            (List.length (steps r) <= List.length steps0 + S (List.length pre))%nat)).
Proof.
  induction challenges as [|ch rest IH]; intros steps0 w.
  - apply returns_ret. simpl. split; [discriminate|]. split; [lia|].
    split; [intros ch []|]. split; [lia|].
    intros ch pre post H. destruct pre; discriminate.
  - unfold returns. cbn [runChallenges].
    set (w1 := record (EvChallenge ch) w).
    run_with (onChallenge_run ch w). fold w1.
    run_with (dateNow_run w1).
    assert (Hfuel : false = true \/ now w1 + 5000 - now w1 <= 300 * Z.of_nat challengeFuel).
    { right. pose proof challengeFuel_enough. lia. }
    destruct (challengeLoop_timing env ch (now w1 + 5000) challengeFuel false w1 Hfuel)
      as (p & w2 & Hl & Hn & _ & Hdead & Hdur & Hnp).
    cbv beta. run_with Hl.
    change (now w1) with (now w) in *.
    destruct p; cbn [negb].
    + destruct (IH (steps0 ++ [{| name := challengeName ch; passed := true |}]) w2)
        as (r & w3 & Hr & Hfalse & Htrue & Hnever & Hlen & Hpre).
      exists r, w3. split; [exact Hr|].
      specialize (Hdur eq_refl eq_refl).
      rewrite length_app in Hlen, Hpre. simpl in Hlen, Hpre.
      split; [intros Ha; specialize (Hfalse Ha); lia|].
      split; [intros Ha; specialize (Htrue Ha); simpl; lia|].
      split.
      * intros ch' [<-|Hin] Hnv; [|eauto].
        specialize (Hnp Hnv eq_refl). discriminate.
      * split; [simpl; lia|].
        intros ch' pre post Hsplit Hnv.
        destruct pre as [|c pre]; simpl in Hsplit; inversion Hsplit; subst.
        -- specialize (Hnp Hnv eq_refl). discriminate.
        -- specialize (Hpre ch' pre post eq_refl Hnv). simpl. lia.
    + eexists. exists w2. split; [reflexivity|]. simpl.
      split; [intros _; specialize (Hdead eq_refl); lia|].
      split; [discriminate|]. split; [auto|].
      rewrite length_app. simpl.
      split; [lia|]. intros ch' pre post _ _. lia.
Qed.

Lemma runSequence_timing (env : Env) (challenges : list Challenge) (w : World) :
  returns (runSequence env challenges) w
    (fun r w' =>
       (alive r = false -> now w + 5000 <= now w') /\
       (alive r = true -> now w + minTotal challenges <= now w') /\
       (forall ch, In ch challenges -> neverPasses env ch -> alive r = false) /\
       (forall ch pre post, challenges = pre ++ ch :: post -> neverPasses env ch ->
          (List.length (steps r) <= S (S (List.length pre)))%nat)).
Proof.
  unfold returns, runSequence.
  set (w1 := record (EvChallenge prepare) w).
  run_with (onChallenge_run prepare w). fold w1.
  destruct (waitForFacePresent_polls env 5000 w1)
    as (ready & w2 & polls & Hw & _ & Hfalse & _ & _).
  run_with Hw.
  change (now w1) with (now w) in *.
  destruct ready; cbn [negb].
  - destruct (runChallenges_timing env challenges
                ([] ++ [{| name := "prepare"; passed := true |}]) w2)
      as (r & w3 & Hr & Hf & Ht & Hnever & _ & Hpre).
    exists r, w3. split; [exact Hr|].
    assert (Hn : now w <= now w2).
    { destruct (waitForFacePresent_returns env 5000 w1) as (b' & w2' & Hw' & (Hn' & _) & _).
      rewrite Hw in Hw'. inversion Hw'; subst. exact Hn'. }
    split; [intros Ha; specialize (Hf Ha); lia|].
    split; [intros Ha; specialize (Ht Ha); lia|].
    split; [exact Hnever|].
    intros ch pre post Hsplit Hnv. specialize (Hpre ch pre post Hsplit Hnv).
    simpl in Hpre. lia.
  - eexists. exists w2. split; [reflexivity|]. simpl.
    split; [intros _; specialize (Hfalse eq_refl); lia|].
    split; [discriminate|]. split; [auto|].
    intros. lia.
Qed.

(** A run that is not alive has lasted 5000ms at least: the gate or a
    challenge gave up at its deadline.  A run that is alive has lasted at
    least the waits of its evaluators, 1680ms for the blink and the two
    turns. *)
Theorem run_lasts_at_least (env : Env) (w : World) :
  exists r w',
    runLivenessSequence env w = Ret r w' /\
    (alive r = false -> now w + 5000 <= now w') /\
    (alive r = true -> now w + 1680 <= now w').
Proof.
  destruct (runSequence_timing env [blink; turn_left; turn_right] w)
    as (r & w' & Hr & Hfalse & Htrue & _).
  exists r, w'. split; [exact Hr|]. split; [exact Hfalse|].
  intros Ha. specialize (Htrue Ha). simpl in Htrue. lia.
Qed.

Lemma turn_never_passes_at_steady_width (env : Env) :
  faceDetector env = false ->
  (forall t t', videoWidth (video env t) = videoWidth (video env t')) ->
  neverPasses env turn_left.
Proof.
  intros Hfd Hsteady w p w' Ha.
  destruct (checkMovement_false_at_steady_width env Left w Hfd (Hsteady _ _)) as [w0 Hm].
  unfold attempt in Ha.
  unfold bind at 1 in Ha. unfold ret at 1 in Ha.
  rewrite (bind_run _ _ _ _ _ Hm) in Ha.
  inversion Ha. reflexivity.
Qed.

(** Without a platform detector, and with a video whose width does not
    change, no run is alive: turn-left cannot pass on the fallback, so
    the run fails there or before, with three steps at most. *)
Theorem run_never_alive_on_fallback_at_steady_width (env : Env) (w : World) :
  faceDetector env = false ->
  (forall t t', videoWidth (video env t) = videoWidth (video env t')) ->
  exists r w',
    runLivenessSequence env w = Ret r w' /\
    alive r = false /\
    (List.length (steps r) <= 3)%nat.
Proof.
  intros Hfd Hsteady.
  pose proof (turn_never_passes_at_steady_width env Hfd Hsteady) as Hnever.
  destruct (runSequence_timing env [blink; turn_left; turn_right] w)
    as (r & w' & Hr & _ & _ & Hdead & Hlen).
  exists r, w'. split; [exact Hr|]. split.
  - apply (Hdead turn_left); [simpl; auto|exact Hnever].
  - apply (Hlen turn_left [blink] [turn_right] eq_refl Hnever).
Qed.

(** ** Steps and announcements *)

Lemma Forall_removelast (A : Type) (P : A -> Prop) (l : list A) :
  Forall P l -> Forall P (removelast l).
Proof.
  induction 1 as [|a l Ha Hl IH]; simpl; [constructor|].
  destruct l; [constructor|]. constructor; assumption.
Qed.

(** Every run logs one step per challenge it announced, under the same
    names and in the same order; the challenges announced are the first
    of the gate and the configured list; every step but the last passed;
    and a run that is alive has announced them all. *)
Theorem steps_mirror_announcements (env : Env) (challenges : list Challenge) (w : World) :
  exists r w' ann,
    runSequence env challenges w = Ret r w' /\
    announced (log w') = announced (log w) ++ ann /\
    map name (steps r) = map challengeName ann /\
    ann = firstn (List.length (steps r)) (prepare :: challenges) /\
    Forall (fun s => passed s = true) (removelast (steps r)) /\
    (alive r = true -> ann = prepare :: challenges).
Proof.
  destruct (runSequence_shape env challenges w) as (r & w' & Hr & ann & Hann & Hshape & _).
  exists r, w', ann. split; [exact Hr|]. split; [exact Hann|].
  destruct Hshape as [ | |done c rest Hsplit]; cbn [steps alive].
  - repeat split; auto. discriminate.
  - destruct (passSteps_all_passed challenges) as (Hall & _ & Hnames).
    split; [cbn [map name]; rewrite Hnames; reflexivity|].
    split; [cbn [List.length]; rewrite length_map, firstn_cons, firstn_all; reflexivity|].
    split; [|reflexivity].
    apply Forall_removelast. constructor; [reflexivity|exact Hall].
  - destruct (passSteps_all_passed done) as (Hall & _ & Hnames).
    split.
    + cbn [map name]. rewrite !map_app, Hnames. reflexivity.
    + split.
      * cbn [List.length]. rewrite length_app, length_map. cbn [List.length].
        rewrite Hsplit, firstn_cons. f_equal.
        replace (List.length done + 1)%nat with (S (List.length done)) by lia.
        symmetry. apply firstn_through.
      * split; [|discriminate].
        change ({| name := "prepare"; passed := true |} :: map passStep done ++ [failStep c])
          with (({| name := "prepare"; passed := true |} :: map passStep done) ++ [failStep c]).
        rewrite removelast_last. constructor; [reflexivity|exact Hall].
Qed.

(** ** The eye band and the pixel difference *)

Lemma Qfloor_nonneg (q : Q) : (0 <= q)%Q -> 0 <= Qfloor q.
Proof. intros H. apply (Qfloor_resp_le 0 q H). Qed.

(** [Math.max(0, n)] for an integer [n]. *)
Lemma max_zero_int (n : Z) : JS.max (JS.ofZ 0) (JS.Fin (inject_Z n)) = JS.ofZ (Z.max 0 n).
Proof.
  unfold JS.max, JS.ofZ, JS.gt.
  destruct (JS.Qltb (inject_Z 0) (inject_Z n)) eqn:E.
  - apply Qltb_lt in E. rewrite <- Zlt_Qlt in E. rewrite Z.max_r by lia. reflexivity.
  - assert (H : ~ (inject_Z 0 < inject_Z n)%Q).
    { intros H. apply Qltb_lt in H. congruence. }
    rewrite <- Zlt_Qlt in H. rewrite Z.max_l by lia. reflexivity.
Qed.

(** The eye band of a box that lies in a frame (of a height below 2^53)
    lies in the frame too: its columns are columns of the box, and its
    rows begin at a row that is a number, no higher than the top of the
    box, and end no lower than its bottom. *)
Theorem eye_band_inside_box_and_frame (frameWidth frameHeight : Z) (box : FaceBox) :
  insideFrame frameWidth frameHeight box ->
  frameHeight < 2 ^ 53 ->
  let band := Blink.computeEyeBand box in
  0 <= Blink.ex band /\ 0 <= Blink.ew band /\
  Blink.ex band + Blink.ew band <= frameWidth /\
  (inject_Z (Blink.ex band) <= x box)%Q /\
  (inject_Z (Blink.ex band + Blink.ew band) <= x box + width box)%Q /\
  0 <= Blink.eh band /\
  exists row,
    Blink.ey band = JS.ofZ row /\
    Qfloor (y box) <= row /\
    row + Blink.eh band <= Qceiling (y box + height box) /\
    row + Blink.eh band <= frameHeight.
Proof.
  intros (Hw & Hh & Hx & Hy & Hxw & Hyh) Hbound. cbv zeta.
  unfold Blink.computeEyeBand. cbn [Blink.ex Blink.ey Blink.ew Blink.eh].
  assert (Hh4 : (0 <= height box * (25 # 100))%Q) by lra.
  pose proof (Qfloor_nonneg _ Hx) as Fx.
  pose proof (Qfloor_nonneg (width box) ltac:(lra)) as Fw.
  pose proof (Qfloor_nonneg _ Hy) as Fy.
  pose proof (Qfloor_nonneg _ Hh4) as Fh.
  rewrite (Z.max_r 0 (Qfloor (x box))) by assumption.
  pose proof (Qfloor_le (x box)) as Lx.
  pose proof (Qfloor_le (width box)) as Lw.
  pose proof (Qfloor_le (y box)) as Ly.
  pose proof (Qfloor_le (height box * (25 # 100))) as Lh.
  pose proof (Qle_ceiling (y box + height box)) as Uc.
  assert (Hcols : (inject_Z (Qfloor (x box) + Qfloor (width box)) <= inject_Z frameWidth)%Q).
  { rewrite inject_Z_plus. lra. }
  rewrite <- Zle_Qle in Hcols.
  assert (Hceil : Qceiling (y box + height box) <= frameHeight).
  { pose proof (Qceiling_resp_le _ _ Hyh) as H. rewrite Qceiling_Z in H. exact H. }
  split; [exact Fx|]. split; [exact Fw|]. split; [exact Hcols|].
  split; [exact Lx|]. split; [rewrite inject_Z_plus; lra|]. split; [exact Fh|].
  set (k := Qfloor (height box * (25 # 100))) in *.
  set (top := Qceiling (y box + height box)) in *.
  destruct (round_between (y box + height box * (25 # 100)) (Qfloor (y box)) (top - 3 * k))
    as (r & Hr & Rlo & Rhi).
  - exact Fy.
  - lra.
  - assert (E : (inject_Z (top - 3 * k) == inject_Z top - 3 * inject_Z k)%Q).
    { unfold Z.sub. rewrite inject_Z_plus, inject_Z_opp, inject_Z_mult.
      change (inject_Z 3) with 3%Q. ring. }
    rewrite E. lra.
  - lia.
  - unfold JS.add. rewrite Hr. cbn [JS.floor].
    rewrite max_zero_int.
    exists (Z.max 0 (Qfloor r)). split; [reflexivity|].
    pose proof (Qfloor_resp_le _ _ Rlo) as F1. rewrite Qfloor_Z in F1.
    pose proof (Qfloor_resp_le _ _ Rhi) as F2. rewrite Qfloor_Z in F2.
    lia.
Qed.


Lemma changedFraction_bounds (a b : ImageData) (pixels : list (Z * Z)) :
  (0 <= Spec.changedFraction a b pixels <= 1)%Q.
Proof.
  unfold Spec.changedFraction.
  destruct pixels as [|p ps]; [split; discriminate|].
  pose proof (filter_length_le (Spec.differs a b) (p :: ps)) as Hle.
  set (c := List.length (filter (Spec.differs a b) (p :: ps))) in *.
  set (t := List.length (p :: ps)) in *.
  assert (Ht : (0 < t)%nat) by (unfold t; simpl; lia).
  assert (Htq : (0 < inject_Z (Z.of_nat t))%Q).
  { change 0%Q with (inject_Z 0). rewrite <- Zlt_Qlt. lia. }
  assert (Hcq : (0 <= inject_Z (Z.of_nat c))%Q).
  { change 0%Q with (inject_Z 0). rewrite <- Zle_Qle. lia. }
  assert (Hct : (inject_Z (Z.of_nat c) <= inject_Z (Z.of_nat t))%Q).
  { rewrite <- Zle_Qle. lia. }
  split.
  - apply Qle_shift_div_l; [exact Htq|]. lra.
  - apply Qle_shift_div_r; [exact Htq|]. lra.
Qed.

(** [diffInRegion] is a fraction: between 0 and 1, and 0 for a rectangle
    without pixels. *)
Theorem diffInRegion_between_0_and_1 (a b : ImageData) (rx ry rw rh : Z) :
  (0 <= Blink.diffInRegion a b rx ry rw rh <= 1)%Q /\
  (rw <= 0 \/ rh <= 0 -> Blink.diffInRegion a b rx ry rw rh = 0%Q).
Proof.
  rewrite diffInRegion_fraction. split; [apply changedFraction_bounds|].
  intros Hempty.
  rewrite pixelsOf_empty by exact Hempty. reflexivity.
Qed.

Lemma Qminus_swap (p q : Q) : (q + - p)%Q = (- (p + - q))%Q.
Proof.
  destruct p as [pn pd], q as [qn qd]. unfold Qplus, Qopp. simpl.
  f_equal; [ring|apply Pos.mul_comm].
Qed.

Lemma abs_neg (a : JS.num) : JS.abs (JS.neg a) = JS.abs a.
Proof.
  destruct a as [| | |[n d]]; try reflexivity.
  simpl. unfold Qabs, Qopp. simpl. rewrite Z.abs_opp. reflexivity.
Qed.

(** Rounding is symmetric about zero. *)
Lemma abs_round_opp (d : Q) : JS.abs (JS.round (- d)) = JS.abs (JS.round d).
Proof.
  destruct d as [[|n|n] den]; unfold JS.round; simpl; [reflexivity| |].
  - apply abs_neg.
  - symmetry. apply abs_neg.
Qed.

Lemma absdiff_sym (u v : JS.num) : JS.abs (JS.sub u v) = JS.abs (JS.sub v u).
Proof.
  destruct u as [| | |p], v as [| | |q]; try reflexivity.
  unfold JS.sub, JS.neg, JS.add.
  rewrite (Qminus_swap p q). symmetry. apply abs_round_opp.
Qed.

Lemma pixelChanged_sym (a b : ImageData) (px py : Z) :
  iwidth a = iwidth b ->
  Blink.pixelChanged a b px py = Blink.pixelChanged b a px py.
Proof.
  intros Hw. unfold Blink.pixelChanged, Blink.pixelDiff. rewrite Hw.
  rewrite (absdiff_sym (byteAt (idata a) _) (byteAt (idata b) _)).
  rewrite (absdiff_sym (byteAt (idata a) _) (byteAt (idata b) _)).
  rewrite (absdiff_sym (byteAt (idata a) _) (byteAt (idata b) _)).
  reflexivity.
Qed.

Lemma differs_sym (a b : ImageData) (p : Z * Z) :
  iwidth a = iwidth b -> Spec.differs a b p = Spec.differs b a p.
Proof.
  intros Hw. rewrite <- !pixelChanged_spec. apply pixelChanged_sym. exact Hw.
Qed.

(** Between two images of one width, [diffInRegion] does not depend on
    which is given first. *)
Theorem diffInRegion_symmetric (a b : ImageData) (rx ry rw rh : Z) :
  iwidth a = iwidth b ->
  Blink.diffInRegion a b rx ry rw rh = Blink.diffInRegion b a rx ry rw rh.
Proof.
  intros Hw. rewrite !diffInRegion_fraction.
  unfold Spec.changedFraction.
  rewrite (filter_ext _ (Spec.differs b a) (fun p => differs_sym a b p Hw)).
  reflexivity.
Qed.

Lemma diffInBand_empty (band : Blink.EyeBand) (a b : ImageData) :
  Blink.ew band <= 0 \/ Blink.eh band <= 0 ->
  Blink.diffInBand a b band = 0%Q.
Proof.
  intros Hempty. unfold Blink.diffInBand.
  destruct (Blink.ey band); try reflexivity.
  rewrite diffInRegion_fraction, pixelsOf_empty by exact Hempty. reflexivity.
Qed.

Lemma blinkVerdict_empty_band (band : Blink.EyeBand) (a b c : ImageData) :
  Blink.ew band <= 0 \/ Blink.eh band <= 0 ->
  Blink.blinkVerdict band a b c = false.
Proof.
  intros Hempty. unfold Blink.blinkVerdict.
  rewrite !diffInBand_empty by exact Hempty. reflexivity.
Qed.

(** A box less than 4 pixels high, or less than 1 wide, has an eye band
    without pixels: with such a box in its first sample [checkBlink]
    returns false, whatever the three images show. *)
Theorem checkBlink_fails_on_a_box_too_small
    (env : Env) (w w1 : World) (box : FaceBox) :
  sample env w = Ret (Some box) w1 ->
  (height box < 4 # 1)%Q \/ (width box < 1)%Q ->
  exists w', checkBlink env w = Ret false w'.
Proof.
  intros Hs Hsmall.
  destruct (checkBlink_with_first_box env w w1 box Hs) as [_ Hb].
  eexists. rewrite Hb. f_equal.
  apply blinkVerdict_empty_band.
  unfold Blink.computeEyeBand. cbn [Blink.ew Blink.eh].
  destruct Hsmall as [Hh|Hw]; [right|left].
  - pose proof (Qfloor_le (height box * (25 # 100))) as L.
    assert (H1 : (inject_Z (Qfloor (height box * (25 # 100))) < inject_Z 1)%Q).
    { change (inject_Z 1) with 1%Q. lra. }
    rewrite <- Zlt_Qlt in H1. lia.
  - pose proof (Qfloor_le (width box)) as L.
    assert (H1 : (inject_Z (Qfloor (width box)) < inject_Z 1)%Q).
    { change (inject_Z 1) with 1%Q. lra. }
    rewrite <- Zlt_Qlt in H1. lia.
Qed.

(** ** The older blink check, by the size of the box *)

Lemma checkBlinkBySize_run (env : Env) (w : World) :
  exists o1 o2,
    sample env w = Ret o1 (afterSample env w) /\
    sample env (afterWait env 200 (afterSample env w)) =
      Ret o2 (afterSample env (afterWait env 200 (afterSample env w))) /\
    checkBlinkBySize env w =
      Ret (sizeVerdict o1 o2) (afterSample env (afterWait env 200 (afterSample env w))).
Proof.
  destruct (sample_run env w) as (o1 & _ & Hs1).
  destruct (sample_run env (afterWait env 200 (afterSample env w))) as (o2 & _ & Hs2).
  exists o1, o2. split; [exact Hs1|]. split; [exact Hs2|].
  unfold checkBlinkBySize. rewrite sample_then.
  run_with Hs1.
  run_with (wait_run env 200 (afterSample env w)).
  rewrite sample_then.
  run_with Hs2. reflexivity.
Qed.

Lemma sizeVerdict_true_iff (o1 o2 : option FaceBox) :
  sizeVerdict o1 o2 = true <->
  exists a b, o1 = Some a /\ o2 = Some b /\
    let da := JS.add (JS.abs (JS.sub (JS.Fin (height a)) (JS.Fin (height b))))
                     (JS.abs (JS.sub (JS.Fin (width a)) (JS.Fin (width b)))) in
    JS.gt da (JS.ofZ 6) = true.
Proof.
  unfold sizeVerdict. split.
  - destruct o1 as [a|]; [|discriminate]. destruct o2 as [b|]; [|discriminate].
    intros H. exists a, b. repeat split. exact H.
  - intros (a & b & -> & -> & H). exact H.
Qed.

(** The older [checkBlink] takes two samples 200ms apart and returns
    true exactly when both hold a box and [da], the sum of the absolute
    differences of the heights and of the widths of the two boxes as
    binary64 computes it, is above 6; a [da] of exactly 6 or a missing
    box gives false. *)
Theorem checkBlinkBySize_true_iff_box_size_changed
    (env : Env) (w w1 w2 : World) (o1 o2 : option FaceBox) :
  sample env w = Ret o1 w1 ->
  (wait env 200 ;; sample env) w1 = Ret o2 w2 ->
  exists v,
    checkBlinkBySize env w = Ret v w2 /\
    (v = true <->
     exists a b, o1 = Some a /\ o2 = Some b /\
       let da := JS.add (JS.abs (JS.sub (JS.Fin (height a)) (JS.Fin (height b))))
                        (JS.abs (JS.sub (JS.Fin (width a)) (JS.Fin (width b)))) in
       JS.gt da (JS.ofZ 6) = true) /\
    (o1 = None \/ o2 = None -> v = false) /\
    (forall a b, o1 = Some a -> o2 = Some b ->
       let da := JS.add (JS.abs (JS.sub (JS.Fin (height a)) (JS.Fin (height b))))
                        (JS.abs (JS.sub (JS.Fin (width a)) (JS.Fin (width b)))) in
       JS.eqb da (JS.ofZ 6) = true -> v = false).
Proof.
  intros H1 H2. exists (sizeVerdict o1 o2). split; [|split; [|split]].
  - destruct (checkBlinkBySize_run env w) as (p1 & p2 & Hs1 & Hs2 & Hrun).
    rewrite Hs1 in H1. inversion H1; subst p1 w1. clear H1.
    rewrite (bind_run _ _ _ _ _ (wait_run env 200 (afterSample env w))) in H2.
    rewrite Hs2 in H2. inversion H2; subst p2 w2. exact Hrun.
  - apply sizeVerdict_true_iff.
  - intros [-> | ->]; unfold sizeVerdict; [reflexivity|].
    destruct o1; reflexivity.
  - intros a b -> -> da Hsum.
    unfold sizeVerdict. fold da. apply gt_eqb_false. exact Hsum.
Qed.

Lemma sizeVerdict_same_size (a b : FaceBox) :
  height a = height b -> width a = width b ->
  sizeVerdict (Some a) (Some b) = false.
Proof.
  intros Hh Hw. unfold sizeVerdict. rewrite Hh, Hw.
  apply zeroish_not_above; [lia|].
  apply zeroish_add; apply zeroish_absdiff.
Qed.

(** Without a platform detector the box has the size of the central
    rectangle of the frame: when the video has the same size at both
    captures, the older [checkBlink] returns false. *)
Theorem checkBlinkBySize_fails_on_fallback_at_steady_size (env : Env) (w : World) :
  faceDetector env = false ->
  videoWidth (video env (now w)) =
  videoWidth (video env (now (afterWait env 200 (afterSample env w)))) ->
  videoHeight (video env (now w)) =
  videoHeight (video env (now (afterWait env 200 (afterSample env w)))) ->
  exists w', checkBlinkBySize env w = Ret false w'.
Proof.
  intros Hfd Hwidth Hheight.
  destruct (checkBlinkBySize_run env w) as (o1 & o2 & Hs1 & Hs2 & Hrun).
  eexists. rewrite Hrun. f_equal.
  destruct (sample_without_detector env _ _ Hfd Hs1) as [-> | ->]; [reflexivity|].
  destruct (sample_without_detector env _ _ Hfd Hs2) as [-> | ->]; [reflexivity|].
  apply sizeVerdict_same_size; cbn [height width]; [rewrite Hheight|rewrite Hwidth];
    reflexivity.
Qed.

(** ** The host *)

Lemma run_reason_cases (env : Env) (w : World) :
  exists r w',
    runLivenessSequence env w = Ret r w' /\
    ((alive r = true /\ reason r = None) \/
     (alive r = false /\ reason r = Some noFaceText) \/
     (alive r = false /\
      exists ch, In ch [blink; turn_left; turn_right] /\
        reason r = Some (challengeFailedText (challengeName ch)))).
Proof.
  destruct (runSequence_shape env [blink; turn_left; turn_right] w)
    as (r & w' & Hr & ann & _ & Hshape & _).
  exists r, w'. split; [exact Hr|].
  destruct Hshape as [ | |done c rest Hsplit]; cbn [alive reason]; auto.
  right. right. split; [reflexivity|]. exists c. split; [|reflexivity].
  rewrite Hsplit. apply in_or_app. right. left. reflexivity.
Qed.

(** The alert for the result of a run never reads "Falha: undefined":
    for a run that is alive it is the text of success, and for one that
    is not it is "Falha: " followed by the reason, which is the text for
    no face or "Falha no desafio: " and the name of a challenge. *)
Theorem alert_always_has_a_reason (env : Env) (w : World) :
  exists r w',
    runLivenessSequence env w = Ret r w' /\
    App.alertText r <> "Falha: undefined"%string /\
    (alive r = true ->
     App.severity r = App.success /\
     App.alertText r = "Prova de vida concluída com sucesso"%string) /\
    (alive r = false ->
     App.severity r = App.error /\
     (App.alertText r = ("Falha: " ++ noFaceText)%string \/
      exists ch, In ch [blink; turn_left; turn_right] /\
        App.alertText r = ("Falha: Falha no desafio: " ++ challengeName ch)%string)).
Proof.
  destruct (run_reason_cases env w) as (r & w' & Hr & Hcases).
  exists r, w'. split; [exact Hr|].
  unfold App.alertText, App.severity.
  destruct Hcases as [[Ha Hre]|[[Ha Hre]|[Ha (ch & Hin & Hre)]]]; rewrite Ha; rewrite ?Hre.
  - split; [discriminate|]. split; [auto|discriminate].
  - split; [discriminate|]. split; [discriminate|]. intros _. split; [reflexivity|].
    left. reflexivity.
  - split.
    + simpl. unfold challengeFailedText. simpl. discriminate.
    + split; [discriminate|]. intros _. split; [reflexivity|].
      right. exists ch. split; [exact Hin|]. reflexivity.
Qed.

Lemma listened_delivered (w w' : World) (u : LivenessCheck.Ui) :
  LivenessCheck.delivered (LivenessCheck.listened w w' u) = LivenessCheck.delivered u.
Proof.
  unfold LivenessCheck.listened.
  generalize (skipn (List.length (announced (log w))) (announced (log w'))).
  intros l. revert u.
  induction l as [|c l IH]; intros u; simpl; [reflexivity|]. rewrite IH. reflexivity.
Qed.

(** [handleRun] with both references set never rejects: it hands exactly
    one result to [onResult], that of the run, and leaves [running] false
    and no current challenge.  With a reference missing it does nothing. *)
Theorem handleRun_delivers_one_result
    (env : Env) (ui : LivenessCheck.Ui) (w : World) :
  (exists r w',
      runLivenessSequence env w = Ret r w' /\
      LivenessCheck.handleRun true true env ui w =
      ({| LivenessCheck.running := false;
          LivenessCheck.currentChallenge := None;
          LivenessCheck.delivered := LivenessCheck.delivered ui ++ [r] |},
       Ret tt w')) /\
  (forall videoRef canvasRef,
      videoRef = false \/ canvasRef = false ->
      LivenessCheck.handleRun videoRef canvasRef env ui w = (ui, Ret tt w)).
Proof.
  split.
  - destruct (runSequence_shape env [blink; turn_left; turn_right] w)
      as (r & w' & Hr & _).
    exists r, w'. split; [exact Hr|].
    unfold LivenessCheck.handleRun. cbn [negb orb].
    unfold runLivenessSequence. rewrite Hr.
    f_equal. unfold LivenessCheck.finally, LivenessCheck.onResult.
    unfold LivenessCheck.setCurrentChallenge at 1.
    unfold LivenessCheck.setRunning at 1.
    cbn [LivenessCheck.running LivenessCheck.currentChallenge LivenessCheck.delivered].
    rewrite listened_delivered. reflexivity.
  - intros videoRef canvasRef [-> | ->]; unfold LivenessCheck.handleRun;
      [reflexivity|]. rewrite orb_true_r. reflexivity.
Qed.

Lemma tick_bounds (p : Z) : 0 <= p <= 100 -> p <= LivenessCheck.tick p <= 100.
Proof. unfold LivenessCheck.tick. lia. Qed.

(** The progress after [n] ticks is 3 per tick up to 100: it never goes
    beyond 100, never goes back, and is 100 from the 34th tick on. *)
Theorem progress_is_three_per_tick_up_to_100 (n : nat) :
  LivenessCheck.progressAfter n = Z.min 100 (3 * Z.of_nat n) /\
  0 <= LivenessCheck.progressAfter n <= 100 /\
  LivenessCheck.progressAfter n <= LivenessCheck.progressAfter (S n) /\
  ((34 <= n)%nat -> LivenessCheck.progressAfter n = 100).
Proof.
  assert (H : forall k, LivenessCheck.progressAfter k = Z.min 100 (3 * Z.of_nat k)).
  { induction k as [|k IH]; [reflexivity|].
    change (LivenessCheck.progressAfter (S k))
      with (LivenessCheck.tick (LivenessCheck.progressAfter k)).
    rewrite IH. unfold LivenessCheck.tick. lia. }
  rewrite !H. repeat split; lia.
Qed.

Lemma camera_ready_step (s : Camera.State) (c : Camera.Call) :
  (Camera.isReady s = true ->
   exists stream, Camera.streamRef s = Some stream /\
     In stream (Camera.liveStreams s) /\ Camera.error s = None) ->
  Camera.isReady (Camera.call s c) = true ->
  exists stream, Camera.streamRef (Camera.call s c) = Some stream /\
    In stream (Camera.liveStreams (Camera.call s c)) /\
    Camera.error (Camera.call s c) = None.
Proof.
  intros Hinv. destruct c as [a|]; [|discriminate].
  unfold Camera.call, Camera.start.
  destruct (Camera.userMedia a) as [e|stream]; [discriminate|].
  destruct (Camera.hasVideo a).
  - destruct (Camera.play a); [discriminate|].
    intros _. exists stream. simpl. auto.
  - simpl. intros _. exists stream. simpl. auto.
Qed.

(** After any calls of [start] and [stop], each settled before the next
    is made, a camera that is ready holds a stream, the hook has not
    stopped the tracks of that stream, and no error is set. *)
Theorem camera_ready_holds_a_running_stream (calls : list Camera.Call) :
  let s := fold_left Camera.call calls Camera.initial in
  Camera.isReady s = true ->
  exists stream,
    Camera.streamRef s = Some stream /\
    In stream (Camera.liveStreams s) /\
    Camera.error s = None.
Proof.
  cbv zeta.
  assert (H : forall s0,
             (Camera.isReady s0 = true ->
              exists stream, Camera.streamRef s0 = Some stream /\
                In stream (Camera.liveStreams s0) /\ Camera.error s0 = None) ->
             Camera.isReady (fold_left Camera.call calls s0) = true ->
             exists stream,
               Camera.streamRef (fold_left Camera.call calls s0) = Some stream /\
               In stream (Camera.liveStreams (fold_left Camera.call calls s0)) /\
               Camera.error (fold_left Camera.call calls s0) = None).
  { induction calls as [|c calls IH]; intros s0 Hinv; simpl; [exact Hinv|].
    apply IH. apply camera_ready_step. exact Hinv. }
  apply H. discriminate.
Qed.

(** The tracks of a stream are stopped only while it is the current
    stream, and only by [stop] or by the clean-up at unmounting: [start]
    stops none, not even those of the stream it replaces. *)
Theorem camera_stream_stopped_only_while_current
    (s : Camera.State) (e : Camera.Step) (stream : nat) :
  In stream (Camera.liveStreams s) ->
  ~ In stream (Camera.liveStreams (Camera.step s e)) ->
  (e = Camera.Called Camera.CallStop \/ e = Camera.Unmounted) /\
  Camera.streamRef s = Some stream.
Proof.
  intros Hlive Hgone.
  assert (Hfilter : forall current,
             ~ In stream (filter (fun i => negb (Nat.eqb i current)) (Camera.liveStreams s)) ->
             Some current = Some stream).
  { intros current Hn. f_equal.
    destruct (Nat.eqb_spec stream current) as [Heq|Hne]; [auto|].
    exfalso. apply Hn. apply filter_In. split; [exact Hlive|].
    apply negb_true_iff. apply Nat.eqb_neq. exact Hne. }
  destruct e as [[a|]|].
  - exfalso. apply Hgone. unfold Camera.step, Camera.call, Camera.start.
    destruct (Camera.userMedia a) as [e|granted]; simpl; [exact Hlive|].
    destruct (Camera.hasVideo a); [destruct (Camera.play a)|]; simpl; auto.
  - split; [left; reflexivity|].
    unfold Camera.step, Camera.call, Camera.stop in Hgone.
    cbn [Camera.liveStreams] in Hgone.
    destruct (Camera.streamRef s) as [current|]; [|contradiction].
    apply Hfilter. exact Hgone.
  - split; [right; reflexivity|].
    unfold Camera.step, Camera.unmount in Hgone.
    cbn [Camera.liveStreams] in Hgone.
    destruct (Camera.streamRef s) as [current|]; [|contradiction].
    apply Hfilter. exact Hgone.
Qed.

(** A stream that is running without being the current one stays so
    over a step, a [start] that is handed that very stream apart. *)
Lemma replaced_stream_step (s : Camera.State) (e : Camera.Step) (stream : nat) :
  (forall a, e = Camera.Called (Camera.CallStart a) -> Camera.userMedia a <> inr stream) ->
  In stream (Camera.liveStreams s) /\ Camera.streamRef s <> Some stream ->
  In stream (Camera.liveStreams (Camera.step s e)) /\
  Camera.streamRef (Camera.step s e) <> Some stream.
Proof.
  intros Hfresh [Hlive Hnot].
  assert (Hkeep : forall current,
             Some current <> Some stream ->
             In stream (filter (fun i => negb (Nat.eqb i current)) (Camera.liveStreams s))).
  { intros current Hc. apply filter_In. split; [exact Hlive|].
    apply negb_true_iff. apply Nat.eqb_neq. congruence. }
  destruct e as [[a|]|].
  - specialize (Hfresh a eq_refl).
    unfold Camera.step, Camera.call, Camera.start.
    destruct (Camera.userMedia a) as [e|granted]; simpl; [auto|].
    assert (Hg : Some granted <> Some stream) by congruence.
    destruct (Camera.hasVideo a); [destruct (Camera.play a)|]; simpl; auto.
  - unfold Camera.step, Camera.call, Camera.stop. simpl.
    split; [|discriminate].
    destruct (Camera.streamRef s) as [current|]; [apply Hkeep; exact Hnot|exact Hlive].
  - unfold Camera.step, Camera.unmount. simpl.
    split; [|exact Hnot].
    destruct (Camera.streamRef s) as [current|]; [apply Hkeep; exact Hnot|exact Hlive].
Qed.

(** A stream that is running but is not the current one, as the stream
    is that a second [start] has replaced, is never stopped: it is still
    running after any calls and after unmounting, as long as no later
    [start] is handed the same stream again. *)
Theorem camera_replaced_stream_is_never_stopped
    (s : Camera.State) (steps : list Camera.Step) (stream : nat) :
  In stream (Camera.liveStreams s) ->
  Camera.streamRef s <> Some stream ->
  (forall a, In (Camera.Called (Camera.CallStart a)) steps ->
             Camera.userMedia a <> inr stream) ->
  In stream (Camera.liveStreams (fold_left Camera.step steps s)).
Proof.
  intros Hlive Hnot Hfresh.
  assert (H : In stream (Camera.liveStreams (fold_left Camera.step steps s)) /\
              Camera.streamRef (fold_left Camera.step steps s) <> Some stream).
  { revert s Hlive Hnot.
    induction steps as [|e steps IH]; intros s Hlive Hnot; simpl; [auto|].
    destruct (replaced_stream_step s e stream) as [H1 H2].
    - intros a ->. apply Hfresh. left. reflexivity.
    - auto.
    - apply IH; [|exact H1|exact H2].
      intros a Hin. apply Hfresh. right. exact Hin. }
  exact (proj1 H).
Qed.

(* ================================================================== *)
(** * The further properties at sample inputs *)
(* ================================================================== *)

(** The chequerboard cut to 4 columns is too narrow for a face. *)
Lemma fallback_none_on_frames_under_5_pixels_witness :
  Heuristic.fallback 4 10 Sample.faceBitmap = None.
Proof.
  apply (fallback_none_on_frames_under_5_pixels 4 10 Sample.faceBitmap).
  left. lia.
Defined.

(** The chequerboard and its negative give the same box. *)
Lemma fallback_box_depends_on_size_only_witness :
  Heuristic.fallback 10 10 Sample.faceBitmap = Some {| x := 2; y := 2; width := 6; height := 6 |} /\
  Heuristic.fallback 10 10 Sample.blinkBitmap = Some {| x := 2; y := 2; width := 6; height := 6 |}.
Proof.
  assert (H1 : Heuristic.fallback 10 10 Sample.faceBitmap
               = Some {| x := 2; y := 2; width := 6; height := 6 |})
    by (vm_compute; reflexivity).
  assert (H2 : Heuristic.fallback 10 10 Sample.blinkBitmap
               = Some {| x := 2; y := 2; width := 6; height := 6 |})
    by (vm_compute; reflexivity).
  destruct (fallback_box_depends_on_size_only 10 10 _ _ _ _ H1 H2) as [_ _].
  split; assumption.
Defined.

(** On the video of the chequerboard, 10 pixels wide throughout, a face
    is found in both samples and the turn is not seen. *)
Lemma checkMovement_fails_on_fallback_at_steady_width_witness :
  exists w', checkMovement Sample.envBlink Left (Sample.start Sample.flatCanvas) = Ret false w'.
Proof.
  apply (checkMovement_fails_on_fallback_at_steady_width
           Sample.envBlink Left (Sample.start Sample.flatCanvas)).
  - reflexivity.
  - reflexivity.
Defined.

Lemma run_never_alive_on_fallback_at_steady_width_witness :
  exists r w',
    runLivenessSequence Sample.envBlink (Sample.start Sample.flatCanvas) = Ret r w' /\
    alive r = false /\
    (List.length (steps r) <= 3)%nat.
Proof.
  apply (run_never_alive_on_fallback_at_steady_width
           Sample.envBlink (Sample.start Sample.flatCanvas)).
  - reflexivity.
  - intros t t'. reflexivity.
Defined.

(** The eye band of the central box of a 10 by 10 frame. *)
Lemma eye_band_inside_box_and_frame_witness :
  insideFrame 10 10 {| x := 2; y := 2; width := 6; height := 6 |} /\
  Blink.computeEyeBand {| x := 2; y := 2; width := 6; height := 6 |} =
  {| Blink.ex := 2; Blink.ey := JS.ofZ 3; Blink.ew := 6; Blink.eh := 1 |} /\
  2 + 6 <= 10 /\
  exists row,
    JS.ofZ 3 = JS.ofZ row /\ 2 <= row /\ row + 1 <= 8 /\ row + 1 <= 10.
Proof.
  assert (H : insideFrame 10 10 {| x := 2; y := 2; width := 6; height := 6 |}).
  { unfold insideFrame. simpl. repeat split; vm_compute; congruence. }
  split; [exact H|]. split; [vm_compute; reflexivity|].
  destruct (eye_band_inside_box_and_frame 10 10 _ H) as (_ & _ & Hc & _ & _ & _ & Hr).
  - reflexivity.
  - split; [exact Hc|]. exact Hr.
Defined.


Lemma diffInRegion_symmetric_witness :
  Blink.diffInRegion MoreSamples.faceImage MoreSamples.blinkImage 2 3 6 1 =
  Blink.diffInRegion MoreSamples.blinkImage MoreSamples.faceImage 2 3 6 1.
Proof.
  apply (diffInRegion_symmetric MoreSamples.faceImage MoreSamples.blinkImage 2 3 6 1).
  reflexivity.
Defined.

Example diffInRegion_of_the_exchange :
  Blink.diffInRegion MoreSamples.faceImage MoreSamples.blinkImage 2 3 6 1 = (6 # 6)%Q.
Proof. vm_compute. reflexivity. Qed.

(** A face 3 pixels high: the blink check fails although the video
    exchanges nothing or everything. *)
Lemma checkBlink_fails_on_a_box_too_small_witness :
  exists w', checkBlink MoreSamples.envTinyFace (Sample.start Sample.flatCanvas) = Ret false w'.
Proof.
  apply (checkBlink_fails_on_a_box_too_small
           MoreSamples.envTinyFace (Sample.start Sample.flatCanvas)
           (afterSample MoreSamples.envTinyFace (Sample.start Sample.flatCanvas))
           {| x := 4; y := 4; width := 3; height := 3 |}).
  - vm_compute. reflexivity.
  - left. vm_compute. reflexivity.
Defined.

(** A box that grows by 10 pixels each way between the samples. *)
Lemma checkBlinkBySize_true_iff_box_size_changed_witness :
  exists w2,
    checkBlinkBySize MoreSamples.envGrowingFace (Sample.start Sample.flatCanvas) = Ret true w2.
Proof.
  destruct (checkBlinkBySize_true_iff_box_size_changed
              MoreSamples.envGrowingFace
              (Sample.start Sample.flatCanvas)
              (afterSample MoreSamples.envGrowingFace (Sample.start Sample.flatCanvas))
              (afterSample MoreSamples.envGrowingFace
                 (afterWait MoreSamples.envGrowingFace 200
                    (afterSample MoreSamples.envGrowingFace
                       (Sample.start Sample.flatCanvas))))
              (Some {| x := 100; y := 50; width := 200; height := 200 |})
              (Some {| x := 100; y := 50; width := 210; height := 210 |}))
    as (v & Hrun & Hiff & _).
  - vm_compute. reflexivity.
  - vm_compute. reflexivity.
  - eexists. rewrite Hrun. f_equal. apply Hiff.
    eexists. eexists. split; [reflexivity|]. split; [reflexivity|].
    vm_compute. reflexivity.
Defined.

Lemma checkBlinkBySize_fails_on_fallback_at_steady_size_witness :
  exists w', checkBlinkBySize Sample.envBlink (Sample.start Sample.flatCanvas) = Ret false w'.
Proof.
  apply (checkBlinkBySize_fails_on_fallback_at_steady_size
           Sample.envBlink (Sample.start Sample.flatCanvas)).
  - reflexivity.
  - reflexivity.
  - reflexivity.
Defined.

(** After a granted [start], a [stop] and a granted [start] again, the
    camera is ready and holds stream 1, running. *)
Lemma camera_ready_holds_a_running_stream_witness :
  exists stream,
    Camera.streamRef
      (fold_left Camera.call
         [Camera.CallStart MoreSamples.granted; Camera.CallStop;
          Camera.CallStart MoreSamples.granted] Camera.initial) = Some stream /\
    In stream
      (Camera.liveStreams
         (fold_left Camera.call
            [Camera.CallStart MoreSamples.granted; Camera.CallStop;
             Camera.CallStart MoreSamples.granted] Camera.initial)) /\
    Camera.error
      (fold_left Camera.call
         [Camera.CallStart MoreSamples.granted; Camera.CallStop;
          Camera.CallStart MoreSamples.granted] Camera.initial) = None.
Proof.
  apply (camera_ready_holds_a_running_stream
           [Camera.CallStart MoreSamples.granted; Camera.CallStop;
            Camera.CallStart MoreSamples.granted]).
  reflexivity.
Defined.

(** Stream 1 running, stream 2 current: a [stop] leaves stream 1
    running; it is stream 2 that it stops. *)
Lemma camera_stream_stopped_only_while_current_witness :
  Camera.step
    {| Camera.streamRef := Some 2%nat; Camera.isReady := true;
       Camera.error := None; Camera.liveStreams := [2; 1]%nat |}
    Camera.Unmounted =
  {| Camera.streamRef := Some 2%nat; Camera.isReady := true;
     Camera.error := None; Camera.liveStreams := [1]%nat |} /\
  (Camera.Unmounted = Camera.Called Camera.CallStop \/ Camera.Unmounted = Camera.Unmounted) /\
  Some 2%nat = Some 2%nat.
Proof.
  split; [reflexivity|].
  apply (camera_stream_stopped_only_while_current
           {| Camera.streamRef := Some 2%nat; Camera.isReady := true;
              Camera.error := None; Camera.liveStreams := [2; 1]%nat |}
           Camera.Unmounted 2%nat).
  - simpl. left. reflexivity.
  - simpl. intros [H|[]]. discriminate H.
Defined.

(** Stream 1 was replaced by stream 2: after a [stop], a [start] that is
    granted stream 3 and the unmounting, stream 1 is still running. *)
Lemma camera_replaced_stream_is_never_stopped_witness :
  In 1%nat
    (Camera.liveStreams
       (fold_left Camera.step
          [Camera.Called Camera.CallStop;
           Camera.Called (Camera.CallStart MoreSamples.grantedThird);
           Camera.Unmounted]
          {| Camera.streamRef := Some 2%nat; Camera.isReady := true;
             Camera.error := None; Camera.liveStreams := [2; 1]%nat |})).
Proof.
  apply (camera_replaced_stream_is_never_stopped
           {| Camera.streamRef := Some 2%nat; Camera.isReady := true;
              Camera.error := None; Camera.liveStreams := [2; 1]%nat |}
           [Camera.Called Camera.CallStop;
            Camera.Called (Camera.CallStart MoreSamples.grantedThird);
            Camera.Unmounted]
           1%nat).
  - simpl. right. left. reflexivity.
  - discriminate.
  - intros a [H|[H|[H|[]]]]; try discriminate H.
    inversion H. subst a. discriminate.
Defined.

(** Pixel (2, 3) is black in the chequerboard and white in its
    negative: the three differences are 255, and so is their average. *)
Lemma pixelChanged_as_computed_witness :
  Blink.pixelChanged MoreSamples.faceImage MoreSamples.blinkImage 2 3 = true.
Proof.
  rewrite (pixelChanged_as_computed MoreSamples.faceImage MoreSamples.blinkImage 2 3
             0 0 0 255 255 255).
  - reflexivity.
  - repeat constructor; lia.
  - vm_compute. reflexivity.
  - vm_compute. reflexivity.
Defined.

(** A canvas 640 pixels wide: the central columns begin at 128 and are
    384, in binary64 as in exact arithmetic. *)
Lemma floorMul_as_computed_witness :
  (exists r, JS.mul (JS.ofZ 640) (JS.lit (2 # 10)) = JS.Fin r /\ Qfloor r = 128) /\
  (exists r, JS.mul (JS.ofZ 640) (JS.lit (6 # 10)) = JS.Fin r /\ Qfloor r = 384).
Proof.
  destruct (floorMul_as_computed 640) as [H2 H6]; [lia|].
  split; [exact H2|exact H6].
Defined.

(** The chequerboard and its negative over the six pixels of the eye
    band: the test as binary64 computes it is passed, as the exact one
    is. *)
Lemma blinkVerdict_as_computed_witness :
  JS.gt (JS.max (JS.div (JS.ofZ 6) (JS.ofZ 6)) (JS.ofZ 0)) (JS.lit (6 # 100)) = true /\
  JS.Qltb (6 # 100)
    (Qmax (Blink.diffInRegion MoreSamples.faceImage MoreSamples.blinkImage 2 3 6 1)
          (Blink.diffInRegion MoreSamples.blinkImage MoreSamples.blinkImage 2 3 6 1)) = true.
Proof.
  pose proof (blinkVerdict_as_computed
                MoreSamples.faceImage MoreSamples.blinkImage MoreSamples.blinkImage 2 3 6 1) as H.
  cbv zeta in H.
  split; [vm_compute; reflexivity|].
  rewrite <- H; [vm_compute; reflexivity|].
  vm_compute. reflexivity.
Defined.

(* ================================================================== *)
(** * Binary64 at sample inputs *)
(* ================================================================== *)

(** On these operands the four operators give what the IEEE 754
    specification of the Standard Library gives at precision 53. *)
Example round_agrees_with_the_standard_library :
  forallb JS.agreesWithSpec MoreSamples.operands = true.
Proof. vm_compute. reflexivity. Qed.

(** [100 * 1.15] is 114.99999999999999, [10.3 - 0.3] is 10 although the
    two doubles are more than 10 apart, and [0.7 + 0.3] is 1. *)
Example products_and_sums_are_rounded :
  JS.mul (JS.ofZ 100) (JS.lit (115 # 100)) = JS.Fin (8092405580431359 # 70368744177664) /\
  JS.gt (JS.ofZ 115) (JS.mul (JS.ofZ 100) (JS.lit (115 # 100))) = true /\
  JS.sub (JS.Fin (JS.dbl (103 # 10))) (JS.Fin (JS.dbl (3 # 10))) = JS.Fin 10 /\
  (10 < JS.dbl (103 # 10) - JS.dbl (3 # 10))%Q /\
  JS.add (JS.Fin (JS.dbl (7 # 10))) (JS.Fin (JS.dbl (12 # 10) * (25 # 100))) = JS.Fin 1 /\
  (JS.dbl (7 # 10) + JS.dbl (12 # 10) * (25 # 100) < 1)%Q.
Proof. vm_compute. repeat split. Qed.

(** C5 fails where the central variance is 1.15 times the mean edge
    variance.  In this frame the luminance variance of the centre is 115
    and that of every strip 100, exactly and as the code computes them;
    115 is 1.15 times 100; and a face is found: the threshold the code
    compares with is the rounded product of 100 and the double nearest
    1.15, which is below 115. *)
Lemma fallback_finds_a_face_at_the_exact_threshold :
  let frame := MoreSamples.thresholdBitmap in
  validFrame 10 10 frame /\
  (Spec.exactCentralVariance 10 10 frame == 115)%Q /\
  (Spec.exactMeanOfEdgeVariances 10 10 frame == 100)%Q /\
  (Spec.exactCentralVariance 10 10 frame ==
   (115 # 100) * Spec.exactMeanOfEdgeVariances 10 10 frame)%Q /\
  Spec.centralVariance 10 10 frame = JS.Fin 115 /\
  Spec.meanOfEdgeVariances 10 10 frame = JS.Fin 100 /\
  Heuristic.fallback 10 10 frame = Some {| x := 2; y := 2; width := 6; height := 6 |}.
Proof.
  split; [apply validFrameb_sound; vm_compute; reflexivity|].
  vm_compute. repeat split.
Qed.

(** A frame of one colour, (5, 0, 0): the luminance 5/3 is not a double,
    the variances the code computes are rounding residues, 2^-50 in the
    centre and negative in the strips, and a face is found. *)
Example fallback_on_a_uniform_frame :
  validFrame 10 10 MoreSamples.uniformRed /\
  Spec.centralVariance 10 10 MoreSamples.uniformRed = JS.Fin (1 # 1125899906842624) /\
  Spec.meanOfEdgeVariances 10 10 MoreSamples.uniformRed = JS.Fin (-3 # 2251799813685248) /\
  Heuristic.fallback 10 10 MoreSamples.uniformRed =
  Some {| x := 2; y := 2; width := 6; height := 6 |}.
Proof.
  split; [apply validFrameb_sound; vm_compute; reflexivity|].
  vm_compute. repeat split.
Qed.

(** The luminance takes all three channels: a chequerboard in the green
    channel alone is a face. *)
Example fallback_sees_the_green_channel :
  Heuristic.fallback 10 10 MoreSamples.greenBitmap =
  Some {| x := 2; y := 2; width := 6; height := 6 |}.
Proof. vm_compute. reflexivity. Qed.

(** Boxes at x = 0.3 and then x = 10.3: the displacement computed is
    exactly 10, and the turn to the right is not seen. *)
Example movement_of_ten_as_computed :
  movementVerdict Right (Some (MoreSamples.boxOf (3 # 10) 0 1 1))
                        (Some (MoreSamples.boxOf (103 # 10) 0 1 1)) = false /\
  movementVerdict Right (Some (MoreSamples.boxOf (3 # 10) 0 1 1))
                        (Some (MoreSamples.boxOf (104 # 10) 0 1 1)) = true.
Proof. vm_compute. split; reflexivity. Qed.

(** The box (0.7, 0.7, 1.2, 1.2): the eye band begins at row 1, the
    floor of the rounded sum, not at row 0. *)
Example eye_band_row_is_the_floor_of_the_rounded_sum :
  Blink.computeEyeBand (MoreSamples.boxOf (7 # 10) (7 # 10) (12 # 10) (12 # 10)) =
  {| Blink.ex := 0; Blink.ey := JS.Fin 1; Blink.ew := 1; Blink.eh := 0 |} /\
  Qfloor (JS.dbl (7 # 10) + JS.dbl (12 # 10) * (25 # 100)) = 0.
Proof. vm_compute. split; reflexivity. Qed.

(** Heights 0.2 and then 6.2, widths equal: the sum computed is exactly
    6, and the older blink check sees nothing. *)
Example size_change_of_six_as_computed :
  sizeVerdict (Some (MoreSamples.boxOf 0 0 1 (2 # 10)))
              (Some (MoreSamples.boxOf 0 0 1 (62 # 10))) = false /\
  (6 < Qabs (JS.dbl (2 # 10) - JS.dbl (62 # 10)))%Q.
Proof. vm_compute. split; reflexivity. Qed.

(** A change below the eye band is no blink: on the video whose row 6
    exchanges its colours, a sixth of the pixels of the face box change
    and [checkBlink] returns false. *)
Example checkBlink_looks_at_the_eye_band_only :
  (exists w', checkBlink MoreSamples.envChin (Sample.start Sample.flatCanvas) = Ret false w') /\
  Blink.diffInRegion MoreSamples.faceImage
    {| iwidth := 10; iheight := 10; idata := MoreSamples.chinBitmap |} 2 2 6 6 = (6 # 36)%Q /\
  Spec.eyeBandPixels {| x := 2; y := 2; width := 6; height := 6 |} =
  [(2, 3); (3, 3); (4, 3); (5, 3); (6, 3); (7, 3)].
Proof.
  split; [eexists; vm_compute; reflexivity|].
  split; vm_compute; reflexivity.
Qed.
